(** * go-zetasqlite: the SQL formatter ([internal/formatter.go])

    A shallow embedding of the formatter that translates a resolved
    ZetaSQL tree into SQLite text, and the properties of it that the
    specification states.

    Go strings are [string], slices are [list], Go maps are [gmap].
    The [context.Context] threaded through [FormatSQL] is split in two:
    the values that are shadowed per call chain ([Env]) and the objects
    it points to, which every callee mutates in place ([St]).  A Go
    panic (index out of range, nil dereference) is an outcome of its
    own, next to the returned text and the returned error. *)

From Stdlib Require Import String Ascii List Arith ZArith Lia.
From stdpp Require Import base option list gmap strings pretty.

Open Scope string_scope.
Open Scope list_scope.

(** ** Strings: the pieces of Go's [strings] package the formatter uses *)

Module Strings.

(** [strings.Join(elems, sep)]. *)
Definition Join (elems : list string) (sep : string) : string :=
  String.concat sep elems.

(** [strings.HasPrefix(s, prefix)]. *)
Definition HasPrefix (s prefix : string) : bool := String.prefix prefix s.

(** A text of bytes below [utf8.RuneSelf] only. *)
Fixpoint isASCII (s : string) : bool :=
  match s with
  | EmptyString => true
  | String c rest => ((nat_of_ascii c <? 128)%nat && isASCII rest)%bool
  end.

(** One byte of the ASCII branch of [strings.ToLower]: a byte from [A]
    to [Z] is moved by ['a' - 'A']. *)
Definition lowerAscii (c : ascii) : ascii :=
  let n := nat_of_ascii c in
  if ((65 <=? n)%nat && (n <=? 90)%nat)%bool then ascii_of_nat (n + 32)
  else c.

Fixpoint lowerBytes (s : string) : string :=
  match s with
  | EmptyString => EmptyString
  | String c rest => String (lowerAscii c) (lowerBytes rest)
  end.

(** [strings.ToLower(s)].  A text of ASCII bytes only is lowered byte
    by byte; any other text goes to [strings.Map(unicode.ToLower, s)],
    which is the standard library's and is left as the parameter
    [mapLower]. *)
Definition ToLower (mapLower : string -> string) (s : string) : string :=
  if isASCII s then lowerBytes s else mapLower s.

(** [strings.Replace(s, old, new, 1)] for a one-byte [old]: the first
    occurrence of [old] in [s] is replaced by [new]; a text without
    [old] is returned as it is. *)
Fixpoint ReplaceFirst (s : string) (old : ascii) (new : string) : string :=
  match s with
  | EmptyString => EmptyString
  | String c rest =>
      if Ascii.eqb c old then new +:+ rest
      else String c (ReplaceFirst rest old new)
  end.

(** [s[1:]]. *)
Definition dropFirst (s : string) : string :=
  match s with
  | EmptyString => EmptyString
  | String _ rest => rest
  end.

(** The byte [c] occurs in [s]. *)
Fixpoint contains (c : ascii) (s : string) : bool :=
  match s with
  | EmptyString => false
  | String d rest => (Ascii.eqb d c || contains c rest)%bool
  end.

End Strings.

(** ** Name paths *)

(** [FormatName]: the segments joined with an underscore. *)
Definition FormatName (namePath : list string) : string :=
  Strings.Join namePath "_".

(** The [for ... range namePath] loop of [MergeNamePath]: [merged]
    grows by one segment per turn, and the loop breaks at the first
    segment equal to [queryPath[0]]. *)
Fixpoint mergeLoop (head : string) (namePath merged : list string)
  : list string :=
  match namePath with
  | [] => merged
  | path :: rest =>
      if String.eqb head path then merged
      else mergeLoop head rest (merged ++ [path])
  end.

Definition MergeNamePath (namePath queryPath : list string) : list string :=
  match queryPath with
  | [] => namePath
  | head :: _ => mergeLoop head namePath [] ++ queryPath
  end.

(** The specification's wording of the collected prefix: [P] is the
    front of [declared] up to, and without, the first segment equal to
    [first]; all of [declared] when there is none. *)
Definition collectedPrefix (first : string) (declared P : list string)
  : Prop :=
  exists rest,
    declared = P ++ rest /\
    ~ In first P /\
    (rest = [] \/ exists rest', rest = first :: rest').

(** ** The resolved tree

    The analyzer's tree ([resolved_ast]) as the formatter reads it.  A
    child of interface type ([ExprNode], [ScanNode]) is a node of its
    own, whose payload may be absent; a child the analyzer hands over
    with its concrete type is the payload record itself. *)

(** A resolved column: [Column().Name()], [Column().TableName()]. *)
Record Column : Type := {
  Column_Name : string;
  Column_TableName : string
}.

(** [ast.SetOperationType]: the six operators the formatter names; any
    other value of the integer type is [SetOperationTypeOther]. *)
Inductive SetOperationType : Type :=
| SetOperationTypeUnionAll
| SetOperationTypeUnionDistinct
| SetOperationTypeIntersectAll
| SetOperationTypeIntersectDistinct
| SetOperationTypeExceptAll
| SetOperationTypeExceptDistinct
| SetOperationTypeOther (code : Z).

(** [ast.SubqueryType]; only the existence test is told apart. *)
Inductive SubqueryType : Type :=
| SubqueryTypeScalar
| SubqueryTypeArray
| SubqueryTypeExists
| SubqueryTypeIn
| SubqueryTypeLikeAny
| SubqueryTypeLikeAll.

(** [ast.BoundaryType] of a window frame; any value other than the
    five the formatter names is [BoundaryTypeOther]. *)
Inductive BoundaryType : Type :=
| UnboundedPrecedingType
| OffsetPrecedingType
| CurrentRowType
| OffsetFollowingType
| UnboundedFollowingType
| BoundaryTypeOther (code : Z).

(** [ast.FrameUnit]. *)
Inductive FrameUnit : Type :=
| FrameUnitRows
| FrameUnitRange.

(** An [ORDER BY] item: the column it refers to and its direction. *)
Record OrderByItem : Type := {
  OrderByItem_ColumnRef : Column;
  OrderByItem_IsDescending : bool
}.

Record TableScan : Type := {
  TableScan_Table : string
}.

Record WithRefScan : Type := {
  WithRefScan_WithQueryName : string
}.

Record OutputColumn : Type := {
  OutputColumn_Name : string
}.

Record ArgumentRef : Type := {
  ArgumentRef_Name : string
}.

Record QueryParameter : Type := {
  Parameter_Name : string
}.

(** The payloads that hold children, over the type [N] of nodes. *)

Record FunctionCall (N : Type) : Type := {
  FunctionCall_ArgumentList : list N;
  FunctionCall_ResultTypeName : string;
  FunctionCall_FullName : string
}.

Record AggregateFunctionCall (N : Type) : Type := {
  AggregateFunctionCall_ArgumentList : list N;
  AggregateFunctionCall_ResultTypeName : string;
  AggregateFunctionCall_FullName : string;
  AggregateFunctionCall_OrderByItemList : list OrderByItem;
  AggregateFunctionCall_Distinct : bool;
  AggregateFunctionCall_Limit : option N
}.

Record WindowFrameExpr (N : Type) : Type := {
  WindowFrameExpr_BoundaryType : BoundaryType;
  WindowFrameExpr_Expression : N
}.

Record WindowFrame (N : Type) : Type := {
  WindowFrame_FrameUnit : FrameUnit;
  WindowFrame_StartExpr : WindowFrameExpr N;
  WindowFrame_EndExpr : WindowFrameExpr N
}.

Record AnalyticFunctionCall (N : Type) : Type := {
  AnalyticFunctionCall_ArgumentList : list N;
  AnalyticFunctionCall_ResultTypeName : string;
  AnalyticFunctionCall_FullName : string;
  AnalyticFunctionCall_Distinct : bool;
  AnalyticFunctionCall_WindowFrame : option (WindowFrame N)
}.

Record GetStructField (N : Type) : Type := {
  GetStructField_Expr : N;
  GetStructField_TypeName : string;
  GetStructField_FieldIdx : Z
}.

Record SubqueryExpr (N : Type) : Type := {
  SubqueryExpr_Subquery : N;
  SubqueryExpr_SubqueryType : SubqueryType
}.

Record ArrayScan (N : Type) : Type := {
  ArrayScan_ArrayExpr : N;
  ArrayScan_ElementColumn : Column
}.

Record FilterScan (N : Type) : Type := {
  FilterScan_InputScan : N;
  FilterScan_FilterExpr : N
}.

Record ComputedColumn (N : Type) : Type := {
  ComputedColumn_Column : Column;
  ComputedColumn_Expr : N
}.

Record AggregateScan (N : Type) : Type := {
  AggregateScan_AggregateList : list (ComputedColumn N);
  AggregateScan_InputScan : N
}.

Record SetOperationItem (N : Type) : Type := {
  SetOperationItem_Scan : N
}.

Record SetOperationScan (N : Type) : Type := {
  SetOperationScan_OpType : SetOperationType;
  SetOperationScan_InputItemList : list (SetOperationItem N)
}.

(** A function group of an analytic scan; [PartitionBy] and [OrderBy]
    are [None] when the window declares none. *)
Record AnalyticFunctionGroup (N : Type) : Type := {
  AnalyticFunctionGroup_PartitionBy : option (list Column);
  AnalyticFunctionGroup_OrderBy : option (list OrderByItem);
  AnalyticFunctionGroup_AnalyticFunctionList : list (ComputedColumn N)
}.

Record AnalyticScan (N : Type) : Type := {
  AnalyticScan_InputScan : N;
  AnalyticScan_FunctionGroupList : list (AnalyticFunctionGroup N)
}.

Record ProjectScan (N : Type) : Type := {
  ProjectScan_ExprList : list (ComputedColumn N);
  ProjectScan_InputScan : N;
  ProjectScan_ColumnList : list Column
}.

Record QueryStmt (N : Type) : Type := {
  QueryStmt_Query : N
}.

Record WithEntry (N : Type) : Type := {
  WithEntry_WithQueryName : string;
  WithEntry_WithSubquery : N
}.

Record WithScan (N : Type) : Type := {
  WithScan_WithEntryList : list (WithEntry N);
  WithScan_Query : N
}.

Record DMLValue (N : Type) : Type := {
  DMLValue_Value : N
}.

Record InsertRow (N : Type) : Type := {
  InsertRow_ValueList : list (DMLValue N)
}.

Record InsertStmt (N : Type) : Type := {
  InsertStmt_InsertColumnList : list Column;
  InsertStmt_RowList : list (InsertRow N)
}.

Record DeleteStmt (N : Type) : Type := {
  DeleteStmt_WhereExpr : N
}.

(** [SetValue] is absent when the item updates nested fields or array
    elements instead of setting the target. *)
Record UpdateItem (N : Type) : Type := {
  UpdateItem_Target : N;
  UpdateItem_SetValue : option (DMLValue N)
}.

Record UpdateStmt (N : Type) : Type := {
  UpdateStmt_UpdateItemList : list (UpdateItem N);
  UpdateStmt_WhereExpr : N
}.

Arguments FunctionCall_ArgumentList {N}.
Arguments FunctionCall_ResultTypeName {N}.
Arguments FunctionCall_FullName {N}.
Arguments AggregateFunctionCall_ArgumentList {N}.
Arguments AggregateFunctionCall_ResultTypeName {N}.
Arguments AggregateFunctionCall_FullName {N}.
Arguments AggregateFunctionCall_OrderByItemList {N}.
Arguments AggregateFunctionCall_Distinct {N}.
Arguments AggregateFunctionCall_Limit {N}.
Arguments WindowFrameExpr_BoundaryType {N}.
Arguments WindowFrameExpr_Expression {N}.
Arguments WindowFrame_FrameUnit {N}.
Arguments WindowFrame_StartExpr {N}.
Arguments WindowFrame_EndExpr {N}.
Arguments AnalyticFunctionCall_ArgumentList {N}.
Arguments AnalyticFunctionCall_ResultTypeName {N}.
Arguments AnalyticFunctionCall_FullName {N}.
Arguments AnalyticFunctionCall_Distinct {N}.
Arguments AnalyticFunctionCall_WindowFrame {N}.
Arguments GetStructField_Expr {N}.
Arguments GetStructField_TypeName {N}.
Arguments GetStructField_FieldIdx {N}.
Arguments SubqueryExpr_Subquery {N}.
Arguments SubqueryExpr_SubqueryType {N}.
Arguments ArrayScan_ArrayExpr {N}.
Arguments ArrayScan_ElementColumn {N}.
Arguments FilterScan_InputScan {N}.
Arguments FilterScan_FilterExpr {N}.
Arguments ComputedColumn_Column {N}.
Arguments ComputedColumn_Expr {N}.
Arguments AggregateScan_AggregateList {N}.
Arguments AggregateScan_InputScan {N}.
Arguments SetOperationItem_Scan {N}.
Arguments SetOperationScan_OpType {N}.
Arguments SetOperationScan_InputItemList {N}.
Arguments AnalyticFunctionGroup_PartitionBy {N}.
Arguments AnalyticFunctionGroup_OrderBy {N}.
Arguments AnalyticFunctionGroup_AnalyticFunctionList {N}.
Arguments AnalyticScan_InputScan {N}.
Arguments AnalyticScan_FunctionGroupList {N}.
Arguments ProjectScan_ExprList {N}.
Arguments ProjectScan_InputScan {N}.
Arguments ProjectScan_ColumnList {N}.
Arguments QueryStmt_Query {N}.
Arguments WithEntry_WithQueryName {N}.
Arguments WithEntry_WithSubquery {N}.
Arguments WithScan_WithEntryList {N}.
Arguments WithScan_Query {N}.
Arguments DMLValue_Value {N}.
Arguments InsertRow_ValueList {N}.
Arguments InsertStmt_InsertColumnList {N}.
Arguments InsertStmt_RowList {N}.
Arguments DeleteStmt_WhereExpr {N}.
Arguments UpdateItem_Target {N}.
Arguments UpdateItem_SetValue {N}.
Arguments UpdateStmt_UpdateItemList {N}.
Arguments UpdateStmt_WhereExpr {N}.

(** The node kinds whose [FormatSQL] is [return "", nil] whatever the
    node holds. *)
Inductive EmptyKind : Type :=
| ExpressionColumnNode | ConstantNode | SystemVariableNode
| InlineLambdaNode | FilterFieldArgNode | FilterFieldNode
| ExtendedCastElementNode | ExtendedCastNode | CastNode | MakeStructNode
| MakeProtoNode | MakeProtoFieldNode | GetProtoFieldNode | GetJsonFieldNode
| FlattenNode | FlattenedArgNode | ReplaceFieldItemNode | ReplaceFieldNode
| LetExprNode | ModelNode | ConnectionNode | DescriptorNode
| SingleRowScanNode | JoinScanNode | ColumnHolderNode | GroupingSetNode
| AnonymizedAggregateScanNode | OrderByScanNode | LimitOffsetScanNode
| SampleScanNode | OrderByItemNode | ColumnAnnotationsNode
| GeneratedColumnInfoNode | ColumnDefaultValueNode | ColumnDefinitionNode
| PrimaryKeyNode | ForeignKeyNode | CheckConstraintNode | TVFScanNode
| GroupRowsScanNode | FunctionArgumentNode | ExplainStmtNode
| CreateDatabaseStmtNode | IndexItemNode | UnnestItemNode
| CreateIndexStmtNode | CreateSchemaStmtNode | CreateTableStmtNode
| CreateTableAsSelectStmtNode | CreateModelStmtNode | CreateViewStmtNode
| WithPartitionColumnsNode | CreateSnapshotTableStmtNode
| CreateExternalTableStmtNode | ExportModelStmtNode | ExportDataStmtNode
| DefineTableStmtNode | DescribeStmtNode | ShowStmtNode | BeginStmtNode
| SetTransactionStmtNode | CommitStmtNode | RollbackStmtNode
| StartBatchStmtNode | RunBatchStmtNode | AbortBatchStmtNode | DropStmtNode
| DropMaterializedViewStmtNode | DropSnapshotTableStmtNode
| RecursiveRefScanNode | RecursiveScanNode | OptionNode
| WindowPartitioningNode | WindowOrderingNode | WindowFrameNode
| WindowFrameExprNode | DMLDefaultNode | AssertStmtNode
| AssertRowsModifiedNode | UpdateArrayItemNode | MergeWhenNode
| MergeStmtNode | TruncateStmtNode | ObjectUnitNode | PrivilegeNode
| GrantStmtNode | RevokeStmtNode | AlterDatabaseStmtNode
| AlterMaterializedViewStmtNode | AlterSchemaStmtNode | AlterTableStmtNode
| AlterViewStmtNode | SetOptionsActionNode | AddColumnActionNode
| AddConstraintActionNode | DropConstraintActionNode
| DropPrimaryKeyActionNode | AlterColumnOptionsActionNode
| AlterColumnDropNotNullActionNode | AlterColumnSetDataTypeActionNode
| AlterColumnSetDefaultActionNode | AlterColumnDropDefaultActionNode
| DropColumnActionNode | RenameColumnActionNode | SetAsActionNode
| SetCollateClauseNode | AlterTableSetOptionsStmtNode | RenameStmtNode
| CreatePrivilegeRestrictionStmtNode | CreateRowAccessPolicyStmtNode
| DropPrivilegeRestrictionStmtNode | DropRowAccessPolicyStmtNode
| DropSearchIndexStmtNode | GrantToActionNode | RestrictToActionNode
| AddToRestricteeListActionNode | RemoveFromRestricteeListActionNode
| FilterUsingActionNode | RevokeFromActionNode | RenameToActionNode
| AlterPrivilegeRestrictionStmtNode | AlterRowAccessPolicyStmtNode
| AlterAllRowAccessPoliciesStmtNode | CreateConstantStmtNode
| CreateFunctionStmtNode | ArgumentDefNode | CreateTableFunctionStmtNode
| RelationArgumentScanNode | ArgumentListNode | FunctionSignatureHolderNode
| DropFunctionStmtNode | DropTableFunctionStmtNode | CallStmtNode
| ImportStmtNode | ModuleStmtNode | AggregateHavingModifierNode
| CreateMaterializedViewStmtNode | CreateProcedureStmtNode
| ExecuteImmediateArgumentNode | ExecuteImmediateStmtNode
| AssignmentStmtNode | CreateEntityStmtNode | AlterEntityStmtNode
| PivotColumnNode | PivotScanNode | ReturningClauseNode | UnpivotArgNode
| UnpivotScanNode | CloneDataStmtNode | TableAndColumnInfoNode
| AnalyzeStmtNode | AuxLoadDataStmtNode.

(** The receiver of the five methods that test [n == nil] instead of
    [n.node == nil]: a nil wrapper, or a wrapper whose payload may still
    be absent. *)
Inductive Receiver (A : Type) : Type :=
| NilReceiver
| Wrapper (node : option A).

Arguments NilReceiver {A}.
Arguments Wrapper {A}.

(** [FunctionSpec]: the body of a user-defined function, with a [?]
    for every argument. *)
Record FunctionSpec : Type := {
  FunctionSpec_Body : string
}.

(** What the formatter calls but does not define in [formatter.go]:
    the literal encoder, the three catalogues of built-in functions
    (only the presence of a name is read) and the encoders of the
    window options; and from Go's standard library the Unicode branch
    of [strings.ToLower], [strings.Map(unicode.ToLower, s)]. *)
Record Collaborators (Value : Type) : Type := {
  JSONFromZetaSQLValue : Value -> string;
  normalFuncMap : gset string;
  aggregateFuncMap : gset string;
  windowFuncMap : gset string;
  getWindowPartitionOptionFuncSQL : string -> string;
  getWindowOrderByOptionFuncSQL : string -> string;
  getWindowFrameUnitOptionFuncSQL : FrameUnit -> string;
  getWindowBoundaryStartOptionFuncSQL : BoundaryType -> string -> string;
  getWindowBoundaryEndOptionFuncSQL : BoundaryType -> string -> string;
  getWindowRowIDOptionFuncSQL : string;
  unicodeToLower : string -> string
}.

Arguments JSONFromZetaSQLValue {Value}.
Arguments normalFuncMap {Value}.
Arguments aggregateFuncMap {Value}.
Arguments windowFuncMap {Value}.
Arguments getWindowPartitionOptionFuncSQL {Value}.
Arguments getWindowOrderByOptionFuncSQL {Value}.
Arguments getWindowFrameUnitOptionFuncSQL {Value}.
Arguments getWindowBoundaryStartOptionFuncSQL {Value}.
Arguments getWindowBoundaryEndOptionFuncSQL {Value}.
Arguments getWindowRowIDOptionFuncSQL {Value}.
Arguments unicodeToLower {Value}.

(** ** The translation context *)

(** Modelled from the spec: the context accessors
    ([fullNamePathFromContext], [columnRefMap],
    [analyticOrderColumnNamesFromContext]) are not in [formatter.go].
    [St] is what they point to and the callees mutate in place: the
    name-path cursor ([paths], [idx]), the column-expression map and
    the ordered column list of the analytic accumulation ([values]). *)
Record St : Type := {
  paths : list (list string);
  idx : nat;
  columnMap : gmap string string;
  values : list string
}.

(** Modelled from the spec: the context values read with
    [namePathFromContext], [funcMapFromContext],
    [analyticTableNameFromContext] and
    [analyticPartitionColumnNamesFromContext], not in [formatter.go].
    [withAnalyticTableName] and [withAnalyticPartitionColumnNames]
    derive a context that shadows one value for the callees only; a
    table name that was never set reads as the empty text. *)
Record Env : Type := {
  namePath : list string;
  funcMap : gmap string FunctionSpec;
  analyticTableName : string;
  analyticPartitionColumnNames : list string
}.

Definition withAnalyticTableName (ctx : Env) (tableName : string) : Env :=
  {| namePath := namePath ctx;
     funcMap := funcMap ctx;
     analyticTableName := tableName;
     analyticPartitionColumnNames := analyticPartitionColumnNames ctx |}.

Definition withAnalyticPartitionColumnNames (ctx : Env)
  (names : list string) : Env :=
  {| namePath := namePath ctx;
     funcMap := funcMap ctx;
     analyticTableName := analyticTableName ctx;
     analyticPartitionColumnNames := names |}.

(** The errors [FormatSQL] creates with [fmt.Errorf]. *)
Inductive error : Type :=
| UnexpectedArgumentNodeType
| AnalyticTableNameNotFound
| UnexpectedBoundaryType (typ : BoundaryType).

(** What a call comes back with: the returned value (error [nil]), the
    returned error, or a panic of the Go runtime. *)
Inductive result (A : Type) : Type :=
| Ok (a : A)
| Err (err : error)
| Panic.

Arguments Ok {A}.
Arguments Err {A}.
Arguments Panic {A}.

(** A computation over the mutable part of the context. *)
Definition M (A : Type) : Type := St -> result A * St.

Definition ret {A : Type} (a : A) : M A := fun st => (Ok a, st).

Definition fail {A : Type} (err : error) : M A := fun st => (Err err, st).

Definition panic {A : Type} : M A := fun st => (Panic, st).

(** [x, err := c; if err != nil { return "", err }; k x]. *)
Definition bind {A B : Type} (c : M A) (k : A -> M B) : M B :=
  fun st =>
    match c st with
    | (Ok a, st') => k a st'
    | (Err err, st') => (Err err, st')
    | (Panic, st') => (Panic, st')
    end.

Notation "x <- c ;; k" := (bind c (fun x => k))
  (at level 100, c at next level, right associativity).
Notation "c ;;; k" := (bind c (fun _ => k))
  (at level 100, k at level 200, right associativity).

(** A [for ... range] loop that formats every element in turn, leaves
    at the first error and appends the texts in order. *)
Definition forM {A B : Type} (f : A -> M B) : list A -> M (list B) :=
  fix loop (l : list A) : M (list B) :=
    match l with
    | [] => ret []
    | a :: rest => b <- f a ;; bs <- loop rest ;; ret (b :: bs)
    end.

(** [orderColumnNames.values = append(orderColumnNames.values, names...)]. *)
Definition appendValues (names : list string) : M unit :=
  fun st =>
    (Ok tt,
     {| paths := paths st; idx := idx st; columnMap := columnMap st;
        values := values st ++ names |}).

(** [orderColumnNames.values = []string{}]. *)
Definition resetValues : M unit :=
  fun st =>
    (Ok tt,
     {| paths := paths st; idx := idx st; columnMap := columnMap st;
        values := [] |}).

Definition getValues : M (list string) := fun st => (Ok (values st), st).

(** [columnMap[name] = query]. *)
Definition setColumn (name query : string) : M unit :=
  fun st =>
    (Ok tt,
     {| paths := paths st; idx := idx st;
        columnMap := <[name := query]> (columnMap st);
        values := values st |}).

Definition getColumnMap : M (gmap string string) :=
  fun st => (Ok (columnMap st), st).

Definition putColumnMap (m : gmap string string) : M unit :=
  fun st =>
    (Ok tt,
     {| paths := paths st; idx := idx st; columnMap := m;
        values := values st |}).

(** The cursor moved one entry on: [fullpath.idx++]. *)
Definition advance (st : St) : St :=
  {| paths := paths st; idx := S (idx st); columnMap := columnMap st;
     values := values st |}.

(** The block every reference to a table or a function repeats:
    [path := fullpath.paths[fullpath.idx]], the merged and flattened
    name, then [fullpath.idx++].  Indexing past the end panics. *)
Definition resolveName (ctx : Env) : M string :=
  fun st =>
    match paths st !! idx st with
    | None => (Panic, st)
    | Some path =>
        (Ok (FormatName (MergeNamePath (namePath ctx) path)), advance st)
    end.

(** ** Function names *)

Definition quoted (name : string) : string := "`" +:+ name +:+ "`".

(** [resultType]: the lowered type name, and [struct] for every name
    that starts with it. *)
Definition resultTypeFamily (lower : string -> string) (typeName : string)
  : string :=
  let resultType := Strings.ToLower lower typeName in
  if Strings.HasPrefix resultType "struct" then "struct" else resultType.

(** [fmt.Sprintf("<prefix>%s_%s", bare, resultType)]. *)
Definition mangledName (prefix bare resultType : string) : string :=
  prefix +:+ bare +:+ "_" +:+ resultType.

(** The loop over [args] that fills the body of a user-defined
    function: each turn replaces the first [?] of the text so far. *)
Definition inlineBody (body : string) (args : list string) : string :=
  fold_left (fun body arg => Strings.ReplaceFirst body "?"%char arg)
    args body.

(** What the resolution of a callee ends in: a name to call, or the
    inlined body that [FormatSQL] returns at once. *)
Inductive Callee : Type :=
| CalleeName (funcName : string)
| Inlined (sql : string).

(** The resolution of the callee, the same in the three call nodes up
    to the prefix and the catalogue: a name with the analyzer's [$] is
    stripped and mangled, a catalogued name is mangled, and any other
    name is resolved against the next cursor entry and inlined when a
    [FunctionSpec] is registered for it. *)
Definition resolveCallee (lower : string -> string) (prefix : string)
  (catalog : gset string) (typeName fullName : string) (args : list string)
  (ctx : Env) : M Callee :=
  let resultType := resultTypeFamily lower typeName in
  if Strings.HasPrefix fullName "$" then
    ret (CalleeName (mangledName prefix (Strings.dropFirst fullName)
                       resultType))
  else if decide (fullName ∈ catalog) then
    ret (CalleeName (mangledName prefix fullName resultType))
  else
    funcName <- resolveName ctx ;;
    match funcMap ctx !! funcName with
    | Some spec =>
        ret (Inlined ("( " +:+ inlineBody (FunctionSpec_Body spec) args
                        +:+ " )"))
    | None => ret (CalleeName funcName)
    end.

(** [fmt.Sprintf("%s(%s)", funcName, strings.Join(args, ","))]. *)
Definition callSQL (funcName : string) (args : list string) : string :=
  funcName +:+ "(" +:+ Strings.Join args "," +:+ ")".

(** The last loop of [ProjectScanNode.FormatSQL]: a declared column
    with an entry in the map takes the entry's text and deletes it, any
    other is a quoted reference. *)
Fixpoint projectColumns (cols : list Column) (m : gmap string string)
  : list string * gmap string string :=
  match cols with
  | [] => ([], m)
  | col :: rest =>
      let colName := Column_Name col in
      match m !! colName with
      | Some ref =>
          let (columns, m') := projectColumns rest (delete colName m) in
          (ref :: columns, m')
      | None =>
          let (columns, m') := projectColumns rest m in
          (quoted colName :: columns, m')
      end
  end.

(** The keyword of a set operation, as the [switch] assigns it. *)
Definition opTypeSQL (op : SetOperationType) : string :=
  match op with
  | SetOperationTypeUnionAll => "UNION ALL"
  | SetOperationTypeUnionDistinct => "UNION DISTINCT"
  | SetOperationTypeIntersectAll => "INTERSECT ALL"
  | SetOperationTypeIntersectDistinct => "INTERSECT DISTINCT"
  | SetOperationTypeExceptAll => "EXCEPT ALL"
  | SetOperationTypeExceptDistinct => "EXCEPT DISTINCT"
  | SetOperationTypeOther _ => "UNKONWN"
  end.

(** The six operators of the specification. *)
Definition recognizedOpType (op : SetOperationType) : bool :=
  match op with
  | SetOperationTypeOther _ => false
  | _ => true
  end.

(** ** Nodes

    Modelled from the spec: [newNode], the dispatch from an analyzer
    node to the formatter of its kind, is not in [formatter.go].  A
    node here is the formatter [newNode] returns: one wrapper per kind
    around the analyzer's payload, [None] for an absent payload. *)

Section Formatter.

Variable Value : Type.

#[warnings="-register-all"]
Inductive Node : Type :=
| LiteralNode (node : option Value)
| ParameterNode (node : option QueryParameter)
| ColumnRefNode (node : option Column)
| FunctionCallNode (node : option (FunctionCall Node))
| AggregateFunctionCallNode (node : option (AggregateFunctionCall Node))
| AnalyticFunctionCallNode (node : option (AnalyticFunctionCall Node))
| GetStructFieldNode (node : option (GetStructField Node))
| SubqueryExprNode (node : option (SubqueryExpr Node))
| TableScanNode (node : option TableScan)
| ArrayScanNode (node : option (ArrayScan Node))
| FilterScanNode (node : option (FilterScan Node))
| AggregateScanNode (node : option (AggregateScan Node))
| SetOperationItemNode (node : option (SetOperationItem Node))
| SetOperationScanNode (node : option (SetOperationScan Node))
| WithRefScanNode (node : option WithRefScan)
| AnalyticScanNode (node : option (AnalyticScan Node))
| ComputedColumnNode (node : option (ComputedColumn Node))
| OutputColumnNode (node : option OutputColumn)
| ProjectScanNode (node : option (ProjectScan Node))
| QueryStmtNode (node : option (QueryStmt Node))
| WithScanNode (node : option (WithScan Node))
| WithEntryNode (node : option (WithEntry Node))
| AnalyticFunctionGroupNode (node : option (AnalyticFunctionGroup Node))
| DMLValueNode (n : Receiver (DMLValue Node))
| InsertRowNode (n : Receiver (InsertRow Node))
| InsertStmtNode (n : Receiver (InsertStmt Node))
| DeleteStmtNode (n : Receiver (DeleteStmt Node))
| UpdateItemNode (node : option (UpdateItem Node))
| UpdateStmtNode (n : Receiver (UpdateStmt Node))
| ArgumentRefNode (node : option ArgumentRef)
| EmptyNode (kind : EmptyKind) (node : option unit).

Variable host : Collaborators Value.

(** ** The formatting rules, one per [FormatSQL] method

    [rec] stands for [newNode(child).FormatSQL]. *)

Section Rules.

Variable rec : Node -> Env -> M string.

Definition LiteralNode_FormatSQL (node : option Value) (ctx : Env)
  : M string :=
  match node with
  | None => ret ""
  | Some v => ret (JSONFromZetaSQLValue host v)
  end.

(** No test of [n.node]: [n.node.Name()] dereferences it. *)
Definition ParameterNode_FormatSQL (node : option QueryParameter) (ctx : Env)
  : M string :=
  match node with
  | None => panic
  | Some p => ret ("@" +:+ Parameter_Name p)
  end.

Definition ColumnRefNode_FormatSQL (node : option Column) (ctx : Env)
  : M string :=
  match node with
  | None => ret ""
  | Some column => ret (quoted (Column_Name column))
  end.

Definition FunctionCallNode_FormatSQL (node : option (FunctionCall Node))
  (ctx : Env) : M string :=
  match node with
  | None => ret ""
  | Some p =>
      args <- forM (fun a => rec a ctx) (FunctionCall_ArgumentList p) ;;
      callee <- resolveCallee (unicodeToLower host) "zetasqlite_"
                  (normalFuncMap host) (FunctionCall_ResultTypeName p)
                  (FunctionCall_FullName p) args ctx ;;
      match callee with
      | Inlined sql => ret sql
      | CalleeName funcName => ret (callSQL funcName args)
      end
  end.

(** One [zetasqlite_order_by_string] option of an aggregate call. *)
Definition orderByOption (item : OrderByItem) (ctx : Env) : M string :=
  columnName <- ColumnRefNode_FormatSQL (Some (OrderByItem_ColumnRef item))
                  ctx ;;
  if OrderByItem_IsDescending item then
    ret ("zetasqlite_order_by_string(" +:+ columnName +:+ ", false)")
  else
    ret ("zetasqlite_order_by_string(" +:+ columnName +:+ ", true)").

Definition AggregateFunctionCallNode_FormatSQL
  (node : option (AggregateFunctionCall Node)) (ctx : Env) : M string :=
  match node with
  | None => ret ""
  | Some p =>
      args <- forM (fun a => rec a ctx)
                (AggregateFunctionCall_ArgumentList p) ;;
      callee <- resolveCallee (unicodeToLower host) "zetasqlite_"
                  (aggregateFuncMap host)
                  (AggregateFunctionCall_ResultTypeName p)
                  (AggregateFunctionCall_FullName p) args ctx ;;
      match callee with
      | Inlined sql => ret sql
      | CalleeName funcName =>
          orderOpts <- forM (fun item => orderByOption item ctx)
                         (AggregateFunctionCall_OrderByItemList p) ;;
          let distinctOpts :=
            if AggregateFunctionCall_Distinct p
            then ["zetasqlite_distinct_string()"] else [] in
          limitOpts <-
            match AggregateFunctionCall_Limit p with
            | None => ret []
            | Some limit =>
                limitValue <- rec limit ctx ;;
                ret ["zetasqlite_limit_string(" +:+ limitValue +:+ ")"]
            end ;;
          ret (callSQL funcName
                 (args ++ orderOpts ++ distinctOpts ++ limitOpts))
      end
  end.

(** [getWindowBoundaryOptionFuncSQL]. *)
Definition getWindowBoundaryOptionFuncSQL (ctx : Env)
  (expr : WindowFrameExpr Node) (isStart : bool) : M string :=
  let typ := WindowFrameExpr_BoundaryType expr in
  match typ with
  | UnboundedPrecedingType | CurrentRowType | UnboundedFollowingType =>
      if isStart
      then ret (getWindowBoundaryStartOptionFuncSQL host typ "")
      else ret (getWindowBoundaryEndOptionFuncSQL host typ "")
  | OffsetPrecedingType | OffsetFollowingType =>
      literal <- rec (WindowFrameExpr_Expression expr) ctx ;;
      if isStart
      then ret (getWindowBoundaryStartOptionFuncSQL host typ literal)
      else ret (getWindowBoundaryEndOptionFuncSQL host typ literal)
  | BoundaryTypeOther _ => fail (UnexpectedBoundaryType typ)
  end.

(** The loop over the arguments of an analytic call.  Only a column
    reference passes the type switch; its table becomes the analytic
    table name of the context, and its text is appended both to the
    shared column list and to [args]. *)
Definition analyticArguments
  : list Node -> Env -> list string -> M (Env * list string) :=
  fix loop (l : list Node) (ctx : Env) (args : list string) :=
    match l with
    | [] => ret (ctx, args)
    | a :: rest =>
        match a with
        | ColumnRefNode (Some t) =>
            let ctx := withAnalyticTableName ctx (Column_TableName t) in
            arg <- rec a ctx ;;
            appendValues [arg] ;;;
            loop rest ctx (args ++ [arg])
        | ColumnRefNode None => panic
        | _ => fail UnexpectedArgumentNodeType
        end
    end.

Definition AnalyticFunctionCallNode_FormatSQL
  (node : option (AnalyticFunctionCall Node)) (ctx : Env) : M string :=
  match node with
  | None => ret ""
  | Some p =>
      orderColumns <- getValues ;;
      r <- analyticArguments (AnalyticFunctionCall_ArgumentList p) ctx [] ;;
      let (ctx, args) := (r : Env * list string) in
      let tableName := analyticTableName ctx in
      if String.eqb tableName "" then fail AnalyticTableNameNotFound
      else
        callee <- resolveCallee (unicodeToLower host) "zetasqlite_window_"
                    (windowFuncMap host)
                    (AnalyticFunctionCall_ResultTypeName p)
                    (AnalyticFunctionCall_FullName p) args ctx ;;
        match callee with
        | Inlined sql => ret sql
        | CalleeName funcName =>
            let opts :=
              if AnalyticFunctionCall_Distinct p
              then ["zetasqlite_distinct_string()"] else [] in
            let args := args ++ opts in
            let args :=
              args ++ map (getWindowPartitionOptionFuncSQL host)
                        (analyticPartitionColumnNames ctx) in
            let args :=
              args ++ map (getWindowOrderByOptionFuncSQL host)
                        orderColumns in
            args <-
              match AnalyticFunctionCall_WindowFrame p with
              | None => ret args
              | Some windowFrame =>
                  let args :=
                    args ++ [getWindowFrameUnitOptionFuncSQL host
                               (WindowFrame_FrameUnit windowFrame)] in
                  startSQL <- getWindowBoundaryOptionFuncSQL ctx
                                (WindowFrame_StartExpr windowFrame) true ;;
                  endSQL <- getWindowBoundaryOptionFuncSQL ctx
                              (WindowFrame_EndExpr windowFrame) false ;;
                  ret (args ++ [startSQL; endSQL])
              end ;;
            let args := args ++ [getWindowRowIDOptionFuncSQL host] in
            ret ("( SELECT " +:+ callSQL funcName args +:+ " FROM "
                   +:+ tableName +:+ " )")
        end
  end.

Definition GetStructFieldNode_FormatSQL
  (node : option (GetStructField Node)) (ctx : Env) : M string :=
  match node with
  | None => ret ""
  | Some p =>
      expr <- rec (GetStructField_Expr p) ctx ;;
      let typeSuffix := resultTypeFamily (unicodeToLower host)
                          (GetStructField_TypeName p) in
      let idx := GetStructField_FieldIdx p in
      ret ("zetasqlite_get_struct_field_" +:+ typeSuffix +:+ "(" +:+ expr
             +:+ ", " +:+ pretty idx +:+ ")")
  end.

Definition SubqueryExprNode_FormatSQL (node : option (SubqueryExpr Node))
  (ctx : Env) : M string :=
  match node with
  | None => ret ""
  | Some p =>
      sql <- rec (SubqueryExpr_Subquery p) ctx ;;
      match SubqueryExpr_SubqueryType p with
      | SubqueryTypeExists => ret ("EXISTS (" +:+ sql +:+ ")")
      | _ => ret sql
      end
  end.

Definition TableScanNode_FormatSQL (node : option TableScan) (ctx : Env)
  : M string :=
  match node with
  | None => ret ""
  | Some _ =>
      tableName <- resolveName ctx ;;
      ret ("FROM " +:+ quoted tableName)
  end.

Definition ArrayScanNode_FormatSQL (node : option (ArrayScan Node))
  (ctx : Env) : M string :=
  match node with
  | None => ret ""
  | Some p =>
      arrayExpr <- rec (ArrayScan_ArrayExpr p) ctx ;;
      let colName := Column_Name (ArrayScan_ElementColumn p) in
      ret ("FROM ( SELECT json_each.value AS " +:+ quoted colName
             +:+ " FROM json_each(zetasqlite_decode_array_string("
             +:+ arrayExpr +:+ ")) )")
  end.

Definition FilterScanNode_FormatSQL (node : option (FilterScan Node))
  (ctx : Env) : M string :=
  match node with
  | None => ret ""
  | Some p =>
      input <- rec (FilterScan_InputScan p) ctx ;;
      filter <- rec (FilterScan_FilterExpr p) ctx ;;
      ret (input +:+ " WHERE " +:+ filter)
  end.

Definition ComputedColumnNode_FormatSQL
  (node : option (ComputedColumn Node)) (ctx : Env) : M string :=
  match node with
  | None => ret ""
  | Some p =>
      expr <- rec (ComputedColumn_Expr p) ctx ;;
      let name := Column_Name (ComputedColumn_Column p) in
      let query := expr +:+ " AS " +:+ quoted name in
      setColumn name query ;;;
      ret query
  end.

Definition AggregateScanNode_FormatSQL
  (node : option (AggregateScan Node)) (ctx : Env) : M string :=
  match node with
  | None => ret ""
  | Some p =>
      forM (fun agg => ComputedColumnNode_FormatSQL (Some agg) ctx)
        (AggregateScan_AggregateList p) ;;;
      input <- rec (AggregateScan_InputScan p) ctx ;;
      if Strings.HasPrefix input "SELECT"
      then ret ("FROM ( " +:+ input +:+ " )")
      else ret input
  end.

Definition SetOperationItemNode_FormatSQL
  (node : option (SetOperationItem Node)) (ctx : Env) : M string :=
  match node with
  | None => ret ""
  | Some p => rec (SetOperationItem_Scan p) ctx
  end.

Definition SetOperationScanNode_FormatSQL
  (node : option (SetOperationScan Node)) (ctx : Env) : M string :=
  match node with
  | None => ret ""
  | Some p =>
      let opType := opTypeSQL (SetOperationScan_OpType p) in
      queries <- forM (fun item =>
                         SetOperationItemNode_FormatSQL (Some item) ctx)
                   (SetOperationScan_InputItemList p) ;;
      ret (Strings.Join queries (" " +:+ opType +:+ " "))
  end.

Definition WithRefScanNode_FormatSQL (node : option WithRefScan)
  (ctx : Env) : M string :=
  match node with
  | None => ret ""
  | Some p => ret ("FROM " +:+ WithRefScan_WithQueryName p)
  end.

Definition AnalyticFunctionGroupNode_FormatSQL
  (node : option (AnalyticFunctionGroup Node)) (ctx : Env) : M string :=
  match node with
  | None => ret ""
  | Some p =>
      queries <-
        forM (fun column =>
                sql <- ComputedColumnNode_FormatSQL (Some column) ctx ;;
                appendValues
                  [quoted (Column_Name (ComputedColumn_Column column))] ;;;
                ret sql)
          (AnalyticFunctionGroup_AnalyticFunctionList p) ;;
      ret (Strings.Join queries ",")
  end.

(** The context after the [PARTITION BY] columns of a group: the last
    column's table is the analytic table name. *)
Definition withTableNames (ctx : Env) (tables : list string) : Env :=
  fold_left withAnalyticTableName tables ctx.

(** The loop over the function groups of an analytic scan; [ctx] is
    reassigned in the loop and so carried from one group to the next. *)
Definition analyticGroups
  : list (AnalyticFunctionGroup Node) -> Env -> M Env :=
  fix loop (l : list (AnalyticFunctionGroup Node)) (ctx : Env) :=
    match l with
    | [] => ret ctx
    | group :: rest =>
        ctx <-
          match AnalyticFunctionGroup_PartitionBy group with
          | None => ret ctx
          | Some partitionBy =>
              let ctx :=
                withTableNames ctx (map Column_TableName partitionBy) in
              let partitionColumns :=
                map (fun c => quoted (Column_Name c)) partitionBy in
              appendValues partitionColumns ;;;
              ret (withAnalyticPartitionColumnNames ctx partitionColumns)
          end ;;
        ctx <-
          match AnalyticFunctionGroup_OrderBy group with
          | None => ret ctx
          | Some orderBy =>
              let columns := map OrderByItem_ColumnRef orderBy in
              let ctx :=
                withTableNames ctx (map Column_TableName columns) in
              let orderByColumns :=
                map (fun c => quoted (Column_Name c)) columns in
              appendValues orderByColumns ;;;
              ret ctx
          end ;;
        AnalyticFunctionGroupNode_FormatSQL (Some group) ctx ;;;
        loop rest ctx
    end.

Definition AnalyticScanNode_FormatSQL (node : option (AnalyticScan Node))
  (ctx : Env) : M string :=
  match node with
  | None => ret ""
  | Some p =>
      input <- rec (AnalyticScan_InputScan p) ctx ;;
      analyticGroups (AnalyticScan_FunctionGroupList p) ctx ;;;
      columns <- getValues ;;
      let orderBy := "ORDER BY " +:+ Strings.Join columns "," in
      resetValues ;;;
      ret ("FROM ( SELECT *, ROW_NUMBER() OVER() AS `rowid` " +:+ input
             +:+ " ) " +:+ orderBy)
  end.

Definition OutputColumnNode_FormatSQL (node : option OutputColumn)
  (ctx : Env) : M string :=
  match node with
  | None => ret ""
  | Some p =>
      m <- getColumnMap ;;
      match m !! OutputColumn_Name p with
      | Some ref => ret ref
      | None => ret (quoted (OutputColumn_Name p))
      end
  end.

Definition ProjectScanNode_FormatSQL (node : option (ProjectScan Node))
  (ctx : Env) : M string :=
  match node with
  | None => ret ""
  | Some p =>
      forM (fun col => ComputedColumnNode_FormatSQL (Some col) ctx)
        (ProjectScan_ExprList p) ;;;
      input <- rec (ProjectScan_InputScan p) ctx ;;
      m <- getColumnMap ;;
      let (columns, m') := projectColumns (ProjectScan_ColumnList p) m in
      putColumnMap m' ;;;
      ret ("SELECT " +:+ Strings.Join columns "," +:+ " " +:+ input)
  end.

Definition QueryStmtNode_FormatSQL (node : option (QueryStmt Node))
  (ctx : Env) : M string :=
  match node with
  | None => ret ""
  | Some p => rec (QueryStmt_Query p) ctx
  end.

Definition WithEntryNode_FormatSQL (node : option (WithEntry Node))
  (ctx : Env) : M string :=
  match node with
  | None => ret ""
  | Some p =>
      let queryName := WithEntry_WithQueryName p in
      subquery <- rec (WithEntry_WithSubquery p) ctx ;;
      ret (queryName +:+ " AS ( " +:+ subquery +:+ " )")
  end.

Definition WithScanNode_FormatSQL (node : option (WithScan Node))
  (ctx : Env) : M string :=
  match node with
  | None => ret ""
  | Some p =>
      queries <- forM (fun entry => WithEntryNode_FormatSQL (Some entry) ctx)
                   (WithScan_WithEntryList p) ;;
      query <- rec (WithScan_Query p) ctx ;;
      ret ("WITH " +:+ Strings.Join queries ", " +:+ " " +:+ query)
  end.

(** The five methods below test the receiver, [n == nil], and then
    read [n.node]: with a wrapper whose payload is absent the first
    accessor dereferences nil. *)

Definition DMLValueNode_FormatSQL (n : Receiver (DMLValue Node))
  (ctx : Env) : M string :=
  match n with
  | NilReceiver => ret ""
  | Wrapper None => panic
  | Wrapper (Some p) => rec (DMLValue_Value p) ctx
  end.

Definition InsertRowNode_FormatSQL (n : Receiver (InsertRow Node))
  (ctx : Env) : M string :=
  match n with
  | NilReceiver => ret ""
  | Wrapper None => panic
  | Wrapper (Some p) =>
      values <- forM (fun value =>
                        DMLValueNode_FormatSQL (Wrapper (Some value)) ctx)
                  (InsertRow_ValueList p) ;;
      ret ("(" +:+ Strings.Join values "," +:+ ")")
  end.

Definition InsertStmtNode_FormatSQL (n : Receiver (InsertStmt Node))
  (ctx : Env) : M string :=
  match n with
  | NilReceiver => ret ""
  | Wrapper node =>
      formattedTableName <- resolveName ctx ;;
      match node with
      | None => panic
      | Some p =>
          let columns :=
            map (fun col => quoted (Column_Name col))
              (InsertStmt_InsertColumnList p) in
          rows <- forM (fun row =>
                          InsertRowNode_FormatSQL (Wrapper (Some row)) ctx)
                    (InsertStmt_RowList p) ;;
          ret ("INSERT INTO " +:+ quoted formattedTableName +:+ " ("
                 +:+ Strings.Join columns "," +:+ ") VALUES "
                 +:+ Strings.Join rows ",")
      end
  end.

Definition DeleteStmtNode_FormatSQL (n : Receiver (DeleteStmt Node))
  (ctx : Env) : M string :=
  match n with
  | NilReceiver => ret ""
  | Wrapper node =>
      formattedTableName <- resolveName ctx ;;
      match node with
      | None => panic
      | Some p =>
          where_ <- rec (DeleteStmt_WhereExpr p) ctx ;;
          ret ("DELETE FROM " +:+ quoted formattedTableName +:+ " WHERE "
                 +:+ where_)
      end
  end.

Definition UpdateItemNode_FormatSQL (node : option (UpdateItem Node))
  (ctx : Env) : M string :=
  match node with
  | None => ret ""
  | Some p =>
      target <- rec (UpdateItem_Target p) ctx ;;
      setValue <- DMLValueNode_FormatSQL
                    (Wrapper (UpdateItem_SetValue p)) ctx ;;
      ret (target +:+ "=" +:+ setValue)
  end.

Definition UpdateStmtNode_FormatSQL (n : Receiver (UpdateStmt Node))
  (ctx : Env) : M string :=
  match n with
  | NilReceiver => ret ""
  | Wrapper node =>
      formattedTableName <- resolveName ctx ;;
      match node with
      | None => panic
      | Some p =>
          updateItems <-
            forM (fun item => UpdateItemNode_FormatSQL (Some item) ctx)
              (UpdateStmt_UpdateItemList p) ;;
          where_ <- rec (UpdateStmt_WhereExpr p) ctx ;;
          ret ("UPDATE " +:+ quoted formattedTableName +:+ " SET "
                 +:+ Strings.Join updateItems "," +:+ " WHERE " +:+ where_)
      end
  end.

Definition ArgumentRefNode_FormatSQL (node : option ArgumentRef)
  (ctx : Env) : M string :=
  match node with
  | None => ret ""
  | Some _ => ret "?"
  end.

End Rules.

(** [newNode(n).FormatSQL(ctx)]. *)
Fixpoint FormatSQL (n : Node) (ctx : Env) {struct n} : M string :=
  match n with
  | LiteralNode node => LiteralNode_FormatSQL node ctx
  | ParameterNode node => ParameterNode_FormatSQL node ctx
  | ColumnRefNode node => ColumnRefNode_FormatSQL node ctx
  | FunctionCallNode node => FunctionCallNode_FormatSQL FormatSQL node ctx
  | AggregateFunctionCallNode node =>
      AggregateFunctionCallNode_FormatSQL FormatSQL node ctx
  | AnalyticFunctionCallNode node =>
      AnalyticFunctionCallNode_FormatSQL FormatSQL node ctx
  | GetStructFieldNode node => GetStructFieldNode_FormatSQL FormatSQL node ctx
  | SubqueryExprNode node => SubqueryExprNode_FormatSQL FormatSQL node ctx
  | TableScanNode node => TableScanNode_FormatSQL node ctx
  | ArrayScanNode node => ArrayScanNode_FormatSQL FormatSQL node ctx
  | FilterScanNode node => FilterScanNode_FormatSQL FormatSQL node ctx
  | AggregateScanNode node => AggregateScanNode_FormatSQL FormatSQL node ctx
  | SetOperationItemNode node =>
      SetOperationItemNode_FormatSQL FormatSQL node ctx
  | SetOperationScanNode node =>
      SetOperationScanNode_FormatSQL FormatSQL node ctx
  | WithRefScanNode node => WithRefScanNode_FormatSQL node ctx
  | AnalyticScanNode node => AnalyticScanNode_FormatSQL FormatSQL node ctx
  | ComputedColumnNode node => ComputedColumnNode_FormatSQL FormatSQL node ctx
  | OutputColumnNode node => OutputColumnNode_FormatSQL node ctx
  | ProjectScanNode node => ProjectScanNode_FormatSQL FormatSQL node ctx
  | QueryStmtNode node => QueryStmtNode_FormatSQL FormatSQL node ctx
  | WithScanNode node => WithScanNode_FormatSQL FormatSQL node ctx
  | WithEntryNode node => WithEntryNode_FormatSQL FormatSQL node ctx
  | AnalyticFunctionGroupNode node =>
      AnalyticFunctionGroupNode_FormatSQL FormatSQL node ctx
  | DMLValueNode n => DMLValueNode_FormatSQL FormatSQL n ctx
  | InsertRowNode n => InsertRowNode_FormatSQL FormatSQL n ctx
  | InsertStmtNode n => InsertStmtNode_FormatSQL FormatSQL n ctx
  | DeleteStmtNode n => DeleteStmtNode_FormatSQL FormatSQL n ctx
  | UpdateItemNode node => UpdateItemNode_FormatSQL FormatSQL node ctx
  | UpdateStmtNode n => UpdateStmtNode_FormatSQL FormatSQL n ctx
  | ArgumentRefNode node => ArgumentRefNode_FormatSQL node ctx
  | EmptyNode _ _ => ret ""
  end.

End Formatter.

Arguments LiteralNode {Value}.
Arguments ParameterNode {Value}.
Arguments ColumnRefNode {Value}.
Arguments FunctionCallNode {Value}.
Arguments AggregateFunctionCallNode {Value}.
Arguments AnalyticFunctionCallNode {Value}.
Arguments GetStructFieldNode {Value}.
Arguments SubqueryExprNode {Value}.
Arguments TableScanNode {Value}.
Arguments ArrayScanNode {Value}.
Arguments FilterScanNode {Value}.
Arguments AggregateScanNode {Value}.
Arguments SetOperationItemNode {Value}.
Arguments SetOperationScanNode {Value}.
Arguments WithRefScanNode {Value}.
Arguments AnalyticScanNode {Value}.
Arguments ComputedColumnNode {Value}.
Arguments OutputColumnNode {Value}.
Arguments ProjectScanNode {Value}.
Arguments QueryStmtNode {Value}.
Arguments WithScanNode {Value}.
Arguments WithEntryNode {Value}.
Arguments AnalyticFunctionGroupNode {Value}.
Arguments DMLValueNode {Value}.
Arguments InsertRowNode {Value}.
Arguments InsertStmtNode {Value}.
Arguments DeleteStmtNode {Value}.
Arguments UpdateItemNode {Value}.
Arguments UpdateStmtNode {Value}.
Arguments ArgumentRefNode {Value}.
Arguments EmptyNode {Value}.
Arguments FormatSQL {Value}.
Arguments LiteralNode_FormatSQL {Value}.
Arguments FunctionCallNode_FormatSQL {Value}.
Arguments AggregateFunctionCallNode_FormatSQL {Value}.
Arguments getWindowBoundaryOptionFuncSQL {Value}.
Arguments analyticArguments {Value}.
Arguments AnalyticFunctionCallNode_FormatSQL {Value}.
Arguments GetStructFieldNode_FormatSQL {Value}.
Arguments SubqueryExprNode_FormatSQL {Value}.
Arguments ArrayScanNode_FormatSQL {Value}.
Arguments FilterScanNode_FormatSQL {Value}.
Arguments ComputedColumnNode_FormatSQL {Value}.
Arguments AggregateScanNode_FormatSQL {Value}.
Arguments SetOperationItemNode_FormatSQL {Value}.
Arguments SetOperationScanNode_FormatSQL {Value}.
Arguments AnalyticFunctionGroupNode_FormatSQL {Value}.
Arguments analyticGroups {Value}.
Arguments AnalyticScanNode_FormatSQL {Value}.
Arguments ProjectScanNode_FormatSQL {Value}.
Arguments QueryStmtNode_FormatSQL {Value}.
Arguments WithEntryNode_FormatSQL {Value}.
Arguments WithScanNode_FormatSQL {Value}.
Arguments DMLValueNode_FormatSQL {Value}.
Arguments InsertRowNode_FormatSQL {Value}.
Arguments InsertStmtNode_FormatSQL {Value}.
Arguments DeleteStmtNode_FormatSQL {Value}.
Arguments UpdateItemNode_FormatSQL {Value}.
Arguments UpdateStmtNode_FormatSQL {Value}.

(** ** A concrete setting for the examples

    Literals are kept as their encoded text; the catalogues hold a few
    of the built-in names, and the window options are rendered as calls
    of one argument. *)

Definition demoHost : Collaborators string := {|
  JSONFromZetaSQLValue := fun v => v;
  normalFuncMap := {[ "abs"; "concat" ]};
  aggregateFuncMap := {[ "sum"; "count" ]};
  windowFuncMap := {[ "sum"; "rank" ]};
  getWindowPartitionOptionFuncSQL :=
    fun column => "zetasqlite_window_partition_string(" +:+ column +:+ ")";
  getWindowOrderByOptionFuncSQL :=
    fun column => "zetasqlite_window_order_by_string(" +:+ column +:+ ")";
  getWindowFrameUnitOptionFuncSQL :=
    fun unit =>
      match unit with
      | FrameUnitRows => "zetasqlite_window_frame_unit_string(1)"
      | FrameUnitRange => "zetasqlite_window_frame_unit_string(2)"
      end;
  getWindowBoundaryStartOptionFuncSQL :=
    fun _ literal => "zetasqlite_window_boundary_start_string(" +:+ literal
                       +:+ ")";
  getWindowBoundaryEndOptionFuncSQL :=
    fun _ literal => "zetasqlite_window_boundary_end_string(" +:+ literal
                       +:+ ")";
  getWindowRowIDOptionFuncSQL := "zetasqlite_window_rowid_string(`rowid`)";
  unicodeToLower := Strings.lowerBytes
|}.

(** A fresh context: the cursor at the start of [paths], nothing in
    the map, no analytic accumulation. *)
Definition freshSt (paths : list (list string)) : St :=
  {| paths := paths; idx := 0; columnMap := ∅; values := [] |}.

Definition freshEnv (namePath : list string)
  (funcMap : gmap string FunctionSpec) : Env :=
  {| namePath := namePath; funcMap := funcMap; analyticTableName := "";
     analyticPartitionColumnNames := [] |}.

Definition column (name table : string) : Column :=
  {| Column_Name := name; Column_TableName := table |}.

Definition tableScan (name : string) : Node string :=
  TableScanNode (Some {| TableScan_Table := name |}).

Definition columnRef (name table : string) : Node string :=
  ColumnRefNode (Some (column name table)).

Definition literal (text : string) : Node string := LiteralNode (Some text).

(** A set operation over two tables whose operator code is none of the
    six the formatter names. *)
Definition unknownSetOperation : SetOperationScan (Node string) :=
  {| SetOperationScan_OpType := SetOperationTypeOther 6;
     SetOperationScan_InputItemList :=
       [ {| SetOperationItem_Scan := tableScan "a" |};
         {| SetOperationItem_Scan := tableScan "b" |} ] |}.

(** [SELECT ... FROM t GROUP BY ...] under an aggregate scan: the
    input is a bare table scan. *)
Definition aggregateOverTable : AggregateScan (Node string) :=
  {| AggregateScan_AggregateList :=
       [ {| ComputedColumn_Column := column "total" "$aggregate";
            ComputedColumn_Expr :=
              AggregateFunctionCallNode (Some
                {| AggregateFunctionCall_ArgumentList := [columnRef "x" "t"];
                   AggregateFunctionCall_ResultTypeName := "INT64";
                   AggregateFunctionCall_FullName := "sum";
                   AggregateFunctionCall_OrderByItemList := [];
                   AggregateFunctionCall_Distinct := false;
                   AggregateFunctionCall_Limit := None |}) |} ];
     AggregateScan_InputScan := tableScan "t" |}.

(** The same aggregate over a projection, whose fragment starts with
    [SELECT]. *)
Definition aggregateOverProject : AggregateScan (Node string) :=
  {| AggregateScan_AggregateList :=
       AggregateScan_AggregateList aggregateOverTable;
     AggregateScan_InputScan :=
       ProjectScanNode (Some
         {| ProjectScan_ExprList := [];
            ProjectScan_InputScan := tableScan "t";
            ProjectScan_ColumnList := [column "x" "t"] |}) |}.

(** An analytic call whose second argument is a literal. *)
Definition analyticCallOnLiteral : AnalyticFunctionCall (Node string) :=
  {| AnalyticFunctionCall_ArgumentList := [columnRef "x" "t"; literal "1"];
     AnalyticFunctionCall_ResultTypeName := "INT64";
     AnalyticFunctionCall_FullName := "sum";
     AnalyticFunctionCall_Distinct := false;
     AnalyticFunctionCall_WindowFrame := None |}.

(** A node is a column reference for the type switch of the analytic
    call. *)
Definition isColumnRef {Value : Type} (n : Node Value) : bool :=
  match n with
  | ColumnRefNode _ => true
  | _ => false
  end.

(** A column reference that holds its column; any node of another kind
    counts as well. *)
Definition columnPresent {Value : Type} (n : Node Value) : bool :=
  match n with
  | ColumnRefNode None => false
  | _ => true
  end.

(** A registered function [f] with the body [? + ?], called with an
    argument reference of the enclosing function and a literal, as in
    the body of [CREATE FUNCTION g(x) AS (f(x, 1))]. *)
Definition plusSpec : gmap string FunctionSpec :=
  {[ "f" := {| FunctionSpec_Body := "? + ?" |} ]}.

Definition callPlus (args : list (Node string)) : Node string :=
  FunctionCallNode (Some
    {| FunctionCall_ArgumentList := args;
       FunctionCall_ResultTypeName := "INT64";
       FunctionCall_FullName := "f" |}).

(** The specification's wording of the inlining: the body is read from
    the left, and every placeholder met takes the next argument; what
    is left of the body once the arguments are used up stays as it
    is. *)
Fixpoint substitutePlaceholders (body : string) (args : list string)
  : string :=
  match body with
  | EmptyString => EmptyString
  | String c rest =>
      if Ascii.eqb c "?"%char then
        match args with
        | [] => body
        | arg :: args' => arg +:+ substitutePlaceholders rest args'
        end
      else String c (substitutePlaceholders rest args)
  end.

(** The payload of a node is absent: [n.node == nil].  The wrappers of
    the five methods that test the receiver are taken as built by the
    dispatch, so not nil themselves. *)
Definition payloadAbsent {Value : Type} (n : Node Value) : bool :=
  match n with
  | LiteralNode None | ParameterNode None | ColumnRefNode None
  | FunctionCallNode None | AggregateFunctionCallNode None
  | AnalyticFunctionCallNode None | GetStructFieldNode None
  | SubqueryExprNode None | TableScanNode None | ArrayScanNode None
  | FilterScanNode None | AggregateScanNode None
  | SetOperationItemNode None | SetOperationScanNode None
  | WithRefScanNode None | AnalyticScanNode None | ComputedColumnNode None
  | OutputColumnNode None | ProjectScanNode None | QueryStmtNode None
  | WithScanNode None | WithEntryNode None
  | AnalyticFunctionGroupNode None | UpdateItemNode None
  | ArgumentRefNode None | EmptyNode _ None
  | DMLValueNode (Wrapper None) | InsertRowNode (Wrapper None)
  | InsertStmtNode (Wrapper None) | DeleteStmtNode (Wrapper None)
  | UpdateStmtNode (Wrapper None) => true
  | _ => false
  end.

(** The kinds whose method has no test of [n.node]: the parameter,
    and the five DML kinds that test [n] instead. *)
Definition testsReceiverOnly {Value : Type} (n : Node Value) : bool :=
  match n with
  | ParameterNode _ | DMLValueNode _ | InsertRowNode _ | InsertStmtNode _
  | DeleteStmtNode _ | UpdateStmtNode _ => true
  | _ => false
  end.

(** A call is of a built-in: its name carries the analyzer's [$], or
    the catalogue holds it. *)
Definition builtin (catalog : gset string) (fullName : string) : Prop :=
  Strings.HasPrefix fullName "$" = true \/ fullName ∈ catalog.

(** The bare name of a built-in: without the [$] when it has one. *)
Definition bareName (fullName : string) : string :=
  if Strings.HasPrefix fullName "$" then Strings.dropFirst fullName
  else fullName.



(** ** The nodes below a node *)

(** The nodes a node holds as children, through its payload. *)
Definition children {Value : Type} (n : Node Value) : list (Node Value) :=
  match n with
  | FunctionCallNode (Some p) => FunctionCall_ArgumentList p
  | AggregateFunctionCallNode (Some p) =>
      AggregateFunctionCall_ArgumentList p
      ++ match AggregateFunctionCall_Limit p with
         | Some limit => [limit]
         | None => []
         end
  | AnalyticFunctionCallNode (Some p) =>
      AnalyticFunctionCall_ArgumentList p
      ++ match AnalyticFunctionCall_WindowFrame p with
         | Some frame =>
             [WindowFrameExpr_Expression (WindowFrame_StartExpr frame);
              WindowFrameExpr_Expression (WindowFrame_EndExpr frame)]
         | None => []
         end
  | GetStructFieldNode (Some p) => [GetStructField_Expr p]
  | SubqueryExprNode (Some p) => [SubqueryExpr_Subquery p]
  | ArrayScanNode (Some p) => [ArrayScan_ArrayExpr p]
  | FilterScanNode (Some p) => [FilterScan_InputScan p; FilterScan_FilterExpr p]
  | AggregateScanNode (Some p) =>
      map ComputedColumn_Expr (AggregateScan_AggregateList p)
      ++ [AggregateScan_InputScan p]
  | SetOperationItemNode (Some p) => [SetOperationItem_Scan p]
  | SetOperationScanNode (Some p) =>
      map SetOperationItem_Scan (SetOperationScan_InputItemList p)
  | AnalyticScanNode (Some p) =>
      AnalyticScan_InputScan p
      :: flat_map
           (fun group =>
              map ComputedColumn_Expr
                (AnalyticFunctionGroup_AnalyticFunctionList group))
           (AnalyticScan_FunctionGroupList p)
  | ComputedColumnNode (Some p) => [ComputedColumn_Expr p]
  | ProjectScanNode (Some p) =>
      map ComputedColumn_Expr (ProjectScan_ExprList p)
      ++ [ProjectScan_InputScan p]
  | QueryStmtNode (Some p) => [QueryStmt_Query p]
  | WithScanNode (Some p) =>
      map WithEntry_WithSubquery (WithScan_WithEntryList p)
      ++ [WithScan_Query p]
  | WithEntryNode (Some p) => [WithEntry_WithSubquery p]
  | AnalyticFunctionGroupNode (Some p) =>
      map ComputedColumn_Expr (AnalyticFunctionGroup_AnalyticFunctionList p)
  | DMLValueNode (Wrapper (Some p)) => [DMLValue_Value p]
  | InsertRowNode (Wrapper (Some p)) =>
      map DMLValue_Value (InsertRow_ValueList p)
  | InsertStmtNode (Wrapper (Some p)) =>
      flat_map (fun row => map DMLValue_Value (InsertRow_ValueList row))
        (InsertStmt_RowList p)
  | DeleteStmtNode (Wrapper (Some p)) => [DeleteStmt_WhereExpr p]
  | UpdateItemNode (Some p) =>
      UpdateItem_Target p
      :: match UpdateItem_SetValue p with
         | Some value => [DMLValue_Value value]
         | None => []
         end
  | UpdateStmtNode (Wrapper (Some p)) =>
      flat_map
        (fun item =>
           UpdateItem_Target item
           :: match UpdateItem_SetValue item with
              | Some value => [DMLValue_Value value]
              | None => []
              end)
        (UpdateStmt_UpdateItemList p)
      ++ [UpdateStmt_WhereExpr p]
  | _ => []
  end.

(** A node and every node below it. *)
Fixpoint subnodes {Value : Type} (n : Node Value) {struct n}
  : list (Node Value) :=
  n ::
  match n with
  | FunctionCallNode (Some p) =>
      flat_map subnodes (FunctionCall_ArgumentList p)
  | AggregateFunctionCallNode (Some p) =>
      flat_map subnodes (AggregateFunctionCall_ArgumentList p)
      ++ match AggregateFunctionCall_Limit p with
         | Some limit => subnodes limit
         | None => []
         end
  | AnalyticFunctionCallNode (Some p) =>
      flat_map subnodes (AnalyticFunctionCall_ArgumentList p)
      ++ match AnalyticFunctionCall_WindowFrame p with
         | Some frame =>
             subnodes (WindowFrameExpr_Expression (WindowFrame_StartExpr frame))
             ++ subnodes
                  (WindowFrameExpr_Expression (WindowFrame_EndExpr frame))
         | None => []
         end
  | GetStructFieldNode (Some p) => subnodes (GetStructField_Expr p)
  | SubqueryExprNode (Some p) => subnodes (SubqueryExpr_Subquery p)
  | ArrayScanNode (Some p) => subnodes (ArrayScan_ArrayExpr p)
  | FilterScanNode (Some p) =>
      subnodes (FilterScan_InputScan p) ++ subnodes (FilterScan_FilterExpr p)
  | AggregateScanNode (Some p) =>
      flat_map (fun c => subnodes (ComputedColumn_Expr c))
        (AggregateScan_AggregateList p)
      ++ subnodes (AggregateScan_InputScan p)
  | SetOperationItemNode (Some p) => subnodes (SetOperationItem_Scan p)
  | SetOperationScanNode (Some p) =>
      flat_map (fun item => subnodes (SetOperationItem_Scan item))
        (SetOperationScan_InputItemList p)
  | AnalyticScanNode (Some p) =>
      subnodes (AnalyticScan_InputScan p)
      ++ flat_map
           (fun group =>
              flat_map (fun c => subnodes (ComputedColumn_Expr c))
                (AnalyticFunctionGroup_AnalyticFunctionList group))
           (AnalyticScan_FunctionGroupList p)
  | ComputedColumnNode (Some p) => subnodes (ComputedColumn_Expr p)
  | ProjectScanNode (Some p) =>
      flat_map (fun c => subnodes (ComputedColumn_Expr c))
        (ProjectScan_ExprList p)
      ++ subnodes (ProjectScan_InputScan p)
  | QueryStmtNode (Some p) => subnodes (QueryStmt_Query p)
  | WithScanNode (Some p) =>
      flat_map (fun entry => subnodes (WithEntry_WithSubquery entry))
        (WithScan_WithEntryList p)
      ++ subnodes (WithScan_Query p)
  | WithEntryNode (Some p) => subnodes (WithEntry_WithSubquery p)
  | AnalyticFunctionGroupNode (Some p) =>
      flat_map (fun c => subnodes (ComputedColumn_Expr c))
        (AnalyticFunctionGroup_AnalyticFunctionList p)
  | DMLValueNode (Wrapper (Some p)) => subnodes (DMLValue_Value p)
  | InsertRowNode (Wrapper (Some p)) =>
      flat_map (fun v => subnodes (DMLValue_Value v)) (InsertRow_ValueList p)
  | InsertStmtNode (Wrapper (Some p)) =>
      flat_map
        (fun row =>
           flat_map (fun v => subnodes (DMLValue_Value v))
             (InsertRow_ValueList row))
        (InsertStmt_RowList p)
  | DeleteStmtNode (Wrapper (Some p)) => subnodes (DeleteStmt_WhereExpr p)
  | UpdateItemNode (Some p) =>
      subnodes (UpdateItem_Target p)
      ++ match UpdateItem_SetValue p with
         | Some value => subnodes (DMLValue_Value value)
         | None => []
         end
  | UpdateStmtNode (Wrapper (Some p)) =>
      flat_map
        (fun item =>
           subnodes (UpdateItem_Target item)
           ++ match UpdateItem_SetValue item with
              | Some value => subnodes (DMLValue_Value value)
              | None => []
              end)
        (UpdateStmt_UpdateItemList p)
      ++ subnodes (UpdateStmt_WhereExpr p)
  | _ => []
  end.

(** ** What a node writes *)

(** The three mutable parts of the context. *)
Inductive component : Type :=
| Cursor
| ColumnMap
| AnalyticColumns.

(** The two states agree on a part. *)
Definition same (c : component) (st st' : St) : Prop :=
  match c with
  | Cursor => paths st' = paths st /\ idx st' = idx st
  | ColumnMap => columnMap st' = columnMap st
  | AnalyticColumns => values st' = values st
  end.

(** [builtin] as a test. *)
Definition builtinb (catalog : gset string) (fullName : string) : bool :=
  (Strings.HasPrefix fullName "$" || bool_decide (fullName ∈ catalog))%bool.

(** The method of the node itself, its children apart, may write the
    part: the cursor is moved by a table scan, by a DML statement and
    by a call of a function that is not built in; the map is written
    where columns are computed or projected; the analytic column list
    inside an analytic scan. *)
Definition writes {Value : Type} (host : Collaborators Value)
  (c : component) (n : Node Value) : bool :=
  match c, n with
  | Cursor, TableScanNode (Some _) => true
  | Cursor, InsertStmtNode (Wrapper _) => true
  | Cursor, DeleteStmtNode (Wrapper _) => true
  | Cursor, UpdateStmtNode (Wrapper _) => true
  | Cursor, FunctionCallNode (Some p) =>
      negb (builtinb (normalFuncMap host) (FunctionCall_FullName p))
  | Cursor, AggregateFunctionCallNode (Some p) =>
      negb (builtinb (aggregateFuncMap host)
              (AggregateFunctionCall_FullName p))
  | Cursor, AnalyticFunctionCallNode (Some p) =>
      negb (builtinb (windowFuncMap host) (AnalyticFunctionCall_FullName p))
  | ColumnMap, ComputedColumnNode (Some _) => true
  | ColumnMap, ProjectScanNode (Some _) => true
  | ColumnMap, AggregateScanNode (Some _) => true
  | ColumnMap, AnalyticFunctionGroupNode (Some _) => true
  | ColumnMap, AnalyticScanNode (Some _) => true
  | AnalyticColumns, AnalyticFunctionCallNode (Some _) => true
  | AnalyticColumns, AnalyticFunctionGroupNode (Some _) => true
  | AnalyticColumns, AnalyticScanNode (Some _) => true
  | _, _ => false
  end.

(** No node at or below [n] writes the part. *)
Definition quiet {Value : Type} (host : Collaborators Value)
  (c : component) (n : Node Value) : bool :=
  forallb (fun m => negb (writes host c m)) (subnodes n).

(** A computation leaves a part of the context as it found it,
    whatever it comes back with. *)
Definition keeps {A : Type} (c : component) (m : M A) : Prop :=
  forall st, same c st (snd (m st)).

(** [UPDATE t SET x = 1 WHERE y > 0], [DELETE FROM t WHERE y > 0] and
    [INSERT INTO t (x, y) VALUES (1, 2)]. *)
Definition greaterThanZero : Node string :=
  FunctionCallNode (Some
    {| FunctionCall_ArgumentList := [columnRef "y" "t"; literal "0"];
       FunctionCall_ResultTypeName := "BOOL";
       FunctionCall_FullName := "$greater" |}).

Definition updateStmt : UpdateStmt (Node string) :=
  {| UpdateStmt_UpdateItemList :=
       [ {| UpdateItem_Target := columnRef "x" "t";
            UpdateItem_SetValue :=
              Some {| DMLValue_Value := literal "1" |} |} ];
     UpdateStmt_WhereExpr := greaterThanZero |}.

Definition deleteStmt : DeleteStmt (Node string) :=
  {| DeleteStmt_WhereExpr := greaterThanZero |}.

Definition insertStmt : InsertStmt (Node string) :=
  {| InsertStmt_InsertColumnList := [column "x" "t"; column "y" "t"];
     InsertStmt_RowList :=
       [ {| InsertRow_ValueList :=
              [ {| DMLValue_Value := literal "1" |};
                {| DMLValue_Value := literal "2" |} ] |} ] |}.

(** No child of the node holds a reference of its own that would move
    the cursor. *)
Definition childrenKeepCursor {Value : Type} (host : Collaborators Value)
  (n : Node Value) : bool :=
  forallb (quiet host Cursor) (children n).

(** ** The SELECT list of a projection *)





Definition computedName {N : Type} (c : ComputedColumn N) : string :=
  Column_Name (ComputedColumn_Column c).

(** [SELECT x + 1 AS y FROM t]. *)
Definition plusOne (name : string) : ComputedColumn (Node string) :=
  {| ComputedColumn_Column := column name "$query";
     ComputedColumn_Expr :=
       FunctionCallNode (Some
         {| FunctionCall_ArgumentList := [columnRef "x" "t"; literal "1"];
            FunctionCall_ResultTypeName := "INT64";
            FunctionCall_FullName := "$add" |}) |}.

Definition plusTwo (name : string) : ComputedColumn (Node string) :=
  {| ComputedColumn_Column := column name "$query";
     ComputedColumn_Expr :=
       FunctionCallNode (Some
         {| FunctionCall_ArgumentList := [columnRef "x" "t"; literal "2"];
            FunctionCall_ResultTypeName := "INT64";
            FunctionCall_FullName := "$add" |}) |}.


(** [SELECT x + 1 AS a, x + 2 AS a FROM t]: two computed columns of
    one name. *)
Definition projectSameName : ProjectScan (Node string) :=
  {| ProjectScan_ExprList := [plusOne "a"; plusTwo "a"];
     ProjectScan_InputScan := tableScan "t";
     ProjectScan_ColumnList := [column "a" "$query"; column "a" "$query"] |}.


(** ** The columns an analytic scan collects *)

(** The text of an argument of an analytic call: a quoted column. *)
Definition argumentText {Value : Type} (n : Node Value) : string :=
  match n with
  | ColumnRefNode (Some c) => quoted (Column_Name c)
  | _ => ""
  end.

(** The argument columns of an analytic function. *)
Definition argumentColumns {Value : Type} (n : Node Value) : list string :=
  match n with
  | AnalyticFunctionCallNode (Some call) =>
      map argumentText (AnalyticFunctionCall_ArgumentList call)
  | _ => []
  end.

Definition partitionColumns {N : Type} (group : AnalyticFunctionGroup N)
  : list string :=
  match AnalyticFunctionGroup_PartitionBy group with
  | Some partitionBy => map (fun c => quoted (Column_Name c)) partitionBy
  | None => []
  end.

Definition orderColumns {N : Type} (group : AnalyticFunctionGroup N)
  : list string :=
  match AnalyticFunctionGroup_OrderBy group with
  | Some orderBy =>
      map (fun item => quoted (Column_Name (OrderByItem_ColumnRef item)))
        orderBy
  | None => []
  end.

(** The specification's wording of the [ORDER BY] list: per group the
    partition columns, the order columns and the argument columns of
    its functions. *)
Definition declaredWindowColumns {Value : Type}
  (p : AnalyticScan (Node Value)) : list string :=
  flat_map
    (fun group =>
       partitionColumns group ++ orderColumns group
       ++ flat_map (fun c => argumentColumns (ComputedColumn_Expr c))
            (AnalyticFunctionGroup_AnalyticFunctionList group))
    (AnalyticScan_FunctionGroupList p).

(** What the scan collects: after the arguments of each function comes
    the quoted name of the function's output column. *)
Definition collectedColumns {Value : Type}
  (p : AnalyticScan (Node Value)) : list string :=
  flat_map
    (fun group =>
       partitionColumns group ++ orderColumns group
       ++ flat_map
            (fun c =>
               argumentColumns (ComputedColumn_Expr c)
               ++ [quoted (computedName c)])
            (AnalyticFunctionGroup_AnalyticFunctionList group))
    (AnalyticScan_FunctionGroupList p).

(** The offsets of the window frame of a call hold no analytic node. *)
Definition frameQuiet {Value : Type} (host : Collaborators Value)
  (call : AnalyticFunctionCall (Node Value)) : bool :=
  match AnalyticFunctionCall_WindowFrame call with
  | Some frame =>
      (quiet host AnalyticColumns
         (WindowFrameExpr_Expression (WindowFrame_StartExpr frame))
       && quiet host AnalyticColumns
            (WindowFrameExpr_Expression (WindowFrame_EndExpr frame)))%bool
  | None => true
  end.

(** The computed column is an analytic function, as every entry of a
    function group is: an analytic call, with plain frame offsets. *)
Definition analyticFunction {Value : Type} (host : Collaborators Value)
  (c : ComputedColumn (Node Value)) : bool :=
  match ComputedColumn_Expr c with
  | AnalyticFunctionCallNode (Some call) => frameQuiet host call
  | _ => false
  end.

Definition analyticFunctions {Value : Type} (host : Collaborators Value)
  (p : AnalyticScan (Node Value)) : bool :=
  forallb
    (fun group =>
       forallb (analyticFunction host)
         (AnalyticFunctionGroup_AnalyticFunctionList group))
    (AnalyticScan_FunctionGroupList p).

(** [SELECT SUM(x) OVER (PARTITION BY y) AS s FROM t]. *)
Definition sumOverPartition : AnalyticScan (Node string) :=
  {| AnalyticScan_InputScan := tableScan "t";
     AnalyticScan_FunctionGroupList :=
       [ {| AnalyticFunctionGroup_PartitionBy := Some [column "y" "t"];
            AnalyticFunctionGroup_OrderBy := None;
            AnalyticFunctionGroup_AnalyticFunctionList :=
              [ {| ComputedColumn_Column := column "s" "$analytic";
                   ComputedColumn_Expr :=
                     AnalyticFunctionCallNode (Some
                       {| AnalyticFunctionCall_ArgumentList :=
                            [columnRef "x" "t"];
                          AnalyticFunctionCall_ResultTypeName := "INT64";
                          AnalyticFunctionCall_FullName := "sum";
                          AnalyticFunctionCall_Distinct := false;
                          AnalyticFunctionCall_WindowFrame := None |}) |} ]
         |} ] |}.

(** ** Further notions for the properties of the whole translation *)

(** How the cursor may move in a translation: the paths stay, the index
    does not go back, and an index that was within the paths (or just
    past their end) does not pass the end. *)
Definition cursorMoves (st st' : St) : Prop :=
  paths st' = paths st /\
  idx st <= idx st' /\
  (idx st <= length (paths st) -> idx st' <= length (paths st)).

(** A computation relates the state it ends in to the state it starts
    from, whatever it comes back with. *)
Definition stays {A : Type} (R : St -> St -> Prop) (m : M A) : Prop :=
  forall st, R st (snd (m st)).

(** The two ways a translation does not return a text. *)
Inductive failure : Type :=
| Failed
| Panicked.

(** The outcome is not the failure [f]. *)
Definition spared {A : Type} (f : failure) (r : result A) : Prop :=
  match f, r with
  | Failed, Err _ => False
  | Panicked, Panic => False
  | _, _ => True
  end.

(** A computation never ends in the failure [f]. *)
Definition avoids {A : Type} (f : failure) (m : M A) : Prop :=
  forall st, spared f (fst (m st)).

(** A column reference without its column, on which the type switch
    of the analytic call dereferences nil. *)
Definition nilColumnRef {Value : Type} (n : Node Value) : bool :=
  match n with
  | ColumnRefNode None => true
  | _ => false
  end.

(** The method of the node itself, its children apart, may end in the
    failure: only the analytic call creates errors; a panic comes from
    the cursor (table scans, DML statements, calls of functions that
    are not built in) or from a payload that is read without a test. *)
Definition raises {Value : Type} (host : Collaborators Value)
  (f : failure) (n : Node Value) : bool :=
  match f, n with
  | Failed, AnalyticFunctionCallNode (Some _) => true
  | Panicked, ParameterNode None => true
  | Panicked, TableScanNode (Some _) => true
  | Panicked, InsertStmtNode (Wrapper _) => true
  | Panicked, DeleteStmtNode (Wrapper _) => true
  | Panicked, UpdateStmtNode (Wrapper _) => true
  | Panicked, DMLValueNode (Wrapper None) => true
  | Panicked, InsertRowNode (Wrapper None) => true
  | Panicked, UpdateItemNode (Some p) =>
      match UpdateItem_SetValue p with
      | None => true
      | Some _ => false
      end
  | Panicked, FunctionCallNode (Some p) =>
      negb (builtinb (normalFuncMap host) (FunctionCall_FullName p))
  | Panicked, AggregateFunctionCallNode (Some p) =>
      negb (builtinb (aggregateFuncMap host)
              (AggregateFunctionCall_FullName p))
  | Panicked, AnalyticFunctionCallNode (Some p) =>
      (negb (builtinb (windowFuncMap host) (AnalyticFunctionCall_FullName p))
       || existsb nilColumnRef (AnalyticFunctionCall_ArgumentList p))%bool
  | _, _ => false
  end.

(** No node at or below [n] may end in the failure. *)
Definition sound {Value : Type} (host : Collaborators Value)
  (f : failure) (n : Node Value) : bool :=
  forallb (fun m => negb (raises host f m)) (subnodes n).

(** A column reference that holds its column. *)
Definition presentColumnRef {Value : Type} (n : Node Value) : bool :=
  match n with
  | ColumnRefNode (Some _) => true
  | _ => false
  end.

(** The table of an argument of an analytic call. *)
Definition argumentTable {Value : Type} (n : Node Value) : string :=
  match n with
  | ColumnRefNode (Some c) => Column_TableName c
  | _ => ""
  end.

(** The context after the arguments of an analytic call: each column
    reference sets the analytic table name, so the last one stays. *)
Definition afterArguments {Value : Type} (ctx : Env)
  (args : list (Node Value)) : Env :=
  withTableNames ctx (map argumentTable args).

(** The state after the arguments: their texts are appended to the
    shared column list. *)
Definition collectArguments {Value : Type} (st : St)
  (args : list (Node Value)) : St :=
  {| paths := paths st; idx := idx st; columnMap := columnMap st;
     values := values st ++ map argumentText args |}.

(** The [DISTINCT] marker of a call. *)
Definition distinctOptions (distinct : bool) : list string :=
  if distinct then ["zetasqlite_distinct_string()"] else [].

(** The boundary type carries no offset. *)
Definition unboundedOrCurrent (typ : BoundaryType) : bool :=
  match typ with
  | UnboundedPrecedingType | CurrentRowType | UnboundedFollowingType => true
  | _ => false
  end.

(** An analytic call over [x] of table [t] with a window frame. *)
Definition framedCall (frame : option (WindowFrame (Node string)))
  : AnalyticFunctionCall (Node string) :=
  {| AnalyticFunctionCall_ArgumentList := [columnRef "x" "t"];
     AnalyticFunctionCall_ResultTypeName := "INT64";
     AnalyticFunctionCall_FullName := "sum";
     AnalyticFunctionCall_Distinct := true;
     AnalyticFunctionCall_WindowFrame := frame |}.

Definition frameExpr (typ : BoundaryType) : WindowFrameExpr (Node string) :=
  {| WindowFrameExpr_BoundaryType := typ;
     WindowFrameExpr_Expression := LiteralNode None |}.

(** An aggregate call of a user-defined function with all modifiers. *)
Definition userAggregate : AggregateFunctionCall (Node string) :=
  {| AggregateFunctionCall_ArgumentList := [columnRef "x" "t"];
     AggregateFunctionCall_ResultTypeName := "INT64";
     AggregateFunctionCall_FullName := "f";
     AggregateFunctionCall_OrderByItemList :=
       [ {| OrderByItem_ColumnRef := column "y" "t";
            OrderByItem_IsDescending := true |} ];
     AggregateFunctionCall_Distinct := true;
     AggregateFunctionCall_Limit := Some (tableScan "t") |}.

(** The options of a window frame whose boundaries carry no offset:
    the unit, the start and the end. *)
Definition frameOptions {Value : Type} (host : Collaborators Value)
  (frame : option (WindowFrame (Node Value))) : list string :=
  match frame with
  | None => []
  | Some f =>
      [getWindowFrameUnitOptionFuncSQL host (WindowFrame_FrameUnit f);
       getWindowBoundaryStartOptionFuncSQL host
         (WindowFrameExpr_BoundaryType (WindowFrame_StartExpr f)) "";
       getWindowBoundaryEndOptionFuncSQL host
         (WindowFrameExpr_BoundaryType (WindowFrame_EndExpr f)) ""]
  end.

(** No frame, or a frame between boundaries without offsets. *)
Definition plainFrame {Value : Type}
  (frame : option (WindowFrame (Node Value))) : bool :=
  match frame with
  | None => true
  | Some f =>
      (unboundedOrCurrent
         (WindowFrameExpr_BoundaryType (WindowFrame_StartExpr f))
       && unboundedOrCurrent
            (WindowFrameExpr_BoundaryType (WindowFrame_EndExpr f)))%bool
  end.

(** What a call of a function that is not built in comes to, once its
    name is resolved: the body of the registered function with the
    arguments in place of its placeholders, or a call by the resolved
    name. *)
Definition userCallSQL (ctx : Env) (funcName : string)
  (args : list string) : string :=
  match funcMap ctx !! funcName with
  | Some spec =>
      "( " +:+ substitutePlaceholders (FunctionSpec_Body spec) args +:+ " )"
  | None => callSQL funcName args
  end.

(** The text holds no placeholder. *)
Definition placeholderFree (text : string) : bool :=
  negb (Strings.contains "?"%char text).

(** The number of placeholders of a body. *)
Fixpoint placeholders (body : string) : nat :=
  match body with
  | EmptyString => 0
  | String c rest =>
      (if Ascii.eqb c "?"%char then 1 else 0) + placeholders rest
  end.

(** The receiver of one of the five DML methods is nil itself. *)
Definition nilReceiver {Value : Type} (n : Node Value) : bool :=
  match n with
  | DMLValueNode NilReceiver | InsertRowNode NilReceiver
  | InsertStmtNode NilReceiver | DeleteStmtNode NilReceiver
  | UpdateStmtNode NilReceiver => true
  | _ => false
  end.

(** A node of one of the kinds whose method is the empty one. *)
Definition untranslated {Value : Type} (n : Node Value) : bool :=
  match n with
  | EmptyNode _ _ => true
  | _ => false
  end.

(** The node has nothing to translate: its method tests the payload
    and the payload is absent, its receiver is nil, or its kind has
    the empty method. *)
Definition nothingToTranslate {Value : Type} (n : Node Value) : bool :=
  ((payloadAbsent n && negb (testsReceiverOnly n))
   || nilReceiver n || untranslated n)%bool.

(** The output column of a computed column. *)
Definition outputOf {N : Type} (c : ComputedColumn N) : OutputColumn :=
  {| OutputColumn_Name := computedName c |}.

(** The method of the node itself, its children apart, reads or writes
    the mutable part of the context: the cursor, the column-expression
    map or the analytic column list. *)
Definition touches {Value : Type} (host : Collaborators Value)
  (n : Node Value) : bool :=
  match n with
  | TableScanNode (Some _) => true
  | InsertStmtNode (Wrapper _) => true
  | DeleteStmtNode (Wrapper _) => true
  | UpdateStmtNode (Wrapper _) => true
  | FunctionCallNode (Some p) =>
      negb (builtinb (normalFuncMap host) (FunctionCall_FullName p))
  | AggregateFunctionCallNode (Some p) =>
      negb (builtinb (aggregateFuncMap host)
              (AggregateFunctionCall_FullName p))
  | AnalyticFunctionCallNode (Some _) => true
  | ComputedColumnNode (Some _) => true
  | OutputColumnNode (Some _) => true
  | ProjectScanNode (Some _) => true
  | AggregateScanNode (Some _) => true
  | AnalyticFunctionGroupNode (Some _) => true
  | AnalyticScanNode (Some _) => true
  | _ => false
  end.

(** No node at or below [n] touches the mutable part of the context. *)
Definition stateless {Value : Type} (host : Collaborators Value)
  (n : Node Value) : bool :=
  forallb (fun m => negb (touches host m)) (subnodes n).

(** A computation that comes back with the same result from every
    state, and leaves the state as it found it. *)
Definition constant {A : Type} (m : M A) : Prop :=
  exists r, forall st, m st = (r, st).

(** Two computations come back with the same result and state from
    every state. *)
Definition agree {A : Type} (m m' : M A) : Prop :=
  forall st, m st = m' st.

(** The references of a tree: its table scans, its insert, update and
    delete statements and its calls of functions that are not built
    in, each of which reads one entry at the cursor. *)
Definition references {Value : Type} (host : Collaborators Value)
  (n : Node Value) : nat :=
  length (List.filter (writes host Cursor) (subnodes n)).

(** The references of a list of trees. *)
Definition total {Value : Type} (host : Collaborators Value)
  (l : list (Node Value)) : nat :=
  list_sum (map (references host) l).

(** An update item without a value to set. *)
Definition lacksValue {N : Type} (item : UpdateItem N) : bool :=
  match UpdateItem_SetValue item with
  | None => true
  | Some _ => false
  end.

(** The method of the node itself reads a payload that is absent
    without a test: the parameter and the DML methods on an absent
    payload, an update item without a value (on its own or in an
    update statement), and an analytic call on a column reference
    without its column. *)
Definition dereferencesNil {Value : Type} (n : Node Value) : bool :=
  match n with
  | ParameterNode None => true
  | DMLValueNode (Wrapper None) => true
  | InsertRowNode (Wrapper None) => true
  | InsertStmtNode (Wrapper None) => true
  | DeleteStmtNode (Wrapper None) => true
  | UpdateStmtNode (Wrapper None) => true
  | UpdateStmtNode (Wrapper (Some p)) =>
      existsb lacksValue (UpdateStmt_UpdateItemList p)
  | UpdateItemNode (Some p) => lacksValue p
  | AnalyticFunctionCallNode (Some p) =>
      existsb nilColumnRef (AnalyticFunctionCall_ArgumentList p)
  | _ => false
  end.

(** No node at or below [n] reads an absent payload. *)
Definition wellFormed {Value : Type} (n : Node Value) : bool :=
  forallb (fun m => negb (dereferencesNil m)) (subnodes n).

(** A computation reads at most [k] entries at the cursor, and does
    not panic when the paths hold that many from the cursor on. *)
Definition within {A : Type} (k : nat) (m : M A) : Prop :=
  forall st,
    paths (snd (m st)) = paths st /\
    idx (snd (m st)) <= idx st + k /\
    (idx st + k <= length (paths st) -> spared Panicked (fst (m st))).

(** ** The entries of the map a tree writes, deletes and leaves *)

(** The name is one of the list. *)
Definition inb (name : string) (names : list string) : bool :=
  existsb (String.eqb name) names.

(** The entries the method of the node itself writes: the names of
    the columns computed there. *)
Definition writtenNames {Value : Type} (n : Node Value) : list string :=
  match n with
  | ComputedColumnNode (Some c) => [computedName c]
  | ProjectScanNode (Some p) => map computedName (ProjectScan_ExprList p)
  | AggregateScanNode (Some p) =>
      map computedName (AggregateScan_AggregateList p)
  | AnalyticFunctionGroupNode (Some p) =>
      map computedName (AnalyticFunctionGroup_AnalyticFunctionList p)
  | AnalyticScanNode (Some p) =>
      flat_map
        (fun group =>
           map computedName
             (AnalyticFunctionGroup_AnalyticFunctionList group))
        (AnalyticScan_FunctionGroupList p)
  | _ => []
  end.

(** The entries the method of the node itself deletes: the columns a
    project scan declares. *)
Definition deletedNames {Value : Type} (n : Node Value) : list string :=
  match n with
  | ProjectScanNode (Some p) => map Column_Name (ProjectScan_ColumnList p)
  | _ => []
  end.

(** The entries a tree may write or delete. *)
Definition touched {Value : Type} (n : Node Value) : list string :=
  flat_map (fun m => writtenNames m ++ deletedNames m) (subnodes n).

(** The entries of a computed column and of what is below it, in the
    order of [ComputedColumnNode.FormatSQL]. *)
Definition computedLeaves {N : Type} (leaves : N -> list string)
  (c : ComputedColumn N) : list string :=
  leaves (ComputedColumn_Expr c) ++ [computedName c].

(** The entries a tree may leave in the map: those of the columns
    computed in it, but for the ones an enclosing project scan of the
    tree declares and so deletes. *)
Fixpoint leaves {Value : Type} (n : Node Value) {struct n} : list string :=
  match n with
  | FunctionCallNode (Some p) =>
      flat_map leaves (FunctionCall_ArgumentList p)
  | AggregateFunctionCallNode (Some p) =>
      flat_map leaves (AggregateFunctionCall_ArgumentList p)
      ++ match AggregateFunctionCall_Limit p with
         | Some limit => leaves limit
         | None => []
         end
  | AnalyticFunctionCallNode (Some p) =>
      flat_map leaves (AnalyticFunctionCall_ArgumentList p)
      ++ match AnalyticFunctionCall_WindowFrame p with
         | Some frame =>
             leaves (WindowFrameExpr_Expression (WindowFrame_StartExpr frame))
             ++ leaves
                  (WindowFrameExpr_Expression (WindowFrame_EndExpr frame))
         | None => []
         end
  | GetStructFieldNode (Some p) => leaves (GetStructField_Expr p)
  | SubqueryExprNode (Some p) => leaves (SubqueryExpr_Subquery p)
  | ArrayScanNode (Some p) => leaves (ArrayScan_ArrayExpr p)
  | FilterScanNode (Some p) =>
      leaves (FilterScan_InputScan p) ++ leaves (FilterScan_FilterExpr p)
  | AggregateScanNode (Some p) =>
      flat_map (computedLeaves leaves) (AggregateScan_AggregateList p)
      ++ leaves (AggregateScan_InputScan p)
  | SetOperationItemNode (Some p) => leaves (SetOperationItem_Scan p)
  | SetOperationScanNode (Some p) =>
      flat_map (fun item => leaves (SetOperationItem_Scan item))
        (SetOperationScan_InputItemList p)
  | AnalyticScanNode (Some p) =>
      leaves (AnalyticScan_InputScan p)
      ++ flat_map
           (fun group =>
              flat_map (computedLeaves leaves)
                (AnalyticFunctionGroup_AnalyticFunctionList group))
           (AnalyticScan_FunctionGroupList p)
  | ComputedColumnNode (Some p) => computedLeaves leaves p
  | ProjectScanNode (Some p) =>
      List.filter
        (fun name =>
           negb (inb name (map Column_Name (ProjectScan_ColumnList p))))
        (flat_map (computedLeaves leaves) (ProjectScan_ExprList p)
         ++ leaves (ProjectScan_InputScan p))
  | QueryStmtNode (Some p) => leaves (QueryStmt_Query p)
  | WithScanNode (Some p) =>
      flat_map (fun entry => leaves (WithEntry_WithSubquery entry))
        (WithScan_WithEntryList p)
      ++ leaves (WithScan_Query p)
  | WithEntryNode (Some p) => leaves (WithEntry_WithSubquery p)
  | AnalyticFunctionGroupNode (Some p) =>
      flat_map (computedLeaves leaves)
        (AnalyticFunctionGroup_AnalyticFunctionList p)
  | DMLValueNode (Wrapper (Some p)) => leaves (DMLValue_Value p)
  | InsertRowNode (Wrapper (Some p)) =>
      flat_map (fun v => leaves (DMLValue_Value v)) (InsertRow_ValueList p)
  | InsertStmtNode (Wrapper (Some p)) =>
      flat_map
        (fun row =>
           flat_map (fun v => leaves (DMLValue_Value v))
             (InsertRow_ValueList row))
        (InsertStmt_RowList p)
  | DeleteStmtNode (Wrapper (Some p)) => leaves (DeleteStmt_WhereExpr p)
  | UpdateItemNode (Some p) =>
      leaves (UpdateItem_Target p)
      ++ match UpdateItem_SetValue p with
         | Some value => leaves (DMLValue_Value value)
         | None => []
         end
  | UpdateStmtNode (Wrapper (Some p)) =>
      flat_map
        (fun item =>
           leaves (UpdateItem_Target item)
           ++ match UpdateItem_SetValue item with
              | Some value => leaves (DMLValue_Value value)
              | None => []
              end)
        (UpdateStmt_UpdateItemList p)
      ++ leaves (UpdateStmt_WhereExpr p)
  | _ => []
  end.

(** Every entry that the computed expressions and the input of a
    project scan may leave belongs to a column the scan declares. *)
Definition childrenLeaveDeclared {Value : Type}
  (p : ProjectScan (Node Value)) : bool :=
  forallb
    (fun child =>
       forallb
         (fun name => inb name (map Column_Name (ProjectScan_ColumnList p)))
         (leaves child))
    (children (ProjectScanNode (Some p))).

(** No computed column's entry is written or deleted by what is
    translated after it: the expressions of the later computed columns
    and the input. *)
Fixpoint entriesSurvive {Value : Type}
  (exprs : list (ComputedColumn (Node Value))) (input : Node Value) : bool :=
  match exprs with
  | [] => true
  | c :: later =>
      (forallb (fun child => negb (inb (computedName c) (touched child)))
         (map ComputedColumn_Expr later ++ [input])
       && entriesSurvive later input)%bool
  end.




(** [SELECT sum(x) + 1 AS y FROM t]: the aggregate is computed under a
    name of its own that the projection does not declare. *)
Definition projectOverHiddenAggregate : ProjectScan (Node string) :=
  {| ProjectScan_ExprList :=
       [ {| ComputedColumn_Column := column "y" "$query";
            ComputedColumn_Expr :=
              FunctionCallNode (Some
                {| FunctionCall_ArgumentList :=
                     [columnRef "total" "$aggregate"; literal "1"];
                   FunctionCall_ResultTypeName := "INT64";
                   FunctionCall_FullName := "$add" |}) |} ];
     ProjectScan_InputScan := AggregateScanNode (Some aggregateOverTable);
     ProjectScan_ColumnList := [column "y" "$query"] |}.

(** [SELECT a + 1 AS a FROM (SELECT x + 1 AS a FROM t)]: the inner
    projection computes and declares a column of the outer one's
    name. *)
Definition projectOverSameName : ProjectScan (Node string) :=
  {| ProjectScan_ExprList :=
       [ {| ComputedColumn_Column := column "a" "$query";
            ComputedColumn_Expr :=
              FunctionCallNode (Some
                {| FunctionCall_ArgumentList :=
                     [columnRef "a" "$subquery1"; literal "1"];
                   FunctionCall_ResultTypeName := "INT64";
                   FunctionCall_FullName := "$add" |}) |} ];
     ProjectScan_InputScan :=
       ProjectScanNode (Some
         {| ProjectScan_ExprList := [plusOne "a"];
            ProjectScan_InputScan := tableScan "t";
            ProjectScan_ColumnList := [column "a" "$subquery1"] |});
     ProjectScan_ColumnList := [column "a" "$query"] |}.

(** * Properties *)

(** ** The monad of the formatter *)

Lemma bind_Ok {A B : Type} (c : M A) (k : A -> M B) st a st' :
  c st = (Ok a, st') -> bind c k st = k a st'.
Proof. intros H. unfold bind. now rewrite H. Qed.

Lemma bind_Err {A B : Type} (c : M A) (k : A -> M B) st err st' :
  c st = (Err err, st') -> bind c k st = (Err err, st').
Proof. intros H. unfold bind. now rewrite H. Qed.

Lemma bind_Panic {A B : Type} (c : M A) (k : A -> M B) st st' :
  c st = (Panic, st') -> bind c k st = (Panic, st').
Proof. intros H. unfold bind. now rewrite H. Qed.

(** ** Strings *)

Lemma length_append (s1 s2 : string) :
  String.length (s1 +:+ s2) = String.length s1 + String.length s2.
Proof.
  induction s1 as [|c s1 IH]; [reflexivity|].
  change (S (String.length (s1 +:+ s2))
          = S (String.length s1 + String.length s2)).
  now rewrite IH.
Qed.

(** ** Name paths *)

Lemma mergeLoop_acc head namePath merged :
  mergeLoop head namePath merged = merged ++ mergeLoop head namePath [].
Proof.
  revert merged.
  induction namePath as [|path rest IH]; intros merged; simpl.
  - now rewrite app_nil_r.
  - destruct (String.eqb head path).
    + now rewrite app_nil_r.
    + rewrite (IH (merged ++ [path])), (IH [path]).
      now rewrite <- app_assoc.
Qed.

Lemma mergeLoop_collects head namePath :
  collectedPrefix head namePath (mergeLoop head namePath []).
Proof.
  induction namePath as [|path rest IH]; simpl.
  - exists []. repeat split; auto.
  - destruct (String.eqb head path) eqn:E.
    + apply String.eqb_eq in E. subst path.
      exists (head :: rest). repeat split; eauto.
    + apply String.eqb_neq in E.
      rewrite mergeLoop_acc.
      destruct IH as (tl & Hsplit & Hnot & Hstop).
      exists tl. split; [|split].
      * simpl. now f_equal.
      * simpl. intros [H|H]; [congruence | tauto].
      * exact Hstop.
Qed.

Lemma collectedPrefix_unique first declared P Q :
  collectedPrefix first declared P ->
  collectedPrefix first declared Q -> P = Q.
Proof.
  revert declared Q.
  induction P as [|p P IH]; intros declared Q
    (r1 & H1 & N1 & S1) (r2 & H2 & N2 & S2).
  - simpl in H1. subst r1.
    destruct Q as [|q Q]; [reflexivity|].
    destruct S1 as [->|(r' & ->)]; [discriminate|].
    simpl in H2. injection H2 as -> _.
    exfalso. apply N2. now left.
  - destruct Q as [|q Q].
    + simpl in H2. subst r2.
      destruct S2 as [->|(r' & ->)]; [discriminate|].
      simpl in H1. injection H1 as -> _.
      exfalso. apply N1. now left.
    + subst declared. simpl in H2. injection H2 as -> H2.
      f_equal. apply (IH (P ++ r1)).
      * exists r1. repeat split; auto. intros H. apply N1. now right.
      * exists r2. repeat split; auto. intros H. apply N2. now right.
Qed.

(** C8. [MergeNamePath] returns the declared path unchanged when the
    resolved path is empty; otherwise it returns [P ++ resolved], where
    [P] is the one prefix of the declared path collected from the front
    until a segment equals the first resolved segment or the declared
    path is exhausted; and merging [a;b;c] with [b;c;d] gives
    [a;b;c;d]. *)
Theorem MergeNamePath_spec :
  (forall declared, MergeNamePath declared [] = declared) /\
  (forall declared first resolved,
      exists P,
        collectedPrefix first declared P /\
        (forall Q, collectedPrefix first declared Q -> Q = P) /\
        MergeNamePath declared (first :: resolved)
        = P ++ first :: resolved) /\
  MergeNamePath ["a"; "b"; "c"] ["b"; "c"; "d"] = ["a"; "b"; "c"; "d"].
Proof.
  split; [|split].
  - reflexivity.
  - intros declared first resolved.
    exists (mergeLoop first declared []).
    split; [apply mergeLoop_collects|].
    split; [|reflexivity].
    intros Q HQ.
    eapply collectedPrefix_unique; [exact HQ | apply mergeLoop_collects].
  - reflexivity.
Qed.

Lemma MergeNamePath_spec_witness :
  collectedPrefix "b" ["a"; "b"; "c"] ["a"] /\
  MergeNamePath ["a"; "b"; "c"] ["b"; "c"; "d"] = ["a"] ++ ["b"; "c"; "d"].
Proof.
  assert (Hprefix : collectedPrefix "b" ["a"; "b"; "c"] ["a"]).
  { exists ["b"; "c"]. split; [reflexivity|]. split.
    - intros [H|[]]. discriminate.
    - right. eexists. reflexivity. }
  split; [exact Hprefix|].
  destruct (proj1 (proj2 MergeNamePath_spec) ["a"; "b"; "c"] "b" ["c"; "d"])
    as (P & _ & Hunique & Hmerge).
  rewrite Hmerge. now rewrite (Hunique ["a"] Hprefix).
Defined.

(** ** Set operations *)

(** C1, as the specification states it, fails: with an operator code
    that is none of the six, [FormatSQL] succeeds and joins the two
    branches with the keyword the [default] case assigns. *)
Lemma SetOperationScan_unrecognized_succeeds :
  recognizedOpType (SetOperationScan_OpType unknownSetOperation) = false /\
  fst (FormatSQL demoHost (SetOperationScanNode (Some unknownSetOperation))
         (freshEnv [] ∅) (freshSt [["a"]; ["b"]]))
  = Ok "FROM `a` UNKONWN FROM `b`".
Proof. split; reflexivity. Qed.

(** C1, amended.  For a set-operation scan whose operator code is none
    of the six recognized ones, [FormatSQL] raises no error of its own:
    when every branch formats, it succeeds with the fragments joined by
    the keyword [UNKONWN]; it fails only with the error (or panic) of a
    branch. *)
Theorem SetOperationScan_unrecognized_joins :
  forall (Value : Type) (host : Collaborators Value)
         (p : SetOperationScan (Node Value)) (ctx : Env) (st : St),
    recognizedOpType (SetOperationScan_OpType p) = false ->
    let branches :=
      forM (fun item => FormatSQL host (SetOperationItem_Scan item) ctx)
        (SetOperationScan_InputItemList p) in
    FormatSQL host (SetOperationScanNode (Some p)) ctx st
    = match branches st with
      | (Ok queries, st') => (Ok (Strings.Join queries " UNKONWN "), st')
      | (Err err, st') => (Err err, st')
      | (Panic, st') => (Panic, st')
      end.
Proof.
  intros Value host p ctx st Hop branches.
  destruct p as [op items]. simpl in Hop.
  destruct op; try discriminate.
  reflexivity.
Qed.

Lemma SetOperationScan_unrecognized_joins_witness :
  recognizedOpType (SetOperationScan_OpType unknownSetOperation) = false /\
  FormatSQL demoHost (SetOperationScanNode (Some unknownSetOperation))
    (freshEnv [] ∅) (freshSt [["a"]; ["b"]])
  = (Ok "FROM `a` UNKONWN FROM `b`",
     advance (advance (freshSt [["a"]; ["b"]]))).
Proof.
  split; [reflexivity|].
  rewrite (SetOperationScan_unrecognized_joins string demoHost
             unknownSetOperation (freshEnv [] ∅) (freshSt [["a"]; ["b"]]));
    reflexivity.
Defined.

(** ** Analytic function calls *)

Lemma analyticArguments_rejects {Value : Type} (host : Collaborators Value)
  (l : list (Node Value)) :
  forall (ctx : Env) (args : list string) (st : St),
    Exists (fun a => isColumnRef a = false) l ->
    Forall (fun a => columnPresent a = true) l ->
    exists st',
      analyticArguments (FormatSQL host) l ctx args st
      = (Err UnexpectedArgumentNodeType, st').
Proof.
  induction l as [|a rest IH]; intros ctx args st Hex Hall.
  - inversion Hex.
  - inversion Hall as [|? ? Ha Hrest]; subst.
    destruct a as [| |[t|]| | | | | | | | | | | | | | | | | | | | | | | | | | | |];
      try (eexists; reflexivity).
    + inversion Hex as [? ? Hhd|? ? Htl]; subst; [discriminate|].
      destruct (IH (withAnalyticTableName ctx (Column_TableName t))
                  (args ++ [quoted (Column_Name t)])
                  {| paths := paths st; idx := idx st;
                     columnMap := columnMap st;
                     values := values st ++ [quoted (Column_Name t)] |}
                  Htl Hrest) as [st' Hst'].
      exists st'. exact Hst'.
    + discriminate.
Qed.

(** C10. An analytic function call with an argument that is not a
    column reference is rejected: [FormatSQL] returns the error of the
    type switch.  (The column references before it hold their column,
    as every reference the analyzer hands over does.) *)
Theorem AnalyticFunctionCall_rejects_other_arguments :
  forall (Value : Type) (host : Collaborators Value)
         (p : AnalyticFunctionCall (Node Value)) (ctx : Env) (st : St),
    Exists (fun a => isColumnRef a = false)
      (AnalyticFunctionCall_ArgumentList p) ->
    Forall (fun a => columnPresent a = true)
      (AnalyticFunctionCall_ArgumentList p) ->
    exists st',
      FormatSQL host (AnalyticFunctionCallNode (Some p)) ctx st
      = (Err UnexpectedArgumentNodeType, st').
Proof.
  intros Value host p ctx st Hex Hall.
  destruct (analyticArguments_rejects host _ ctx [] st Hex Hall)
    as [st' Hst'].
  exists st'.
  cbn [FormatSQL]. unfold AnalyticFunctionCallNode_FormatSQL.
  rewrite (bind_Ok _ _ st (values st) st) by reflexivity.
  now rewrite (bind_Err _ _ _ _ _ Hst').
Qed.

Lemma AnalyticFunctionCall_rejects_other_arguments_witness :
  exists st',
    FormatSQL demoHost (AnalyticFunctionCallNode (Some analyticCallOnLiteral))
      (freshEnv [] ∅) (freshSt [])
    = (Err UnexpectedArgumentNodeType, st').
Proof.
  apply (AnalyticFunctionCall_rejects_other_arguments string demoHost
           analyticCallOnLiteral (freshEnv [] ∅) (freshSt [])).
  - right. left. reflexivity.
  - repeat constructor.
Defined.

(** ** Absent payloads *)

(** Every method that tests [n.node == nil] returns the empty text and
    no error for an absent payload, and leaves the context alone. *)
Lemma absent_payload_empty {Value : Type} (host : Collaborators Value)
  (n : Node Value) (ctx : Env) (st : St) :
  payloadAbsent n = true -> testsReceiverOnly n = false ->
  FormatSQL host n ctx st = (Ok "", st).
Proof.
  destruct n as [[]|[]|[]|[]|[]|[]|[]|[]|[]|[]|[]|[]|[]|[]|[]|[]|[]|[]|[]
                |[]|[]|[]|[]|[|[]]|[|[]]|[|[]]|[|[]]|[]|[|[]]|[]|? []];
    simpl; intros Habsent Htests; try discriminate; reflexivity.
Qed.

(** C4 does not hold of the code: the DML methods (insert, update,
    delete, insert-row, DML-value) test the receiver, [n == nil], and
    not the payload, and the parameter method tests nothing; with an
    absent payload each of them dereferences nil, so [FormatSQL] panics
    instead of returning the empty text.  An update item without a
    value to set runs into it. *)
Theorem absent_payload_panics :
  forall (Value : Type) (host : Collaborators Value) (ctx : Env) (st : St),
    fst (FormatSQL host (DMLValueNode (Wrapper None)) ctx st) = Panic /\
    fst (FormatSQL host (InsertRowNode (Wrapper None)) ctx st) = Panic /\
    fst (FormatSQL host (InsertStmtNode (Wrapper None)) ctx st) = Panic /\
    fst (FormatSQL host (DeleteStmtNode (Wrapper None)) ctx st) = Panic /\
    fst (FormatSQL host (UpdateStmtNode (Wrapper None)) ctx st) = Panic /\
    fst (FormatSQL host (ParameterNode None) ctx st) = Panic /\
    (forall column,
        fst (FormatSQL host
               (UpdateItemNode (Some
                  {| UpdateItem_Target := ColumnRefNode (Some column);
                     UpdateItem_SetValue := None |})) ctx st) = Panic).
Proof.
  intros Value host ctx st.
  repeat split; try reflexivity;
    cbn [FormatSQL InsertStmtNode_FormatSQL DeleteStmtNode_FormatSQL
           UpdateStmtNode_FormatSQL];
    unfold bind, resolveName; destruct (paths st !! idx st); reflexivity.
Qed.

(** ** Function names *)

Lemma resolveCallee_builtin (lower : string -> string)
  (prefix : string) (catalog : gset string)
  (typeName fullName : string) (args : list string) (ctx : Env) (st : St) :
  builtin catalog fullName ->
  resolveCallee lower prefix catalog typeName fullName args ctx st
  = (Ok (CalleeName (mangledName prefix (bareName fullName)
                       (resultTypeFamily lower typeName))), st).
Proof.
  intros Hb. unfold resolveCallee, bareName.
  destruct (Strings.HasPrefix fullName "$") eqn:E; [reflexivity|].
  destruct Hb as [Hb|Hb]; [congruence|].
  destruct (decide (fullName ∈ catalog)); [reflexivity|contradiction].
Qed.








(** ** Inlined user-defined functions *)

Lemma ReplaceFirst_skip (p rest new : string) :
  Strings.contains "?"%char p = false ->
  Strings.ReplaceFirst (p +:+ rest) "?"%char new
  = p +:+ Strings.ReplaceFirst rest "?"%char new.
Proof.
  induction p as [|c p IH]; intros Hp; [reflexivity|].
  cbn [Strings.contains] in Hp. apply orb_false_elim in Hp as [Hc Hp].
  change (String c p +:+ rest) with (String c (p +:+ rest)).
  cbn [Strings.ReplaceFirst]. rewrite Hc, (IH Hp). reflexivity.
Qed.

Lemma inlineBody_skip (args : list string) :
  forall p rest,
    Strings.contains "?"%char p = false ->
    Forall (fun arg => Strings.contains "?"%char arg = false) args ->
    inlineBody (p +:+ rest) args = p +:+ inlineBody rest args.
Proof.
  unfold inlineBody.
  induction args as [|arg args IH]; intros p rest Hp Hargs; [reflexivity|].
  inversion Hargs as [|? ? Harg Hrest]; subst.
  cbn [fold_left]. rewrite (ReplaceFirst_skip _ _ _ Hp).
  now apply IH.
Qed.

(** When no formatted argument holds a [?] itself, the loop of the
    formatter does substitute argument by argument, left to right, as
    the specification words it. *)
Lemma inlineBody_positional (body : string) :
  forall args,
    Forall (fun arg => Strings.contains "?"%char arg = false) args ->
    inlineBody body args = substitutePlaceholders body args.
Proof.
  induction body as [|c body IH]; intros args Hargs.
  - unfold inlineBody. induction args as [|arg args IHa]; [reflexivity|].
    inversion Hargs; subst. cbn [fold_left Strings.ReplaceFirst]. auto.
  - cbn [substitutePlaceholders].
    destruct (Ascii.eqb c "?"%char) eqn:E.
    + destruct args as [|arg args]; [reflexivity|].
      inversion Hargs as [|? ? Harg Hrest]; subst.
      unfold inlineBody at 1. cbn [fold_left Strings.ReplaceFirst].
      rewrite E. fold (inlineBody (arg +:+ body) args).
      rewrite (inlineBody_skip _ _ _ Harg Hrest). now rewrite IH.
    + change (String c body) with (String c "" +:+ body).
      rewrite inlineBody_skip; [now rewrite IH| |exact Hargs].
      cbn [Strings.contains]. now rewrite E.
Qed.

(** C6 does not hold of the code.  A registered function with the body
    [? + ?] called with [1] and [2] inlines to [( 1 + 2 )]; but called
    with an argument reference, whose text is [?], and [1], the loop
    puts [1] into the text of the first argument: [( 1 + ? )], where
    the argument-by-argument substitution gives [( ? + 1 )]. *)
Theorem inlineBody_refills_substituted_argument :
  fst (FormatSQL demoHost (callPlus [literal "1"; literal "2"])
         (freshEnv [] plusSpec) (freshSt [["f"]]))
  = Ok "( 1 + 2 )" /\
  fst (FormatSQL demoHost
         (callPlus [ArgumentRefNode (Some {| ArgumentRef_Name := "x" |});
                    literal "1"])
         (freshEnv [] plusSpec) (freshSt [["f"]]))
  = Ok "( 1 + ? )" /\
  "( " +:+ substitutePlaceholders "? + ?" ["?"; "1"] +:+ " )" = "( ? + 1 )".
Proof. repeat split; vm_compute; reflexivity. Qed.

(** ** Induction on nodes *)

Lemma flat_map_map {A B C : Type} (f : B -> list C) (g : A -> B)
  (l : list A) :
  flat_map f (map g l) = flat_map (fun x => f (g x)) l.
Proof. induction l as [|a l IH]; simpl; [reflexivity|now rewrite IH]. Qed.

Lemma flat_map_flat_map {A B C : Type} (f : B -> list C) (g : A -> list B)
  (l : list A) :
  flat_map f (flat_map g l) = flat_map (fun x => flat_map f (g x)) l.
Proof.
  induction l as [|a l IH]; simpl; [reflexivity|].
  now rewrite flat_map_app, IH.
Qed.

Lemma subnodes_children {Value : Type} (n : Node Value) :
  subnodes n = n :: flat_map subnodes (children n).
Proof.
  destruct n as [[]|[]|[]|[]|[]|[]|[]|[]|[]|[]|[]|[]|[]|[]|[]|[]|[]|[]|[]
                |[]|[]|[]|[]|[|[]]|[|[]]|[|[]]|[|[]]|[]|[|[]]|[]|? []];
    cbn [subnodes children]; f_equal;
    rewrite ?flat_map_app, ?flat_map_flat_map, ?flat_map_map;
    cbn [flat_map]; rewrite ?app_nil_r; try reflexivity.
  - destruct (AggregateFunctionCall_Limit a); cbn [flat_map];
      now rewrite ?app_nil_r.
  - destruct (AnalyticFunctionCall_WindowFrame a); cbn [flat_map];
      now rewrite ?app_nil_r.
  - rewrite flat_map_flat_map. f_equal.
    apply flat_map_ext. intros g. now rewrite flat_map_map.
  - apply flat_map_ext. intros r. now rewrite flat_map_map.
  - destruct (UpdateItem_SetValue u); cbn [flat_map];
      now rewrite ?app_nil_r.
  - f_equal. apply flat_map_ext. intros i.
    destruct (UpdateItem_SetValue i); cbn [flat_map];
      now rewrite ?app_nil_r.
Qed.

Lemma subnodes_child {Value : Type} (n child m : Node Value) :
  In child (children n) -> In m (subnodes child) -> In m (subnodes n).
Proof.
  intros Hc Hm. rewrite subnodes_children. right.
  apply in_flat_map. eauto.
Qed.

Lemma subnodes_self {Value : Type} (n : Node Value) : In n (subnodes n).
Proof. rewrite subnodes_children. now left. Qed.

Lemma subnodes_child_shorter {Value : Type} (n child : Node Value) :
  In child (children n) -> length (subnodes child) < length (subnodes n).
Proof.
  intros Hc. rewrite (subnodes_children n). cbn [length].
  apply Nat.lt_succ_r.
  induction (children n) as [|a l IH]; [contradiction|].
  cbn [flat_map]. rewrite length_app.
  destruct Hc as [->|Hc]; [lia|]. specialize (IH Hc). lia.
Qed.

(** A property holds of every node when it holds of a node as soon as
    it holds of its children. *)
Lemma Node_children_ind {Value : Type} (P : Node Value -> Prop) :
  (forall n, (forall child, In child (children n) -> P child) -> P n) ->
  forall n, P n.
Proof.
  intros Hstep n.
  remember (length (subnodes n)) as k eqn:Hk.
  revert n Hk.
  induction k as [k IH] using lt_wf_ind.
  intros n ->. apply Hstep. intros child Hc.
  apply (IH (length (subnodes child))); [|reflexivity].
  now apply subnodes_child_shorter.
Qed.

(** ** What a translation leaves alone *)

Lemma same_refl (c : component) (st : St) : same c st st.
Proof. destruct c; simpl; auto. Qed.

Lemma same_trans (c : component) (st1 st2 st3 : St) :
  same c st1 st2 -> same c st2 st3 -> same c st1 st3.
Proof.
  destruct c; simpl; [intros [? ?] [? ?]; split|intros ? ?|intros ? ?];
    congruence.
Qed.

Lemma keeps_ret {A : Type} (c : component) (a : A) : keeps c (ret a).
Proof. intros st. apply same_refl. Qed.

Lemma keeps_fail {A : Type} (c : component) (err : error) :
  keeps c (@fail A err).
Proof. intros st. apply same_refl. Qed.

Lemma keeps_panic {A : Type} (c : component) : keeps c (@panic A).
Proof. intros st. apply same_refl. Qed.

Lemma keeps_bind {A B : Type} (c : component) (m : M A) (k : A -> M B) :
  keeps c m -> (forall a, keeps c (k a)) -> keeps c (bind m k).
Proof.
  intros Hm Hk st. unfold bind. specialize (Hm st).
  destruct (m st) as [[a|err|] st']; simpl in Hm; simpl; auto.
  eapply same_trans; [exact Hm|apply Hk].
Qed.

Lemma keeps_forM {A B : Type} (c : component) (f : A -> M B) (l : list A) :
  (forall a, In a l -> keeps c (f a)) -> keeps c (forM f l).
Proof.
  induction l as [|a l IH]; intros Hf; cbn [forM].
  - apply keeps_ret.
  - apply keeps_bind; [apply Hf; now left|]. intros b.
    apply keeps_bind; [|intros bs; apply keeps_ret].
    apply IH. intros a' Ha'. apply Hf. now right.
Qed.

Lemma keeps_resolveName (c : component) (ctx : Env) :
  c <> Cursor -> keeps c (resolveName ctx).
Proof.
  intros Hc st. unfold resolveName.
  destruct (paths st !! idx st); destruct c; simpl; auto; contradiction.
Qed.

Lemma keeps_resolveCallee (c : component) (lower : string -> string)
  (prefix : string) (catalog : gset string) (typeName fullName : string)
  (args : list string) (ctx : Env) :
  c <> Cursor \/ builtinb catalog fullName = true ->
  keeps c (resolveCallee lower prefix catalog typeName fullName args ctx).
Proof.
  intros Hc. unfold resolveCallee, builtinb in *.
  destruct (Strings.HasPrefix fullName "$"); [apply keeps_ret|].
  destruct (decide (fullName ∈ catalog)) as [Hin|Hin]; [apply keeps_ret|].
  destruct Hc as [Hc|Hc].
  - apply keeps_bind; [now apply keeps_resolveName|]. intros funcName.
    destruct (funcMap ctx !! funcName); apply keeps_ret.
  - simpl in Hc. apply bool_decide_eq_true in Hc. contradiction.
Qed.

Lemma quiet_self {Value : Type} (host : Collaborators Value)
  (c : component) (n : Node Value) :
  quiet host c n = true -> writes host c n = false.
Proof.
  unfold quiet. rewrite forallb_forall. intros H.
  apply negb_true_iff. apply H. apply subnodes_self.
Qed.

Lemma quiet_child {Value : Type} (host : Collaborators Value)
  (c : component) (n child : Node Value) :
  quiet host c n = true -> In child (children n) ->
  quiet host c child = true.
Proof.
  unfold quiet. rewrite !forallb_forall. intros H Hc m Hm.
  apply H. eapply subnodes_child; eassumption.
Qed.

Lemma keeps_analyticArguments {Value : Type} (host : Collaborators Value)
  (c : component) (l : list (Node Value)) :
  c <> AnalyticColumns ->
  forall ctx args, keeps c (analyticArguments (FormatSQL host) l ctx args).
Proof.
  intros Hc.
  induction l as [|a rest IH]; intros ctx args; cbn [analyticArguments].
  - apply keeps_ret.
  - destruct a as [| |[t|]| | | | | | | | | | | | | | | | | | | | | | | | | | | |];
      try apply keeps_fail; try apply keeps_panic.
    apply keeps_bind; [apply keeps_ret|]. intros arg.
    apply keeps_bind; [|intros _; apply IH].
    destruct c; [intros st; cbn; auto|intros st; cbn; auto|contradiction].
Qed.

Ltac solve_child :=
  match goal with
  | H : In ?x ?l |- In ?x ?l => exact H
  | |- In ?x (?x :: _) => apply in_eq
  | |- In _ (_ :: _) => apply in_cons; solve_child
  | |- In _ (_ ++ _) =>
      apply in_or_app; first [left; solve_child | right; solve_child]
  | |- In _ (map _ _) => apply in_map; solve_child
  | |- In _ (flat_map _ _) =>
      apply in_flat_map; eexists; split; [eassumption|solve_child]
  | E : ?x = _ |- In _ (match ?x with _ => _ end) => rewrite E; solve_child
  end.

Ltac keeps_prim :=
  let st := fresh "st" in
  intros st; cbn; auto.

Ltac keeps_step IH :=
  match goal with
  | |- _ => progress cbv beta iota
  | |- keeps _ (ret _) => apply keeps_ret
  | |- keeps _ (fail _) => apply keeps_fail
  | |- keeps _ panic => apply keeps_panic
  | |- keeps _ (FormatSQL _ _ _) => apply IH; solve_child
  | |- keeps _ (bind _ _) => apply keeps_bind; [|intros ?]
  | |- keeps _ (forM _ _) => apply keeps_forM; intros ? ?
  | |- keeps _ (resolveCallee _ _ _ _ _ _ _) =>
      apply keeps_resolveCallee; first [left; discriminate | right; assumption]
  | |- keeps _ (resolveName _) => apply keeps_resolveName; discriminate
  | |- keeps _ (analyticArguments _ _ _ _) =>
      apply keeps_analyticArguments; discriminate
  | |- keeps _ getValues => keeps_prim
  | |- keeps _ getColumnMap => keeps_prim
  | |- keeps _ (appendValues _) => keeps_prim
  | |- keeps _ resetValues => keeps_prim
  | |- keeps _ (setColumn _ _) => keeps_prim
  | |- keeps _ (putColumnMap _) => keeps_prim
  | |- keeps _ (if ?b then _ else _) => destruct b
  | |- keeps _ (match ?x with _ => _ end) =>
      let E := fresh "E" in
      destruct x eqn:E; try rewrite E in IH
  end.


Create HintDb rules discriminated.

#[local] Hint Unfold FunctionCallNode_FormatSQL
  AggregateFunctionCallNode_FormatSQL orderByOption ColumnRefNode_FormatSQL
  AnalyticFunctionCallNode_FormatSQL getWindowBoundaryOptionFuncSQL
  GetStructFieldNode_FormatSQL SubqueryExprNode_FormatSQL
  ArrayScanNode_FormatSQL FilterScanNode_FormatSQL
  ComputedColumnNode_FormatSQL AggregateScanNode_FormatSQL
  SetOperationItemNode_FormatSQL SetOperationScanNode_FormatSQL
  AnalyticFunctionGroupNode_FormatSQL AnalyticScanNode_FormatSQL
  ProjectScanNode_FormatSQL QueryStmtNode_FormatSQL WithEntryNode_FormatSQL
  WithScanNode_FormatSQL DMLValueNode_FormatSQL InsertRowNode_FormatSQL
  InsertStmtNode_FormatSQL DeleteStmtNode_FormatSQL UpdateItemNode_FormatSQL
  UpdateStmtNode_FormatSQL : rules.

Lemma keeps_analyticGroups {Value : Type} (host : Collaborators Value)
  (l : list (AnalyticFunctionGroup (Node Value))) :
  (forall group column ctx,
      In group l ->
      In column (AnalyticFunctionGroup_AnalyticFunctionList group) ->
      keeps Cursor (FormatSQL host (ComputedColumn_Expr column) ctx)) ->
  forall ctx, keeps Cursor (analyticGroups (FormatSQL host) l ctx).
Proof.
  induction l as [|group rest IH]; intros Hrec ctx; cbn [analyticGroups].
  - apply keeps_ret.
  - apply keeps_bind.
    { destruct (AnalyticFunctionGroup_PartitionBy group);
        repeat keeps_step Hrec. }
    intros ctx1. apply keeps_bind.
    { destruct (AnalyticFunctionGroup_OrderBy group);
        repeat keeps_step Hrec. }
    intros ctx2. apply keeps_bind.
    { unfold AnalyticFunctionGroupNode_FormatSQL, ComputedColumnNode_FormatSQL.
      apply keeps_bind; [|intros ?; apply keeps_ret].
      apply keeps_forM. intros column Hcolumn.
      apply keeps_bind; [|intros ?; repeat keeps_step Hrec].
      apply keeps_bind; [|intros ?; repeat keeps_step Hrec].
      apply Hrec with (group := group); [now left|exact Hcolumn]. }
    intros _. apply IH. intros g column ctx' Hg Hcolumn.
    apply Hrec with (group := g); [now right|exact Hcolumn].
Qed.

(** A translation leaves a part of the context as it found it when no
    node of the tree writes that part. *)
Lemma FormatSQL_keeps {Value : Type} (host : Collaborators Value)
  (c : component) :
  forall (n : Node Value),
    quiet host c n = true -> forall ctx, keeps c (FormatSQL host n ctx).
Proof.
  apply (Node_children_ind
           (fun n => quiet host c n = true ->
                     forall ctx, keeps c (FormatSQL host n ctx))).
  intros n IH Hq ctx.
  pose proof (quiet_self host c n Hq) as Hself.
  assert (IH' : forall child, In child (children n) ->
                forall ctx, keeps c (FormatSQL host child ctx)).
  { intros child Hc. apply IH; [exact Hc|].
    eapply quiet_child; eassumption. }
  clear IH Hq.
  destruct n as [[p|]|[p|]|[p|]|[p|]|[p|]|[p|]|[p|]|[p|]|[p|]|[p|]|[p|]|[p|]
                |[p|]|[p|]|[p|]|[p|]|[p|]|[p|]|[p|]|[p|]|[p|]|[p|]|[p|]
                |[|[p|]]|[|[p|]]|[|[p|]]|[|[p|]]|[p|]|[|[p|]]|[p|]|k u];
    cbn [FormatSQL LiteralNode_FormatSQL ParameterNode_FormatSQL
           ColumnRefNode_FormatSQL TableScanNode_FormatSQL
           WithRefScanNode_FormatSQL OutputColumnNode_FormatSQL
           ArgumentRefNode_FormatSQL];
    try apply keeps_ret; try apply keeps_panic;
    cbn [children] in IH';
    destruct c; cbn in Hself; try discriminate Hself;
    try (apply negb_false_iff in Hself).
  all: try (repeat autounfold with rules; repeat keeps_step IH'; fail).
  unfold AnalyticScanNode_FormatSQL.
  apply keeps_bind; [apply IH'; apply in_eq|]. intros input.
  apply keeps_bind; [|intros ?; repeat keeps_step IH'].
  apply keeps_analyticGroups. intros group column ctx' Hg Hcolumn.
  apply IH'. apply in_cons. apply in_flat_map. exists group.
  split; [exact Hg|]. now apply in_map.
Qed.

(** ** The name-path cursor *)

Lemma resolveName_in_range (ctx : Env) (st : St) :
  idx st < length (paths st) ->
  exists name, resolveName ctx st = (Ok name, advance st).
Proof.
  intros Hlt. unfold resolveName.
  destruct (lookup_lt_is_Some_2 (paths st) (idx st) Hlt) as [path ->].
  eauto.
Qed.

Lemma children_keep {Value : Type} (host : Collaborators Value)
  (n : Node Value) :
  childrenKeepCursor host n = true ->
  forall child, In child (children n) ->
  forall ctx, keeps Cursor (FormatSQL host child ctx).
Proof.
  unfold childrenKeepCursor. rewrite forallb_forall.
  intros H child Hc ctx. apply FormatSQL_keeps. now apply H.
Qed.

Lemma keeps_after_advance {A : Type} (m : M A) (st : St) :
  keeps Cursor m ->
  paths (snd (m (advance st))) = paths st /\
  idx (snd (m (advance st))) = S (idx st).
Proof. intros H. destruct (H (advance st)) as [Hp Hi]. now rewrite Hp, Hi. Qed.

(** C3. With the cursor on an entry, a table scan moves the cursor by
    exactly one entry and touches nothing else; an insert, update or
    delete statement moves it by one for its own target before any
    child is translated, and the rest of its translation does not move
    it again: with children that hold no reference of their own, the
    cursor ends exactly one entry on, whatever the outcome. *)
Theorem cursor_advances_once :
  forall (Value : Type) (host : Collaborators Value) (ctx : Env) (st : St),
    idx st < length (paths st) ->
    (forall t,
        exists sql,
          FormatSQL host (TableScanNode (Some t)) ctx st
          = (Ok sql, advance st)) /\
    (forall n,
        (exists p, n = InsertStmtNode (Wrapper (Some p))) \/
        (exists p, n = UpdateStmtNode (Wrapper (Some p))) \/
        (exists p, n = DeleteStmtNode (Wrapper (Some p))) ->
        childrenKeepCursor host n = true ->
        paths (snd (FormatSQL host n ctx st)) = paths st /\
        idx (snd (FormatSQL host n ctx st)) = S (idx st)).
Proof.
  intros Value host ctx st Hlt.
  destruct (resolveName_in_range ctx st Hlt) as [name Hname].
  split.
  - intros t. cbn [FormatSQL TableScanNode_FormatSQL].
    rewrite (bind_Ok _ _ _ _ _ Hname). eexists. reflexivity.
  - intros n Hn Hq. pose proof (children_keep host n Hq) as IH.
    destruct Hn as [[p ->]|[[p ->]|[p ->]]];
      cbn [FormatSQL InsertStmtNode_FormatSQL UpdateStmtNode_FormatSQL
             DeleteStmtNode_FormatSQL];
      rewrite (bind_Ok _ _ _ _ _ Hname);
      cbn [children] in IH;
      apply keeps_after_advance;
      repeat autounfold with rules; repeat keeps_step IH.
Qed.

Lemma cursor_advances_once_witness :
  idx (freshSt [["t"]]) < length (paths (freshSt [["t"]])) /\
  childrenKeepCursor demoHost (UpdateStmtNode (Wrapper (Some updateStmt)))
  = true /\
  FormatSQL demoHost (tableScan "t") (freshEnv [] ∅) (freshSt [["t"]])
  = (Ok "FROM `t`", advance (freshSt [["t"]])) /\
  idx (snd (FormatSQL demoHost (UpdateStmtNode (Wrapper (Some updateStmt)))
              (freshEnv [] ∅) (freshSt [["t"]]))) = 1.
Proof.
  assert (Hlt : idx (freshSt [["t"]]) < length (paths (freshSt [["t"]]))).
  { simpl. lia. }
  pose proof (cursor_advances_once string demoHost (freshEnv [] ∅)
                (freshSt [["t"]]) Hlt) as [Hscan Hdml].
  split; [exact Hlt|]. split; [vm_compute; reflexivity|]. split.
  - destruct (Hscan {| TableScan_Table := "t" |}) as [sql Hsql].
    unfold tableScan. rewrite Hsql.
    vm_compute in Hsql. injection Hsql as <-. reflexivity.
  - apply (Hdml (UpdateStmtNode (Wrapper (Some updateStmt)))).
    + right. left. eexists. reflexivity.
    + vm_compute. reflexivity.
Defined.

(** ** Projections *)

Lemma bind_Ok_inv {A B : Type} (c : M A) (k : A -> M B) st b st' :
  bind c k st = (Ok b, st') ->
  exists a st1, c st = (Ok a, st1) /\ k a st1 = (Ok b, st').
Proof.
  unfold bind. destruct (c st) as [[a|err|] st1]; intros H;
    [eauto|discriminate|discriminate].
Qed.



Lemma projectColumns_rest (cols : list Column) :
  forall m name,
    (In name (map Column_Name cols) ->
     snd (projectColumns cols m) !! name = None) /\
    (~ In name (map Column_Name cols) ->
     snd (projectColumns cols m) !! name = m !! name).
Proof.
  induction cols as [|col rest IH]; intros m name;
    cbn [projectColumns map In].
  - split; [intros []|reflexivity].
  - destruct (m !! Column_Name col) eqn:E.
    + destruct (IH (delete (Column_Name col) m) name) as [IHin IHout].
      destruct (projectColumns rest (delete (Column_Name col) m))
        as [columns m'].
      cbn [snd] in *. split.
      * intros [<-|Hin].
        -- destruct (in_dec string_dec (Column_Name col)
                       (map Column_Name rest)) as [Hd|Hd].
           ++ now apply IHin.
           ++ rewrite (IHout Hd). apply lookup_delete_eq.
        -- now apply IHin.
      * intros Hout. rewrite IHout by tauto.
        apply lookup_delete_ne. tauto.
    + destruct (IH m name) as [IHin IHout].
      destruct (projectColumns rest m) as [columns m'].
      cbn [snd] in *. split.
      * intros [<-|Hin].
        -- destruct (in_dec string_dec (Column_Name col)
                       (map Column_Name rest)) as [Hd|Hd].
           ++ now apply IHin.
           ++ now rewrite (IHout Hd).
        -- now apply IHin.
      * intros Hout. apply IHout. tauto.
Qed.


Lemma computedColumns_entries {Value : Type} (host : Collaborators Value)
  (ctx : Env) (l : list (ComputedColumn (Node Value))) :
  forall st queries st1,
    (forall c, In c l -> quiet host ColumnMap (ComputedColumn_Expr c) = true) ->
    List.NoDup (map computedName l) ->
    forM (fun c => FormatSQL host (ComputedColumnNode (Some c)) ctx) l st
    = (Ok queries, st1) ->
    (forall name, ~ In name (map computedName l) ->
                  columnMap st1 !! name = columnMap st !! name) /\
    (forall c, In c l ->
               exists expr sa sb,
                 FormatSQL host (ComputedColumn_Expr c) ctx sa = (Ok expr, sb) /\
                 columnMap st1 !! computedName c
                 = Some (expr +:+ " AS " +:+ quoted (computedName c))).
Proof.
  induction l as [|c rest IH]; intros st queries st1 Hq Hnd Hrun.
  - cbn [forM] in Hrun. injection Hrun as _ <-.
    split; [reflexivity|intros c []].
  - cbn [forM] in Hrun.
    apply bind_Ok_inv in Hrun as (q & st2 & Hc & Hrun).
    apply bind_Ok_inv in Hrun as (qs & st3 & Hrest & Hrun).
    injection Hrun as _ <-.
    cbn [FormatSQL] in Hc. unfold ComputedColumnNode_FormatSQL in Hc.
    apply bind_Ok_inv in Hc as (expr & sa & Hexpr & Hc).
    injection Hc as <- <-.
    assert (Hsa : columnMap sa = columnMap st).
    { pose proof (FormatSQL_keeps host ColumnMap (ComputedColumn_Expr c)
                    (Hq c (in_eq _ _)) ctx st) as Hk.
      rewrite Hexpr in Hk. exact Hk. }
    inversion Hnd as [|? ? Hnotin Hnd']; subst.
    destruct (IH _ _ _ (fun c' Hc' => Hq c' (in_cons _ _ _ Hc')) Hnd' Hrest)
      as [IHout IHin].
    cbn [columnMap] in IHout.
    split.
    + intros name Hname. cbn [map In] in Hname.
      rewrite IHout by tauto.
      rewrite lookup_insert_ne by (unfold computedName in Hname; tauto).
      now rewrite Hsa.
    + intros c' [<-|Hc'].
      * exists expr, st, sa. split; [exact Hexpr|].
        rewrite (IHout _ Hnotin). apply lookup_insert_eq.
      * now apply IHin.
Qed.


(** ** Entries of the column-expression map *)































(** The two conditions on the children are needed.  In
    [SELECT sum(x) + 1 AS y FROM t] the aggregate scan leaves the entry
    of the aggregate, which the projection does not declare: the map is
    not empty after the scope.  In
    [SELECT a + 1 AS a FROM (SELECT x + 1 AS a FROM t)] the inner
    projection overwrites and deletes the entry of the outer computed
    column: the outer expression is not emitted. *)
Lemma ProjectScan_children_matter :
  childrenLeaveDeclared projectOverHiddenAggregate = false /\
  FormatSQL demoHost (ProjectScanNode (Some projectOverHiddenAggregate))
    (freshEnv [] ∅) (freshSt [["t"]])
  = (Ok "SELECT zetasqlite_add_int64(`total`,1) AS `y` FROM `t`",
     {| paths := [["t"]]; idx := 1;
        columnMap :=
          {[ "total" := "zetasqlite_sum_int64(`x`) AS `total`" ]};
        values := [] |}) /\
  entriesSurvive (ProjectScan_ExprList projectOverSameName)
    (ProjectScan_InputScan projectOverSameName) = false /\
  FormatSQL demoHost (ProjectScanNode (Some projectOverSameName))
    (freshEnv [] ∅) (freshSt [["t"]])
  = (Ok "SELECT `a` SELECT zetasqlite_add_int64(`x`,1) AS `a` FROM `t`",
     advance (freshSt [["t"]])).
Proof. repeat split; vm_compute; reflexivity. Qed.

(** ** Aggregate scans *)

(** C9. An aggregate scan formats every aggregate expression first,
    then its input; the input fragment is wrapped as [FROM ( <input> )]
    if and only if it starts with [SELECT], and is returned unchanged
    otherwise.  The aggregate expressions have entered the
    column-expression map by then: each has its entry, when their
    names are distinct and no expression writes entries of its own. *)
Theorem AggregateScan_wraps_select :
  forall (Value : Type) (host : Collaborators Value)
         (p : AggregateScan (Node Value)) (ctx : Env) (st st1 st2 : St)
         (aggregates : list string) (input : string),
    forM (fun agg => FormatSQL host (ComputedColumnNode (Some agg)) ctx)
      (AggregateScan_AggregateList p) st = (Ok aggregates, st1) ->
    FormatSQL host (AggregateScan_InputScan p) ctx st1 = (Ok input, st2) ->
    FormatSQL host (AggregateScanNode (Some p)) ctx st
    = (Ok (if Strings.HasPrefix input "SELECT"
           then "FROM ( " +:+ input +:+ " )" else input), st2) /\
    (Strings.HasPrefix input "SELECT" = false ->
     fst (FormatSQL host (AggregateScanNode (Some p)) ctx st) = Ok input) /\
    (fst (FormatSQL host (AggregateScanNode (Some p)) ctx st)
     = Ok ("FROM ( " +:+ input +:+ " )") ->
     Strings.HasPrefix input "SELECT" = true) /\
    ((forall agg, In agg (AggregateScan_AggregateList p) ->
                  quiet host ColumnMap (ComputedColumn_Expr agg) = true) ->
     List.NoDup (map computedName (AggregateScan_AggregateList p)) ->
     forall agg, In agg (AggregateScan_AggregateList p) ->
                 exists expr,
                   columnMap st1 !! computedName agg
                   = Some (expr +:+ " AS " +:+ quoted (computedName agg))).
Proof.
  intros Value host p ctx st st1 st2 aggregates input Haggs Hinput.
  assert (Hrun : FormatSQL host (AggregateScanNode (Some p)) ctx st
                 = (Ok (if Strings.HasPrefix input "SELECT"
                        then "FROM ( " +:+ input +:+ " )" else input), st2)).
  { cbn [FormatSQL]. unfold AggregateScanNode_FormatSQL.
    rewrite (bind_Ok _ _ _ _ _ Haggs).
    rewrite (bind_Ok _ _ _ _ _ Hinput).
    cbv beta.
    destruct (Strings.HasPrefix input "SELECT"); reflexivity. }
  split; [exact Hrun|]. rewrite Hrun. simpl. split; [|split].
  - now intros ->.
  - destruct (Strings.HasPrefix input "SELECT") eqn:E; [reflexivity|].
    intros H. injection H as H.
    apply (f_equal String.length) in H.
    rewrite !length_append in H. simpl in H. lia.
  - intros Hq Hnd agg Hagg.
    destruct (computedColumns_entries host ctx _ _ _ _ Hq Hnd Haggs)
      as [_ Hin].
    destruct (Hin agg Hagg) as (expr & _ & _ & _ & Hentry). eauto.
Qed.

Lemma AggregateScan_wraps_select_witness :
  FormatSQL demoHost (AggregateScanNode (Some aggregateOverProject))
    (freshEnv [] ∅) (freshSt [["t"]])
  = (Ok "FROM ( SELECT `x` FROM `t` )",
     {| paths := [["t"]]; idx := 1;
        columnMap := {[ "total" := "zetasqlite_sum_int64(`x`) AS `total`" ]};
        values := [] |}).
Proof.
  refine (proj1 (AggregateScan_wraps_select string demoHost
            aggregateOverProject (freshEnv [] ∅) (freshSt [["t"]])
            _ _ _ "SELECT `x` FROM `t`" _ _)).
  - vm_compute. reflexivity.
  - vm_compute. reflexivity.
Defined.

(** ** Analytic scans *)

Lemma keeps_values {A : Type} (m : M A) (st : St) :
  keeps AnalyticColumns m -> values (snd (m st)) = values st.
Proof. intros H. exact (H st). Qed.

Lemma analyticArguments_values {Value : Type} (host : Collaborators Value)
  (l : list (Node Value)) :
  forall ctx args st r st',
    analyticArguments (FormatSQL host) l ctx args st = (Ok r, st') ->
    values st' = values st ++ map argumentText l.
Proof.
  induction l as [|a rest IH]; intros ctx args st r st' Hrun;
    cbn [analyticArguments] in Hrun.
  - injection Hrun as _ <-. cbn [map]. now rewrite app_nil_r.
  - destruct a as [| |[t|]| | | | | | | | | | | | | | | | | | | | | | | | | | | |];
      try discriminate.
    apply IH in Hrun. rewrite Hrun. cbn [values map argumentText].
    now rewrite <- app_assoc.
Qed.

Lemma AnalyticFunctionCall_values {Value : Type} (host : Collaborators Value)
  (call : AnalyticFunctionCall (Node Value)) (ctx : Env) (st st' : St)
  (sql : string) :
  frameQuiet host call = true ->
  FormatSQL host (AnalyticFunctionCallNode (Some call)) ctx st = (Ok sql, st') ->
  values st'
  = values st ++ map argumentText (AnalyticFunctionCall_ArgumentList call).
Proof.
  intros Hframe Hrun.
  cbn [FormatSQL] in Hrun. unfold AnalyticFunctionCallNode_FormatSQL in Hrun.
  apply bind_Ok_inv in Hrun as (orderColumns' & st1 & Hget & Hrun).
  injection Hget as <- <-.
  apply bind_Ok_inv in Hrun as (r & st2 & Hargs & Hrun).
  apply analyticArguments_values in Hargs. rewrite <- Hargs.
  assert (IH : forall child,
             In child
               match AnalyticFunctionCall_WindowFrame call with
               | Some frame =>
                   [WindowFrameExpr_Expression (WindowFrame_StartExpr frame);
                    WindowFrameExpr_Expression (WindowFrame_EndExpr frame)]
               | None => []
               end ->
             forall ctx, keeps AnalyticColumns (FormatSQL host child ctx)).
  { unfold frameQuiet in Hframe.
    destruct (AnalyticFunctionCall_WindowFrame call) as [frame|];
      [|intros ? []].
    apply andb_true_iff in Hframe as [Hs He].
    intros child [<-|[<-|[]]] ctx'; now apply FormatSQL_keeps. }
  match type of Hrun with
  | ?k st2 = _ =>
      assert (Hk : keeps AnalyticColumns k)
  end.
  { unfold getWindowBoundaryOptionFuncSQL. repeat keeps_step IH. }
  pose proof (keeps_values _ st2 Hk) as Hv. rewrite Hrun in Hv. exact Hv.
Qed.

Lemma analyticFunctionList_values {Value : Type} (host : Collaborators Value)
  (ctx : Env) (l : list (ComputedColumn (Node Value))) :
  forall st queries st',
    forallb (analyticFunction host) l = true ->
    forM (fun column =>
            sql <- ComputedColumnNode_FormatSQL (FormatSQL host)
                     (Some column) ctx ;;
            appendValues
              [quoted (Column_Name (ComputedColumn_Column column))] ;;;
            ret sql) l st = (Ok queries, st') ->
    values st'
    = values st
      ++ flat_map (fun c => argumentColumns (ComputedColumn_Expr c)
                            ++ [quoted (computedName c)]) l.
Proof.
  induction l as [|c rest IH]; intros st queries st' Hwf Hrun;
    cbn [forM] in Hrun.
  - injection Hrun as _ <-. cbn [flat_map]. now rewrite app_nil_r.
  - cbn [forallb] in Hwf. apply andb_true_iff in Hwf as [Hc Hwf].
    apply bind_Ok_inv in Hrun as (q & st1 & Hone & Hrun).
    apply bind_Ok_inv in Hrun as (qs & st2 & Hrest & Hrun).
    injection Hrun as _ <-.
    apply (IH _ _ _ Hwf) in Hrest. rewrite Hrest.
    apply bind_Ok_inv in Hone as (sql & st3 & Hcol & Hone).
    injection Hone as _ <-. cbn [values].
    unfold ComputedColumnNode_FormatSQL in Hcol.
    apply bind_Ok_inv in Hcol as (expr & st4 & Hexpr & Hcol).
    injection Hcol as _ <-. cbn [values].
    unfold analyticFunction in Hc. cbn [flat_map]. unfold argumentColumns.
    destruct (ComputedColumn_Expr c)
      as [| | | | |[call|]| | | | | | | | | | | | | | | | | | | | | | | | |];
      try discriminate.
    rewrite (AnalyticFunctionCall_values host call ctx st st4 expr Hc Hexpr).
    unfold computedName. now rewrite <- !app_assoc.
Qed.

Lemma analyticGroups_values {Value : Type} (host : Collaborators Value)
  (l : list (AnalyticFunctionGroup (Node Value))) :
  forall ctx st ctx' st',
    forallb (fun group =>
               forallb (analyticFunction host)
                 (AnalyticFunctionGroup_AnalyticFunctionList group)) l
    = true ->
    analyticGroups (FormatSQL host) l ctx st = (Ok ctx', st') ->
    values st'
    = values st
      ++ flat_map
           (fun group =>
              partitionColumns group ++ orderColumns group
              ++ flat_map
                   (fun c => argumentColumns (ComputedColumn_Expr c)
                             ++ [quoted (computedName c)])
                   (AnalyticFunctionGroup_AnalyticFunctionList group)) l.
Proof.
  induction l as [|group rest IH]; intros ctx st ctx' st' Hwf Hrun;
    cbn [analyticGroups] in Hrun.
  - injection Hrun as _ <-. cbn [flat_map]. now rewrite app_nil_r.
  - cbn [forallb] in Hwf. apply andb_true_iff in Hwf as [Hg Hwf].
    apply bind_Ok_inv in Hrun as (ctx1 & st1 & Hpart & Hrun).
    apply bind_Ok_inv in Hrun as (ctx2 & st2 & Hord & Hrun).
    apply bind_Ok_inv in Hrun as (sql & st3 & Hfuns & Hrun).
    apply (IH _ _ _ _ Hwf) in Hrun. rewrite Hrun. clear Hrun IH.
    unfold AnalyticFunctionGroupNode_FormatSQL in Hfuns.
    apply bind_Ok_inv in Hfuns as (queries & st4 & Hfuns & Hret).
    injection Hret as _ <-.
    apply (analyticFunctionList_values host _ _ _ _ _ Hg) in Hfuns.
    rewrite Hfuns. clear Hfuns.
    assert (Hst2 : values st2 = values st1 ++ orderColumns group).
    { unfold orderColumns.
      destruct (AnalyticFunctionGroup_OrderBy group) as [orderBy|].
      - apply bind_Ok_inv in Hord as (u & st5 & Happ & Hret).
        injection Hret as _ <-. injection Happ as _ <-. cbn [values].
        now rewrite map_map.
      - injection Hord as _ <-. now rewrite app_nil_r. }
    assert (Hst1 : values st1 = values st ++ partitionColumns group).
    { unfold partitionColumns.
      destruct (AnalyticFunctionGroup_PartitionBy group) as [partitionBy|].
      - apply bind_Ok_inv in Hpart as (u & st5 & Happ & Hret).
        injection Hret as _ <-. injection Happ as _ <-. reflexivity.
      - injection Hpart as _ <-. now rewrite app_nil_r. }
    rewrite Hst2, Hst1. cbn [flat_map]. now rewrite <- !app_assoc.
Qed.

(** C7, as the specification states it, fails: the [ORDER BY] of
    [SUM(x) OVER (PARTITION BY y) AS s] lists the output column [s]
    after the partition column and the argument column. *)
Lemma AnalyticScan_orders_by_output_column :
  fst (FormatSQL demoHost (AnalyticScanNode (Some sumOverPartition))
         (freshEnv [] ∅) (freshSt [["t"]]))
  = Ok ("FROM ( SELECT *, ROW_NUMBER() OVER() AS `rowid` FROM `t` ) "
        +:+ "ORDER BY `y`,`x`,`s`") /\
  declaredWindowColumns sumOverPartition = ["`y`"; "`x`"] /\
  fst (FormatSQL demoHost (AnalyticScanNode (Some sumOverPartition))
         (freshEnv [] ∅) (freshSt [["t"]]))
  <> Ok ("FROM ( SELECT *, ROW_NUMBER() OVER() AS `rowid` FROM `t` ) "
         +:+ "ORDER BY "
         +:+ Strings.Join (declaredWindowColumns sumOverPartition) ",").
Proof.
  split; [|split]; [vm_compute; reflexivity..|].
  vm_compute. discriminate.
Qed.

(** C7, amended.  An analytic scan that succeeds emits the formatted
    input wrapped in a derived table that selects all columns and
    [ROW_NUMBER() OVER()] as [rowid], followed by an [ORDER BY] that
    lists what the scan collected: per function group its partition
    columns, its order columns and, for each of its functions, the
    argument columns followed by the function's own output column.
    The list starts with what the context held before the groups, and
    is empty again after the scan. *)
Theorem AnalyticScan_orders_by_collected_columns :
  forall (Value : Type) (host : Collaborators Value)
         (p : AnalyticScan (Node Value)) (ctx : Env) (st st1 st' : St)
         (input sql : string),
    analyticFunctions host p = true ->
    FormatSQL host (AnalyticScan_InputScan p) ctx st = (Ok input, st1) ->
    FormatSQL host (AnalyticScanNode (Some p)) ctx st = (Ok sql, st') ->
    sql = "FROM ( SELECT *, ROW_NUMBER() OVER() AS `rowid` " +:+ input
            +:+ " ) " +:+ "ORDER BY "
            +:+ Strings.Join (values st1 ++ collectedColumns p) "," /\
    values st' = [].
Proof.
  intros Value host p ctx st st1 st' input sql Hwf Hinput Hrun.
  cbn [FormatSQL] in Hrun. unfold AnalyticScanNode_FormatSQL in Hrun.
  rewrite (bind_Ok _ _ _ _ _ Hinput) in Hrun.
  apply bind_Ok_inv in Hrun as (ctx' & st2 & Hgroups & Hrun).
  apply (analyticGroups_values host _ _ _ _ _ Hwf) in Hgroups.
  apply bind_Ok_inv in Hrun as (columns & st3 & Hget & Hrun).
  injection Hget as <- <-.
  apply bind_Ok_inv in Hrun as (u & st4 & Hreset & Hrun).
  injection Hreset as _ <-. injection Hrun as <- <-.
  rewrite Hgroups. split; reflexivity.
Qed.

Lemma AnalyticScan_orders_by_collected_columns_witness :
  analyticFunctions demoHost sumOverPartition = true /\
  "FROM ( SELECT *, ROW_NUMBER() OVER() AS `rowid` FROM `t` ) "
  +:+ "ORDER BY `y`,`x`,`s`"
  = "FROM ( SELECT *, ROW_NUMBER() OVER() AS `rowid` " +:+ "FROM `t`"
      +:+ " ) " +:+ "ORDER BY "
      +:+ Strings.Join ([] ++ collectedColumns sumOverPartition) ",".
Proof.
  split; [reflexivity|].
  refine (proj1 (AnalyticScan_orders_by_collected_columns string demoHost
                   sumOverPartition (freshEnv [] ∅) (freshSt [["t"]])
                   (advance (freshSt [["t"]])) _ "FROM `t`" _ _ _ _)).
  - reflexivity.
  - reflexivity.
  - vm_compute. reflexivity.
Defined.

(** * Further properties of the formatter *)

(** ** Name paths, continued *)

Lemma mergeLoop_absent head namePath :
  ~ In head namePath -> mergeLoop head namePath [] = namePath.
Proof.
  induction namePath as [|path rest IH]; intros Hnot; cbn [mergeLoop].
  - reflexivity.
  - destruct (String.eqb head path) eqn:E.
    + apply String.eqb_eq in E. subst. exfalso. apply Hnot. now left.
    + rewrite mergeLoop_acc, IH; [reflexivity|].
      intros H. apply Hnot. now right.
Qed.

Lemma mergeLoop_length head namePath :
  length (mergeLoop head namePath []) <= length namePath.
Proof.
  induction namePath as [|path rest IH]; cbn [mergeLoop]; [reflexivity|].
  destruct (String.eqb head path); cbn [length]; [lia|].
  rewrite mergeLoop_acc, length_app. cbn [length app]. lia.
Qed.

Lemma mergeLoop_head head namePath p P :
  mergeLoop head namePath [] = p :: P -> exists rest, namePath = p :: rest.
Proof.
  destruct namePath as [|path rest]; cbn [mergeLoop]; [discriminate|].
  destruct (String.eqb head path); [discriminate|].
  rewrite mergeLoop_acc. cbn [app]. intros H. injection H as -> _. eauto.
Qed.

(** X1. How [MergeNamePath] joins the two paths: a resolved path whose
    first segment does not occur in the declared path is appended to
    all of it; a resolved path that starts with the first declared
    segment replaces the declared path; and the merged path is never
    longer than both together. *)
Theorem MergeNamePath_joins :
  (forall declared first resolved,
      ~ In first declared ->
      MergeNamePath declared (first :: resolved)
      = declared ++ first :: resolved) /\
  (forall first declared resolved,
      MergeNamePath (first :: declared) (first :: resolved)
      = first :: resolved) /\
  (forall declared resolved,
      length (MergeNamePath declared resolved)
      <= length declared + length resolved).
Proof.
  split; [|split].
  - intros declared first resolved Hnot. cbn [MergeNamePath].
    now rewrite mergeLoop_absent.
  - intros first declared resolved. cbn [MergeNamePath mergeLoop].
    now rewrite String.eqb_refl.
  - intros declared [|first resolved]; cbn [MergeNamePath]; [lia|].
    rewrite length_app. pose proof (mergeLoop_length first declared). lia.
Qed.

Lemma MergeNamePath_joins_witness :
  ~ In "t" ["project"; "dataset"] /\
  MergeNamePath ["project"; "dataset"] ["t"] = ["project"; "dataset"; "t"].
Proof.
  assert (Hnot : ~ In "t" ["project"; "dataset"]).
  { intros [H|[H|[]]]; discriminate. }
  split; [exact Hnot|].
  exact (proj1 MergeNamePath_joins ["project"; "dataset"] "t" [] Hnot).
Defined.

(** X2. Merging is idempotent: a path that was merged with the
    declared path is not changed by merging it again. *)
Theorem MergeNamePath_idempotent :
  forall declared resolved,
    MergeNamePath declared (MergeNamePath declared resolved)
    = MergeNamePath declared resolved.
Proof.
  intros declared [|first resolved]; cbn [MergeNamePath].
  - destruct declared as [|d declared]; [reflexivity|].
    cbn [MergeNamePath mergeLoop]. now rewrite String.eqb_refl.
  - destruct (mergeLoop first declared []) as [|p P] eqn:E.
    + cbn [app MergeNamePath]. now rewrite E.
    + apply mergeLoop_head in E as [rest ->].
      cbn [app MergeNamePath mergeLoop]. now rewrite String.eqb_refl.
Qed.

Lemma append_assoc (s1 s2 s3 : string) :
  (s1 +:+ s2) +:+ s3 = s1 +:+ (s2 +:+ s3).
Proof.
  induction s1 as [|c s1 IH]; [reflexivity|].
  change (String c ((s1 +:+ s2) +:+ s3) = String c (s1 +:+ (s2 +:+ s3))).
  now rewrite IH.
Qed.

Lemma concat_app (sep : string) (p q : list string) :
  p <> [] -> q <> [] ->
  String.concat sep (p ++ q)
  = String.concat sep p +:+ sep +:+ String.concat sep q.
Proof.
  intros Hp Hq. induction p as [|a p IH]; [contradiction|].
  destruct p as [|b p].
  - cbn [app String.concat]. destruct q as [|c q]; [contradiction|].
    reflexivity.
  - cbn [app String.concat] in *. rewrite IH by discriminate.
    now rewrite !append_assoc.
Qed.

(** X3. [FormatName] of a path in two parts is the two flattened parts
    around an underscore; so a segment that holds an underscore itself
    flattens to the same name as the path split there: the flattened
    name does not tell the two paths apart. *)
Theorem FormatName_app :
  (forall p q,
      p <> [] -> q <> [] ->
      FormatName (p ++ q) = FormatName p +:+ "_" +:+ FormatName q) /\
  (forall p a b q,
      FormatName (p ++ [a +:+ "_" +:+ b] ++ q)
      = FormatName (p ++ [a; b] ++ q)).
Proof.
  assert (Hone : forall a b q,
             FormatName ([a +:+ "_" +:+ b] ++ q) = FormatName ([a; b] ++ q)).
  { intros a b q. unfold FormatName, Strings.Join.
    destruct q as [|c q]; cbn [app String.concat];
      now rewrite ?append_assoc. }
  split.
  - intros p q Hp Hq. unfold FormatName, Strings.Join.
    now apply concat_app.
  - intros p a b q. destruct p as [|c p]; [apply Hone|].
    unfold FormatName, Strings.Join in *.
    rewrite !(concat_app "_" (c :: p)) by discriminate.
    now rewrite Hone.
Qed.

Lemma FormatName_app_witness :
  FormatName (["project"] ++ ["dataset"; "t"]) = "project_dataset_t".
Proof.
  rewrite (proj1 FormatName_app ["project"] ["dataset"; "t"]);
    [reflexivity|discriminate|discriminate].
Defined.

(** ** The cursor over a whole translation *)

Lemma cursorMoves_trans (st1 st2 st3 : St) :
  cursorMoves st1 st2 -> cursorMoves st2 st3 -> cursorMoves st1 st3.
Proof.
  unfold cursorMoves. intros (Hp1 & Hi1 & Hb1) (Hp2 & Hi2 & Hb2).
  rewrite Hp1 in *. repeat split; [congruence|lia|].
  intros H. apply Hb1 in H as H'. apply Hb2 in H'. lia.
Qed.

Lemma stays_of_keeps {A : Type} (m : M A) :
  keeps Cursor m -> stays cursorMoves m.
Proof.
  intros H st. destruct (H st) as [Hp Hi]. unfold cursorMoves.
  rewrite Hp, Hi. repeat split; lia.
Qed.

Lemma stays_bind {A B : Type} (m : M A) (k : A -> M B) :
  stays cursorMoves m -> (forall a, stays cursorMoves (k a)) ->
  stays cursorMoves (bind m k).
Proof.
  intros Hm Hk st. unfold bind. specialize (Hm st).
  destruct (m st) as [[a|err|] st']; cbn [snd] in *; auto.
  eapply cursorMoves_trans; [exact Hm|apply Hk].
Qed.

Lemma stays_forM {A B : Type} (f : A -> M B) (l : list A) :
  (forall a, In a l -> stays cursorMoves (f a)) ->
  stays cursorMoves (forM f l).
Proof.
  induction l as [|a l IH]; intros Hf; cbn [forM].
  - apply stays_of_keeps, keeps_ret.
  - apply stays_bind; [apply Hf; now left|]. intros b.
    apply stays_bind; [|intros bs; apply stays_of_keeps, keeps_ret].
    apply IH. intros a' Ha'. apply Hf. now right.
Qed.

Lemma stays_resolveName (ctx : Env) : stays cursorMoves (resolveName ctx).
Proof.
  intros st. unfold resolveName, cursorMoves.
  destruct (paths st !! idx st) as [path|] eqn:E; cbn [snd advance paths idx].
  - apply lookup_lt_Some in E. repeat split; lia.
  - repeat split; lia.
Qed.

Lemma stays_resolveCallee (lower : string -> string)
  (prefix : string) (catalog : gset string)
  (typeName fullName : string) (args : list string) (ctx : Env) :
  stays cursorMoves
    (resolveCallee lower prefix catalog typeName fullName args ctx).
Proof.
  unfold resolveCallee.
  destruct (Strings.HasPrefix fullName "$");
    [apply stays_of_keeps, keeps_ret|].
  destruct (decide (fullName ∈ catalog));
    [apply stays_of_keeps, keeps_ret|].
  apply stays_bind; [apply stays_resolveName|]. intros funcName.
  destruct (funcMap ctx !! funcName); apply stays_of_keeps, keeps_ret.
Qed.

Ltac stays_step IH :=
  match goal with
  | |- _ => progress cbv beta iota
  | |- stays _ (ret _) => apply stays_of_keeps, keeps_ret
  | |- stays _ (fail _) => apply stays_of_keeps, keeps_fail
  | |- stays _ panic => apply stays_of_keeps, keeps_panic
  | |- stays _ (FormatSQL _ _ _) => apply IH; solve_child
  | |- stays _ (bind _ _) => apply stays_bind; [|intros ?]
  | |- stays _ (forM _ _) => apply stays_forM; intros ? ?
  | |- stays _ (resolveCallee _ _ _ _ _ _ _) => apply stays_resolveCallee
  | |- stays _ (resolveName _) => apply stays_resolveName
  | |- stays _ (analyticArguments _ _ _ _) =>
      apply stays_of_keeps, keeps_analyticArguments; discriminate
  | |- stays _ getValues => apply stays_of_keeps; keeps_prim
  | |- stays _ getColumnMap => apply stays_of_keeps; keeps_prim
  | |- stays _ (appendValues _) => apply stays_of_keeps; keeps_prim
  | |- stays _ resetValues => apply stays_of_keeps; keeps_prim
  | |- stays _ (setColumn _ _) => apply stays_of_keeps; keeps_prim
  | |- stays _ (putColumnMap _) => apply stays_of_keeps; keeps_prim
  | |- stays _ (if ?b then _ else _) => destruct b
  | |- stays _ (match ?x with _ => _ end) =>
      let E := fresh "E" in
      destruct x eqn:E; try rewrite E in IH
  end.

Lemma stays_analyticGroups {Value : Type} (host : Collaborators Value)
  (l : list (AnalyticFunctionGroup (Node Value))) :
  (forall group column ctx,
      In group l ->
      In column (AnalyticFunctionGroup_AnalyticFunctionList group) ->
      stays cursorMoves (FormatSQL host (ComputedColumn_Expr column) ctx)) ->
  forall ctx, stays cursorMoves (analyticGroups (FormatSQL host) l ctx).
Proof.
  induction l as [|group rest IH]; intros Hrec ctx; cbn [analyticGroups].
  - apply stays_of_keeps, keeps_ret.
  - apply stays_bind.
    { destruct (AnalyticFunctionGroup_PartitionBy group);
        repeat stays_step Hrec. }
    intros ctx1. apply stays_bind.
    { destruct (AnalyticFunctionGroup_OrderBy group);
        repeat stays_step Hrec. }
    intros ctx2. apply stays_bind.
    { unfold AnalyticFunctionGroupNode_FormatSQL, ComputedColumnNode_FormatSQL.
      apply stays_bind; [|intros ?; apply stays_of_keeps, keeps_ret].
      apply stays_forM. intros column Hcolumn.
      apply stays_bind; [|intros ?; repeat stays_step Hrec].
      apply stays_bind; [|intros ?; repeat stays_step Hrec].
      apply Hrec with (group := group); [now left|exact Hcolumn]. }
    intros _. apply IH. intros g column ctx' Hg Hcolumn.
    apply Hrec with (group := g); [now right|exact Hcolumn].
Qed.

Lemma FormatSQL_stays {Value : Type} (host : Collaborators Value) :
  forall (n : Node Value) ctx, stays cursorMoves (FormatSQL host n ctx).
Proof.
  apply (Node_children_ind
           (fun n => forall ctx, stays cursorMoves (FormatSQL host n ctx))).
  intros n IH ctx.
  destruct n as [[p|]|[p|]|[p|]|[p|]|[p|]|[p|]|[p|]|[p|]|[p|]|[p|]|[p|]|[p|]
                |[p|]|[p|]|[p|]|[p|]|[p|]|[p|]|[p|]|[p|]|[p|]|[p|]|[p|]
                |[|[p|]]|[|[p|]]|[|[p|]]|[|[p|]]|[p|]|[|[p|]]|[p|]|k u];
    cbn [FormatSQL LiteralNode_FormatSQL ParameterNode_FormatSQL
           ColumnRefNode_FormatSQL TableScanNode_FormatSQL
           WithRefScanNode_FormatSQL OutputColumnNode_FormatSQL
           ArgumentRefNode_FormatSQL];
    try (apply stays_of_keeps, keeps_ret);
    try (apply stays_of_keeps, keeps_panic);
    cbn [children] in IH.
  all: try (repeat autounfold with rules; repeat stays_step IH; fail).
  unfold AnalyticScanNode_FormatSQL.
  apply stays_bind; [apply IH; apply in_eq|]. intros input.
  apply stays_bind; [|intros ?; repeat stays_step IH].
  apply stays_analyticGroups. intros group column ctx' Hg Hcolumn.
  apply IH. apply in_cons. apply in_flat_map. exists group.
  split; [exact Hg|]. now apply in_map.
Qed.

(** X4. Whatever the tree and whatever the outcome, a translation
    leaves the list of paths as it is and never moves the cursor back;
    and a cursor that starts within the paths is never moved past
    their end. *)
Theorem cursor_never_goes_back :
  forall (Value : Type) (host : Collaborators Value) (n : Node Value)
         (ctx : Env) (st : St),
    paths (snd (FormatSQL host n ctx st)) = paths st /\
    idx st <= idx (snd (FormatSQL host n ctx st)) /\
    (idx st <= length (paths st) ->
     idx (snd (FormatSQL host n ctx st)) <= length (paths st)).
Proof. intros Value host n ctx st. apply (FormatSQL_stays host n ctx st). Qed.

Lemma cursor_never_goes_back_witness :
  idx (freshSt [["t"]]) <= length (paths (freshSt [["t"]])) /\
  idx (snd (FormatSQL demoHost (UpdateStmtNode (Wrapper (Some updateStmt)))
              (freshEnv [] ∅) (freshSt [["t"]])))
  <= length (paths (freshSt [["t"]])).
Proof.
  assert (H : idx (freshSt [["t"]]) <= length (paths (freshSt [["t"]]))).
  { cbn. lia. }
  split; [exact H|].
  exact (proj2 (proj2 (cursor_never_goes_back string demoHost
                         (UpdateStmtNode (Wrapper (Some updateStmt)))
                         (freshEnv [] ∅) (freshSt [["t"]]))) H).
Defined.

(** X5. With the cursor at or past the end of the paths, a table
    scan, an insert, update or delete statement, and a call of a
    function that is not built in (once its arguments are formatted)
    panic on the index, and the cursor is not moved. *)
Theorem cursor_out_of_range_panics :
  forall (Value : Type) (host : Collaborators Value) (ctx : Env) (st : St),
    length (paths st) <= idx st ->
    (forall t, FormatSQL host (TableScanNode (Some t)) ctx st = (Panic, st)) /\
    (forall node,
        FormatSQL host (InsertStmtNode (Wrapper node)) ctx st = (Panic, st)) /\
    (forall node,
        FormatSQL host (UpdateStmtNode (Wrapper node)) ctx st = (Panic, st)) /\
    (forall node,
        FormatSQL host (DeleteStmtNode (Wrapper node)) ctx st = (Panic, st)) /\
    (forall (p : FunctionCall (Node Value)) st0 args,
        builtinb (normalFuncMap host) (FunctionCall_FullName p) = false ->
        forM (fun a => FormatSQL host a ctx) (FunctionCall_ArgumentList p) st0
        = (Ok args, st) ->
        FormatSQL host (FunctionCallNode (Some p)) ctx st0 = (Panic, st)).
Proof.
  intros Value host ctx st Hge.
  assert (Hname : resolveName ctx st = (Panic, st)).
  { unfold resolveName. now rewrite (lookup_ge_None_2 _ _ Hge). }
  repeat split; intros;
    cbn [FormatSQL TableScanNode_FormatSQL InsertStmtNode_FormatSQL
           UpdateStmtNode_FormatSQL DeleteStmtNode_FormatSQL];
    try (now rewrite (bind_Panic _ _ _ _ Hname)).
  unfold FunctionCallNode_FormatSQL.
  match goal with H : forM _ _ _ = _ |- _ => rewrite (bind_Ok _ _ _ _ _ H) end.
  apply bind_Panic. unfold resolveCallee.
  match goal with H : builtinb _ _ = false |- _ =>
    unfold builtinb in H; apply orb_false_elim in H as [H1 H2] end.
  rewrite H1. apply bool_decide_eq_false in H2.
  destruct (decide (FunctionCall_FullName p ∈ normalFuncMap host));
    [contradiction|].
  now apply bind_Panic.
Qed.

Lemma cursor_out_of_range_panics_witness :
  length (paths (freshSt [])) <= idx (freshSt []) /\
  FormatSQL demoHost (tableScan "t") (freshEnv [] ∅) (freshSt [])
  = (Panic, freshSt []).
Proof.
  assert (H : length (paths (freshSt [])) <= idx (freshSt [])).
  { cbn. lia. }
  split; [exact H|].
  exact (proj1 (cursor_out_of_range_panics string demoHost (freshEnv [] ∅)
                  (freshSt []) H) {| TableScan_Table := "t" |}).
Defined.

(** ** Expressions that write nothing *)

(** X6. A tree in which no node moves the cursor, writes the
    column-expression map or collects analytic columns (literals,
    column references, parameters, calls of built-in functions, field
    accesses, filters over them) is translated without any change to
    the context, whatever the outcome. *)
Theorem quiet_tree_leaves_context :
  forall (Value : Type) (host : Collaborators Value) (n : Node Value)
         (ctx : Env) (st : St),
    quiet host Cursor n = true ->
    quiet host ColumnMap n = true ->
    quiet host AnalyticColumns n = true ->
    snd (FormatSQL host n ctx st) = st.
Proof.
  intros Value host n ctx st Hc Hm Ha.
  pose proof (FormatSQL_keeps host Cursor n Hc ctx st) as [Hp Hi].
  pose proof (FormatSQL_keeps host ColumnMap n Hm ctx st) as Hmap.
  pose proof (FormatSQL_keeps host AnalyticColumns n Ha ctx st) as Hval.
  cbn [same] in Hmap, Hval.
  destruct (snd (FormatSQL host n ctx st)) as [p i m v], st as [p0 i0 m0 v0].
  cbn in *. congruence.
Qed.

Lemma quiet_tree_leaves_context_witness :
  snd (FormatSQL demoHost greaterThanZero (freshEnv [] ∅) (freshSt [["t"]]))
  = freshSt [["t"]].
Proof.
  apply (quiet_tree_leaves_context string demoHost greaterThanZero);
    vm_compute; reflexivity.
Defined.

(** ** Where errors and panics come from *)

Lemma avoids_ret {A : Type} (f : failure) (a : A) : avoids f (ret a).
Proof. intros st. now destruct f. Qed.

Lemma avoids_fail {A : Type} (err : error) : avoids Panicked (@fail A err).
Proof. intros st. exact I. Qed.

Lemma avoids_panic {A : Type} : avoids Failed (@panic A).
Proof. intros st. exact I. Qed.

Lemma avoids_bind {A B : Type} (f : failure) (m : M A) (k : A -> M B) :
  avoids f m -> (forall a, avoids f (k a)) -> avoids f (bind m k).
Proof.
  intros Hm Hk st. unfold bind. specialize (Hm st).
  destruct (m st) as [[a|err|] st']; cbn [fst] in *; auto. apply Hk.
Qed.

Lemma avoids_forM {A B : Type} (f : failure) (g : A -> M B) (l : list A) :
  (forall a, In a l -> avoids f (g a)) -> avoids f (forM g l).
Proof.
  induction l as [|a l IH]; intros Hg; cbn [forM].
  - apply avoids_ret.
  - apply avoids_bind; [apply Hg; now left|]. intros b.
    apply avoids_bind; [|intros bs; apply avoids_ret].
    apply IH. intros a' Ha'. apply Hg. now right.
Qed.

Lemma avoids_resolveName (ctx : Env) : avoids Failed (resolveName ctx).
Proof.
  intros st. unfold resolveName. now destruct (paths st !! idx st).
Qed.

Lemma avoids_resolveCallee (f : failure) (lower : string -> string)
  (prefix : string) (catalog : gset string) (typeName fullName : string)
  (args : list string) (ctx : Env) :
  f = Failed \/ builtinb catalog fullName = true ->
  avoids f (resolveCallee lower prefix catalog typeName fullName args ctx).
Proof.
  intros Hf. unfold resolveCallee, builtinb in *.
  destruct (Strings.HasPrefix fullName "$"); [apply avoids_ret|].
  destruct (decide (fullName ∈ catalog)) as [Hin|Hin]; [apply avoids_ret|].
  destruct Hf as [->|Hf].
  - apply avoids_bind; [apply avoids_resolveName|]. intros funcName.
    destruct (funcMap ctx !! funcName); apply avoids_ret.
  - cbn in Hf. apply bool_decide_eq_true in Hf. contradiction.
Qed.

Lemma avoids_analyticArguments {Value : Type} (host : Collaborators Value)
  (l : list (Node Value)) :
  existsb nilColumnRef l = false ->
  forall ctx args,
    avoids Panicked (analyticArguments (FormatSQL host) l ctx args).
Proof.
  induction l as [|a rest IH]; intros Hnil ctx args; cbn [analyticArguments].
  - apply avoids_ret.
  - cbn [existsb] in Hnil. apply orb_false_elim in Hnil as [Ha Hrest].
    destruct a as [| |[t|]| | | | | | | | | | | | | | | | | | | | | | | | | | | |];
      try apply avoids_fail; try discriminate.
    apply avoids_bind; [apply avoids_ret|]. intros arg.
    apply avoids_bind; [intros st; exact I|]. intros _. now apply IH.
Qed.

Ltac avoids_prim :=
  let st := fresh "st" in
  intros st; match goal with |- spared ?f _ => destruct f; exact I end.

Ltac avoids_step IH :=
  match goal with
  | |- _ => progress cbv beta iota
  | |- avoids _ (ret _) => apply avoids_ret
  | |- avoids Panicked (fail _) => apply avoids_fail
  | |- avoids Failed panic => apply avoids_panic
  | |- avoids _ (FormatSQL _ _ _) => apply IH; solve_child
  | |- avoids _ (bind _ _) => apply avoids_bind; [|intros ?]
  | |- avoids _ (forM _ _) => apply avoids_forM; intros ? ?
  | |- avoids _ (resolveCallee _ _ _ _ _ _ _) =>
      apply avoids_resolveCallee;
      first [left; reflexivity | right; assumption]
  | |- avoids Failed (resolveName _) => apply avoids_resolveName
  | |- avoids Panicked (analyticArguments _ _ _ _) =>
      apply avoids_analyticArguments; assumption
  | |- avoids _ getValues => avoids_prim
  | |- avoids _ getColumnMap => avoids_prim
  | |- avoids _ (appendValues _) => avoids_prim
  | |- avoids _ resetValues => avoids_prim
  | |- avoids _ (setColumn _ _) => avoids_prim
  | |- avoids _ (putColumnMap _) => avoids_prim
  | |- avoids _ (if ?b then _ else _) => destruct b
  | |- avoids _ (match ?x with _ => _ end) =>
      let E := fresh "E" in
      destruct x eqn:E; try rewrite E in *; try discriminate
  end.

Lemma avoids_analyticGroups {Value : Type} (host : Collaborators Value)
  (f : failure) (l : list (AnalyticFunctionGroup (Node Value))) :
  (forall group column ctx,
      In group l ->
      In column (AnalyticFunctionGroup_AnalyticFunctionList group) ->
      avoids f (FormatSQL host (ComputedColumn_Expr column) ctx)) ->
  forall ctx, avoids f (analyticGroups (FormatSQL host) l ctx).
Proof.
  induction l as [|group rest IH]; intros Hrec ctx; cbn [analyticGroups].
  - apply avoids_ret.
  - apply avoids_bind.
    { destruct (AnalyticFunctionGroup_PartitionBy group);
        repeat avoids_step Hrec. }
    intros ctx1. apply avoids_bind.
    { destruct (AnalyticFunctionGroup_OrderBy group);
        repeat avoids_step Hrec. }
    intros ctx2. apply avoids_bind.
    { unfold AnalyticFunctionGroupNode_FormatSQL, ComputedColumnNode_FormatSQL.
      apply avoids_bind; [|intros ?; apply avoids_ret].
      apply avoids_forM. intros column Hcolumn.
      apply avoids_bind; [|intros ?; repeat avoids_step Hrec].
      apply avoids_bind; [|intros ?; repeat avoids_step Hrec].
      apply Hrec with (group := group); [now left|exact Hcolumn]. }
    intros _. apply IH. intros g column ctx' Hg Hcolumn.
    apply Hrec with (group := g); [now right|exact Hcolumn].
Qed.

Lemma sound_self {Value : Type} (host : Collaborators Value)
  (f : failure) (n : Node Value) :
  sound host f n = true -> raises host f n = false.
Proof.
  unfold sound. rewrite forallb_forall. intros H.
  apply negb_true_iff. apply H. apply subnodes_self.
Qed.

Lemma sound_child {Value : Type} (host : Collaborators Value)
  (f : failure) (n child : Node Value) :
  sound host f n = true -> In child (children n) ->
  sound host f child = true.
Proof.
  unfold sound. rewrite !forallb_forall. intros H Hc m Hm.
  apply H. eapply subnodes_child; eassumption.
Qed.

Lemma FormatSQL_avoids {Value : Type} (host : Collaborators Value)
  (f : failure) :
  forall (n : Node Value),
    sound host f n = true -> forall ctx, avoids f (FormatSQL host n ctx).
Proof.
  apply (Node_children_ind
           (fun n => sound host f n = true ->
                     forall ctx, avoids f (FormatSQL host n ctx))).
  intros n IH Hq ctx.
  pose proof (sound_self host f n Hq) as Hself.
  assert (IH' : forall child, In child (children n) ->
                forall ctx, avoids f (FormatSQL host child ctx)).
  { intros child Hc. apply IH; [exact Hc|].
    eapply sound_child; eassumption. }
  clear IH Hq.
  destruct n as [[p|]|[p|]|[p|]|[p|]|[p|]|[p|]|[p|]|[p|]|[p|]|[p|]|[p|]|[p|]
                |[p|]|[p|]|[p|]|[p|]|[p|]|[p|]|[p|]|[p|]|[p|]|[p|]|[p|]
                |[|[p|]]|[|[p|]]|[|[p|]]|[|[p|]]|[p|]|[|[p|]]|[p|]|k u];
    cbn [FormatSQL LiteralNode_FormatSQL ParameterNode_FormatSQL
           ColumnRefNode_FormatSQL TableScanNode_FormatSQL
           WithRefScanNode_FormatSQL OutputColumnNode_FormatSQL
           ArgumentRefNode_FormatSQL];
    try apply avoids_ret;
    cbn [children] in IH';
    destruct f; cbn [raises] in Hself; try discriminate Hself;
    try apply avoids_panic;
    try (apply orb_false_elim in Hself as [Hself Hnil]);
    try (apply negb_false_iff in Hself).
  all: try (repeat autounfold with rules; repeat avoids_step IH'; fail).
  all: unfold AnalyticScanNode_FormatSQL;
    (apply avoids_bind; [apply IH'; apply in_eq|]); intros input;
    (apply avoids_bind; [|intros ?; repeat avoids_step IH']);
    apply avoids_analyticGroups; intros group column ctx' Hg Hcolumn;
    apply IH'; apply in_cons; apply in_flat_map; exists group;
    (split; [exact Hg|]); now apply in_map.
Qed.

(** X7. Only the analytic call creates an error: the translation of a
    tree that holds no analytic function call never returns an error,
    in any context. *)
Theorem error_needs_analytic_call :
  forall (Value : Type) (host : Collaborators Value) (n : Node Value)
         (ctx : Env) (st st' : St) (err : error),
    sound host Failed n = true ->
    FormatSQL host n ctx st <> (Err err, st').
Proof.
  intros Value host n ctx st st' err Hsound Hrun.
  pose proof (FormatSQL_avoids host Failed n Hsound ctx st) as H.
  rewrite Hrun in H. exact H.
Qed.

Lemma error_needs_analytic_call_witness :
  FormatSQL demoHost (UpdateStmtNode (Wrapper (Some updateStmt)))
    (freshEnv [] ∅) (freshSt [])
  <> (Err AnalyticTableNameNotFound, freshSt []).
Proof.
  apply (error_needs_analytic_call string demoHost
           (UpdateStmtNode (Wrapper (Some updateStmt)))).
  vm_compute. reflexivity.
Defined.

(** X8. A tree whose nodes hold their payloads, that refers to no
    table and calls only built-in, non-analytic functions always
    translates to a text: no error and no panic, in any context. *)
Theorem sound_tree_succeeds :
  forall (Value : Type) (host : Collaborators Value) (n : Node Value)
         (ctx : Env) (st : St),
    sound host Failed n = true ->
    sound host Panicked n = true ->
    exists sql, fst (FormatSQL host n ctx st) = Ok sql.
Proof.
  intros Value host n ctx st Hf Hp.
  pose proof (FormatSQL_avoids host Failed n Hf ctx st) as H1.
  pose proof (FormatSQL_avoids host Panicked n Hp ctx st) as H2.
  destruct (fst (FormatSQL host n ctx st)) as [sql|err|];
    [eauto|contradiction|contradiction].
Qed.

Lemma sound_tree_succeeds_witness :
  exists sql,
    fst (FormatSQL demoHost greaterThanZero (freshEnv [] ∅) (freshSt []))
    = Ok sql.
Proof.
  apply (sound_tree_succeeds string demoHost greaterThanZero);
    vm_compute; reflexivity.
Defined.

(** ** Analytic function calls, continued *)

Lemma builtinb_builtin (catalog : gset string) (fullName : string) :
  builtinb catalog fullName = true -> builtin catalog fullName.
Proof.
  unfold builtinb, builtin. intros H.
  apply orb_true_iff in H as [H|H]; [now left|right].
  now apply bool_decide_eq_true in H.
Qed.

Lemma withTableNames_partition (tables : list string) :
  forall ctx,
    analyticPartitionColumnNames (withTableNames ctx tables)
    = analyticPartitionColumnNames ctx.
Proof.
  unfold withTableNames.
  induction tables as [|t tables IH]; intros ctx; cbn [fold_left];
    [reflexivity|now rewrite IH].
Qed.

Lemma afterArguments_partition {Value : Type} (ctx : Env)
  (l : list (Node Value)) :
  analyticPartitionColumnNames (afterArguments ctx l)
  = analyticPartitionColumnNames ctx.
Proof. apply withTableNames_partition. Qed.

Lemma analyticArguments_present {Value : Type} (host : Collaborators Value)
  (l : list (Node Value)) :
  forallb presentColumnRef l = true ->
  forall ctx args st,
    analyticArguments (FormatSQL host) l ctx args st
    = (Ok (afterArguments ctx l, args ++ map argumentText l),
       collectArguments st l).
Proof.
  unfold afterArguments, collectArguments, withTableNames.
  induction l as [|a rest IH]; intros Hall ctx args st;
    cbn [analyticArguments map fold_left].
  - rewrite !app_nil_r. now destruct st.
  - cbn [forallb] in Hall. apply andb_true_iff in Hall as [Ha Hrest].
    destruct a as [| |[t|]| | | | | | | | | | | | | | | | | | | | | | | | | | | |];
      try discriminate.
    cbn [argumentText argumentTable].
    rewrite (bind_Ok _ _ st (quoted (Column_Name t)) st) by reflexivity.
    erewrite bind_Ok by reflexivity.
    rewrite (IH Hrest). cbn [paths idx columnMap values].
    now rewrite <- !app_assoc.
Qed.

(** X9. An analytic call whose arguments are column references takes
    its table from the last of them, and from the enclosing context
    when it has none; when that table name is empty the call fails
    with the error of the missing table name.  The texts of the
    arguments stay in the shared column list all the same. *)
Theorem AnalyticFunctionCall_needs_table :
  forall (Value : Type) (host : Collaborators Value)
         (p : AnalyticFunctionCall (Node Value)) (ctx : Env) (st : St),
    forallb presentColumnRef (AnalyticFunctionCall_ArgumentList p) = true ->
    analyticTableName
      (afterArguments ctx (AnalyticFunctionCall_ArgumentList p)) = "" ->
    FormatSQL host (AnalyticFunctionCallNode (Some p)) ctx st
    = (Err AnalyticTableNameNotFound,
       collectArguments st (AnalyticFunctionCall_ArgumentList p)).
Proof.
  intros Value host p ctx st Hargs Htable.
  cbn [FormatSQL]. unfold AnalyticFunctionCallNode_FormatSQL.
  rewrite (bind_Ok _ _ st (values st) st) by reflexivity.
  rewrite (bind_Ok _ _ _ _ _ (analyticArguments_present host _ Hargs _ _ _)).
  cbv beta iota zeta. now rewrite Htable.
Qed.

Lemma AnalyticFunctionCall_needs_table_witness :
  FormatSQL demoHost
    (AnalyticFunctionCallNode (Some
       {| AnalyticFunctionCall_ArgumentList := [];
          AnalyticFunctionCall_ResultTypeName := "INT64";
          AnalyticFunctionCall_FullName := "rank";
          AnalyticFunctionCall_Distinct := false;
          AnalyticFunctionCall_WindowFrame := None |}))
    (freshEnv [] ∅) (freshSt [])
  = (Err AnalyticTableNameNotFound, freshSt []).
Proof.
  rewrite (AnalyticFunctionCall_needs_table string demoHost);
    reflexivity.
Defined.

(** X10. A built-in analytic call over column references of a named
    table whose window frame starts with an unrecognized boundary
    type, or starts with a boundary without offset and ends with an
    unrecognized one, fails with the error of the unexpected boundary
    type. *)
Theorem AnalyticFunctionCall_rejects_boundary :
  forall (Value : Type) (host : Collaborators Value)
         (p : AnalyticFunctionCall (Node Value)) (ctx : Env) (st : St)
         (frame : WindowFrame (Node Value)) (code : Z),
    forallb presentColumnRef (AnalyticFunctionCall_ArgumentList p) = true ->
    analyticTableName
      (afterArguments ctx (AnalyticFunctionCall_ArgumentList p)) <> "" ->
    builtinb (windowFuncMap host) (AnalyticFunctionCall_FullName p) = true ->
    AnalyticFunctionCall_WindowFrame p = Some frame ->
    WindowFrameExpr_BoundaryType (WindowFrame_StartExpr frame)
    = BoundaryTypeOther code
    \/ (unboundedOrCurrent
          (WindowFrameExpr_BoundaryType (WindowFrame_StartExpr frame)) = true
        /\ WindowFrameExpr_BoundaryType (WindowFrame_EndExpr frame)
           = BoundaryTypeOther code) ->
    FormatSQL host (AnalyticFunctionCallNode (Some p)) ctx st
    = (Err (UnexpectedBoundaryType (BoundaryTypeOther code)),
       collectArguments st (AnalyticFunctionCall_ArgumentList p)).
Proof.
  intros Value host p ctx st frame code Hargs Htable Hb Hframe Hbound.
  cbn [FormatSQL]. unfold AnalyticFunctionCallNode_FormatSQL.
  rewrite (bind_Ok _ _ st (values st) st) by reflexivity.
  rewrite (bind_Ok _ _ _ _ _ (analyticArguments_present host _ Hargs _ _ _)).
  cbv beta iota zeta.
  apply String.eqb_neq in Htable. rewrite Htable.
  rewrite (bind_Ok _ _ _ _ _
             (resolveCallee_builtin _ _ _ _ _ _ _ _ (builtinb_builtin _ _ Hb))).
  cbv beta iota. rewrite Hframe.
  unfold getWindowBoundaryOptionFuncSQL.
  destruct Hbound as [Hs|[Hs He]].
  - rewrite Hs. reflexivity.
  - rewrite He.
    destruct (WindowFrameExpr_BoundaryType (WindowFrame_StartExpr frame));
      try discriminate; reflexivity.
Qed.

Lemma AnalyticFunctionCall_rejects_boundary_witness :
  FormatSQL demoHost
    (AnalyticFunctionCallNode (Some
       (framedCall (Some
          {| WindowFrame_FrameUnit := FrameUnitRows;
             WindowFrame_StartExpr := frameExpr UnboundedPrecedingType;
             WindowFrame_EndExpr := frameExpr (BoundaryTypeOther 9) |}))))
    (freshEnv [] ∅) (freshSt [])
  = (Err (UnexpectedBoundaryType (BoundaryTypeOther 9)),
     {| paths := []; idx := 0; columnMap := ∅; values := ["`x`"] |}).
Proof.
  rewrite (AnalyticFunctionCall_rejects_boundary string demoHost _ _ _
             {| WindowFrame_FrameUnit := FrameUnitRows;
                WindowFrame_StartExpr := frameExpr UnboundedPrecedingType;
                WindowFrame_EndExpr := frameExpr (BoundaryTypeOther 9) |} 9);
    try reflexivity.
  - discriminate.
  - right. split; reflexivity.
Defined.

(** X11. A built-in analytic call over column references of a named
    table, without a frame or with a frame between boundaries that
    carry no offset, translates to a correlated subquery over the
    table of its last argument.  The callee takes, in this order: the
    arguments, the [DISTINCT] marker, one partition option per
    partition column of the context, one order option per column that
    the shared list held when the call was entered (the call's own
    arguments are not among them), the frame options and the row-id
    option. *)
Theorem AnalyticFunctionCall_subquery :
  forall (Value : Type) (host : Collaborators Value)
         (p : AnalyticFunctionCall (Node Value)) (ctx : Env) (st : St),
    forallb presentColumnRef (AnalyticFunctionCall_ArgumentList p) = true ->
    analyticTableName
      (afterArguments ctx (AnalyticFunctionCall_ArgumentList p)) <> "" ->
    builtinb (windowFuncMap host) (AnalyticFunctionCall_FullName p) = true ->
    plainFrame (AnalyticFunctionCall_WindowFrame p) = true ->
    FormatSQL host (AnalyticFunctionCallNode (Some p)) ctx st
    = (Ok ("( SELECT "
           +:+ callSQL
                 (mangledName "zetasqlite_window_"
                    (bareName (AnalyticFunctionCall_FullName p))
                    (resultTypeFamily (unicodeToLower host)
                       (AnalyticFunctionCall_ResultTypeName p)))
                 ((((map argumentText (AnalyticFunctionCall_ArgumentList p)
                     ++ distinctOptions (AnalyticFunctionCall_Distinct p))
                    ++ map (getWindowPartitionOptionFuncSQL host)
                         (analyticPartitionColumnNames ctx))
                   ++ map (getWindowOrderByOptionFuncSQL host) (values st))
                  ++ frameOptions host (AnalyticFunctionCall_WindowFrame p)
                  ++ [getWindowRowIDOptionFuncSQL host])
           +:+ " FROM "
           +:+ analyticTableName
                 (afterArguments ctx (AnalyticFunctionCall_ArgumentList p))
           +:+ " )"),
       collectArguments st (AnalyticFunctionCall_ArgumentList p)).
Proof.
  intros Value host p ctx st Hargs Htable Hb Hframe.
  cbn [FormatSQL]. unfold AnalyticFunctionCallNode_FormatSQL.
  rewrite (bind_Ok _ _ st (values st) st) by reflexivity.
  rewrite (bind_Ok _ _ _ _ _ (analyticArguments_present host _ Hargs _ _ _)).
  cbv beta iota zeta.
  apply String.eqb_neq in Htable. rewrite Htable.
  rewrite (bind_Ok _ _ _ _ _
             (resolveCallee_builtin _ _ _ _ _ _ _ _ (builtinb_builtin _ _ Hb))).
  cbv beta iota. rewrite afterArguments_partition. cbn [app].
  unfold plainFrame, frameOptions, distinctOptions in *.
  destruct (AnalyticFunctionCall_WindowFrame p) as [frame|].
  - apply andb_true_iff in Hframe as [Hs He].
    unfold getWindowBoundaryOptionFuncSQL.
    destruct (WindowFrameExpr_BoundaryType (WindowFrame_StartExpr frame));
      try discriminate;
      destruct (WindowFrameExpr_BoundaryType (WindowFrame_EndExpr frame));
      try discriminate;
      cbv [bind ret]; cbn [app]; rewrite <- !app_assoc; reflexivity.
  - cbv [bind ret]. cbn [app]. rewrite ?app_nil_r. reflexivity.
Qed.

Lemma AnalyticFunctionCall_subquery_witness :
  fst (FormatSQL demoHost (AnalyticFunctionCallNode (Some (framedCall None)))
         (withAnalyticPartitionColumnNames (freshEnv [] ∅) ["`y`"])
         {| paths := []; idx := 0; columnMap := ∅; values := ["`y`"] |})
  = Ok ("( SELECT zetasqlite_window_sum_int64(`x`,"
        +:+ "zetasqlite_distinct_string(),"
        +:+ "zetasqlite_window_partition_string(`y`),"
        +:+ "zetasqlite_window_order_by_string(`y`),"
        +:+ "zetasqlite_window_rowid_string(`rowid`)) FROM t )").
Proof.
  rewrite (AnalyticFunctionCall_subquery string demoHost);
    try reflexivity.
  discriminate.
Defined.

(** ** Calls of functions that are not built in *)

Lemma resolveCallee_user (lower : string -> string)
  (prefix : string) (catalog : gset string)
  (typeName fullName : string) (args : list string) (ctx : Env) (st : St)
  (path : list string) :
  builtinb catalog fullName = false ->
  paths st !! idx st = Some path ->
  resolveCallee lower prefix catalog typeName fullName args ctx st
  = (Ok (match funcMap ctx !! FormatName (MergeNamePath (namePath ctx) path)
         with
         | Some spec =>
             Inlined ("( " +:+ inlineBody (FunctionSpec_Body spec) args
                        +:+ " )")
         | None =>
             CalleeName (FormatName (MergeNamePath (namePath ctx) path))
         end), advance st).
Proof.
  intros Hb Hpath. unfold builtinb in Hb.
  apply orb_false_elim in Hb as [H1 H2]. apply bool_decide_eq_false in H2.
  unfold resolveCallee. rewrite H1.
  destruct (decide (fullName ∈ catalog)); [contradiction|].
  assert (Hname : resolveName ctx st
                  = (Ok (FormatName (MergeNamePath (namePath ctx) path)),
                     advance st)).
  { unfold resolveName. now rewrite Hpath. }
  rewrite (bind_Ok _ _ _ _ _ Hname).
  now destruct (funcMap ctx !! _).
Qed.

Lemma placeholderFree_Forall (args : list string) :
  forallb placeholderFree args = true ->
  Forall (fun arg => Strings.contains "?"%char arg = false) args.
Proof.
  induction args as [|arg args IH]; intros H; [constructor|].
  cbn [forallb] in H. apply andb_true_iff in H as [Ha Hrest].
  constructor; [|now apply IH].
  unfold placeholderFree in Ha. now apply negb_true_iff in Ha.
Qed.

(** X12. A call of a function that is not built in reads its name
    from the cursor after its arguments are translated, merged with
    the name path of the context and flattened, and moves the cursor
    by one.  When the context registers a function under that name and
    no argument text holds a placeholder, the call is the registered
    body in parentheses with the arguments in place of its
    placeholders, from left to right; when none is registered, it is a
    call by the flattened name, which is not mangled with the result
    type. *)
Theorem FunctionCall_user_defined :
  forall (Value : Type) (host : Collaborators Value)
         (p : FunctionCall (Node Value)) (ctx : Env) (st st1 : St)
         (args path : list string),
    builtinb (normalFuncMap host) (FunctionCall_FullName p) = false ->
    forM (fun a => FormatSQL host a ctx) (FunctionCall_ArgumentList p) st
    = (Ok args, st1) ->
    paths st1 !! idx st1 = Some path ->
    forallb placeholderFree args = true ->
    FormatSQL host (FunctionCallNode (Some p)) ctx st
    = (Ok (userCallSQL ctx
             (FormatName (MergeNamePath (namePath ctx) path)) args),
       advance st1).
Proof.
  intros Value host p ctx st st1 args path Hb Hargs Hpath Hfree.
  cbn [FormatSQL]. unfold FunctionCallNode_FormatSQL.
  rewrite (bind_Ok _ _ _ _ _ Hargs).
  rewrite (bind_Ok _ _ _ _ _
             (resolveCallee_user _ _ _ _ _ _ _ _ _ Hb Hpath)).
  unfold userCallSQL.
  destruct (funcMap ctx !! _); [|reflexivity].
  now rewrite (inlineBody_positional _ _ (placeholderFree_Forall _ Hfree)).
Qed.

Lemma FunctionCall_user_defined_witness :
  FormatSQL demoHost (callPlus [columnRef "x" "t"; columnRef "y" "t"])
    (freshEnv [] plusSpec) (freshSt [["f"]])
  = (Ok "( `x` + `y` )", advance (freshSt [["f"]])) /\
  FormatSQL demoHost (callPlus [columnRef "x" "t"; columnRef "y" "t"])
    (freshEnv ["p"] ∅) (freshSt [["g"]])
  = (Ok "p_g(`x`,`y`)", advance (freshSt [["g"]])).
Proof.
  split.
  - unfold callPlus.
    rewrite (FunctionCall_user_defined string demoHost _ _ _
               (freshSt [["f"]]) ["`x`"; "`y`"] ["f"]);
      reflexivity.
  - unfold callPlus.
    rewrite (FunctionCall_user_defined string demoHost _ _ _
               (freshSt [["g"]]) ["`x`"; "`y`"] ["g"]);
      reflexivity.
Defined.

(** X13. An aggregate call of a function that the context registers
    is the registered body with the arguments filled in, and nothing
    else: the [ORDER BY] items, the [DISTINCT] marker and the [LIMIT]
    of the call leave no trace in the text, and the limit expression
    is not even translated, so the context is the one after the
    arguments with the cursor moved by one. *)
Theorem AggregateFunctionCall_inlined_drops_modifiers :
  forall (Value : Type) (host : Collaborators Value)
         (p : AggregateFunctionCall (Node Value)) (ctx : Env) (st st1 : St)
         (args path : list string) (spec : FunctionSpec),
    builtinb (aggregateFuncMap host) (AggregateFunctionCall_FullName p)
    = false ->
    forM (fun a => FormatSQL host a ctx)
      (AggregateFunctionCall_ArgumentList p) st
    = (Ok args, st1) ->
    paths st1 !! idx st1 = Some path ->
    funcMap ctx !! FormatName (MergeNamePath (namePath ctx) path)
    = Some spec ->
    FormatSQL host (AggregateFunctionCallNode (Some p)) ctx st
    = (Ok ("( " +:+ inlineBody (FunctionSpec_Body spec) args +:+ " )"),
       advance st1).
Proof.
  intros Value host p ctx st st1 args path spec Hb Hargs Hpath Hspec.
  cbn [FormatSQL]. unfold AggregateFunctionCallNode_FormatSQL.
  rewrite (bind_Ok _ _ _ _ _ Hargs).
  rewrite (bind_Ok _ _ _ _ _
             (resolveCallee_user _ _ _ _ _ _ _ _ _ Hb Hpath)).
  now rewrite Hspec.
Qed.

Lemma AggregateFunctionCall_inlined_drops_modifiers_witness :
  FormatSQL demoHost (AggregateFunctionCallNode (Some userAggregate))
    (freshEnv [] {[ "f" := {| FunctionSpec_Body := "my_sum(?)" |} ]})
    (freshSt [["f"]; ["t"]])
  = (Ok "( my_sum(`x`) )", advance (freshSt [["f"]; ["t"]])).
Proof.
  rewrite (AggregateFunctionCall_inlined_drops_modifiers string demoHost _ _ _
             (freshSt [["f"]; ["t"]]) ["`x`"] ["f"]
             {| FunctionSpec_Body := "my_sum(?)" |});
    reflexivity.
Defined.

(** ** Filling the body of a user-defined function *)

Lemma contains_append (c : ascii) (s t : string) :
  Strings.contains c (s +:+ t)
  = (Strings.contains c s || Strings.contains c t)%bool.
Proof.
  induction s as [|a s IH]; [reflexivity|].
  change (String a s +:+ t) with (String a (s +:+ t)).
  cbn [Strings.contains]. now rewrite IH, orb_assoc.
Qed.

Lemma ReplaceFirst_absent (s new : string) :
  Strings.contains "?"%char s = false ->
  Strings.ReplaceFirst s "?"%char new = s.
Proof.
  induction s as [|a s IH]; intros H; [reflexivity|].
  cbn [Strings.contains] in H. apply orb_false_elim in H as [Ha Hs].
  cbn [Strings.ReplaceFirst]. rewrite Ha. now rewrite (IH Hs).
Qed.

Lemma inlineBody_absent (args : list string) (body : string) :
  Strings.contains "?"%char body = false -> inlineBody body args = body.
Proof.
  unfold inlineBody. induction args as [|arg args IH]; intros H;
    cbn [fold_left]; [reflexivity|].
  rewrite (ReplaceFirst_absent _ _ H). now apply IH.
Qed.

Lemma substitutePlaceholders_filled (body : string) :
  forall args,
    forallb placeholderFree args = true ->
    placeholders body <= length args ->
    Strings.contains "?"%char (substitutePlaceholders body args) = false.
Proof.
  induction body as [|c body IH]; intros args Hfree Hn; [reflexivity|].
  cbn [substitutePlaceholders placeholders] in *.
  destruct (Ascii.eqb c "?"%char) eqn:E.
  - destruct args as [|arg args]; [cbn [length] in Hn; lia|].
    cbn [forallb length] in *. apply andb_true_iff in Hfree as [Ha Hrest].
    rewrite contains_append. apply orb_false_intro.
    + unfold placeholderFree in Ha. now apply negb_true_iff in Ha.
    + apply IH; [exact Hrest|lia].
  - cbn [Strings.contains]. rewrite E. cbn [orb]. apply IH; [exact Hfree|lia].
Qed.

(** X14. When the arguments hold no placeholder of their own and are
    at least as many as the placeholders of the body, the inlined body
    holds no placeholder any more and the arguments in surplus are
    dropped, whatever they are. *)
Theorem inlineBody_drops_surplus :
  forall (body : string) (args surplus : list string),
    forallb placeholderFree args = true ->
    placeholders body <= length args ->
    inlineBody body (args ++ surplus) = substitutePlaceholders body args /\
    Strings.contains "?"%char (inlineBody body (args ++ surplus)) = false.
Proof.
  intros body args surplus Hfree Hn.
  pose proof (substitutePlaceholders_filled body args Hfree Hn) as Hfilled.
  assert (H : inlineBody body (args ++ surplus)
              = substitutePlaceholders body args).
  { unfold inlineBody. rewrite fold_left_app.
    fold (inlineBody body args).
    fold (inlineBody (inlineBody body args) surplus).
    rewrite (inlineBody_positional _ _ (placeholderFree_Forall _ Hfree)).
    now apply inlineBody_absent. }
  split; [exact H|]. now rewrite H.
Qed.

Lemma inlineBody_drops_surplus_witness :
  inlineBody "? + ?" (["1"; "2"] ++ ["?"; "3"]) = "1 + 2".
Proof.
  refine (proj1 (inlineBody_drops_surplus "? + ?" ["1"; "2"] ["?"; "3"] _ _)).
  - reflexivity.
  - cbn. lia.
Defined.

(** ** Columns of a projection *)

(** X15. Whatever a project scan finds in the column-expression map,
    when it succeeds no column it declares has an entry left: the
    entries of the declared columns do not reach the enclosing
    scans. *)
Theorem ProjectScan_declared_columns_leave_map :
  forall (Value : Type) (host : Collaborators Value)
         (p : ProjectScan (Node Value)) (ctx : Env) (st st' : St)
         (sql : string) (col : Column),
    FormatSQL host (ProjectScanNode (Some p)) ctx st = (Ok sql, st') ->
    In col (ProjectScan_ColumnList p) ->
    columnMap st' !! Column_Name col = None.
Proof.
  intros Value host p ctx st st' sql col Hrun Hin.
  cbn [FormatSQL] in Hrun. unfold ProjectScanNode_FormatSQL in Hrun.
  apply bind_Ok_inv in Hrun as (queries & st1 & _ & Hrun).
  apply bind_Ok_inv in Hrun as (input & st2 & _ & Hrun).
  apply bind_Ok_inv in Hrun as (m & st3 & Hget & Hrun).
  injection Hget as <- <-.
  pose proof (proj1 (projectColumns_rest (ProjectScan_ColumnList p)
                       (columnMap st2) (Column_Name col))
                (in_map Column_Name _ _ Hin)) as Hnone.
  destruct (projectColumns (ProjectScan_ColumnList p) (columnMap st2))
    as [columns m'].
  apply bind_Ok_inv in Hrun as (u & st4 & Hput & Hrun).
  injection Hput as _ <-. injection Hrun as _ <-. exact Hnone.
Qed.

Lemma ProjectScan_declared_columns_leave_map_witness :
  columnMap (advance (freshSt [["t"]])) !! "a" = None.
Proof.
  apply (ProjectScan_declared_columns_leave_map string demoHost
           projectSameName (freshEnv [] ∅) (freshSt [["t"]])
           (advance (freshSt [["t"]]))
           "SELECT zetasqlite_add_int64(`x`,2) AS `a`,`a` FROM `t`"
           (column "a" "$query")).
  - vm_compute. reflexivity.
  - left. reflexivity.
Defined.

(** X16. An output column reads back what a computed column of its
    name wrote: straight after a computed column is translated, the
    output column of the same name translates to the same text, the
    expression with its alias, and, unlike a project scan, leaves the
    entry in the map. *)
Theorem OutputColumn_reads_computed_column :
  forall (Value : Type) (host : Collaborators Value)
         (c : ComputedColumn (Node Value)) (ctx ctx' : Env) (st st1 : St)
         (sql : string),
    FormatSQL host (ComputedColumnNode (Some c)) ctx st = (Ok sql, st1) ->
    FormatSQL host (OutputColumnNode (Some (outputOf c))) ctx' st1
    = (Ok sql, st1) /\
    exists expr,
      sql = expr +:+ " AS " +:+ quoted (computedName c).
Proof.
  intros Value host c ctx ctx' st st1 sql Hrun.
  cbn [FormatSQL] in Hrun. unfold ComputedColumnNode_FormatSQL in Hrun.
  apply bind_Ok_inv in Hrun as (expr & st2 & _ & Hrun).
  apply bind_Ok_inv in Hrun as (u & st3 & Hset & Hrun).
  injection Hset as _ <-. injection Hrun as <- <-.
  split; [|now exists expr].
  cbn [FormatSQL]. unfold OutputColumnNode_FormatSQL, outputOf, computedName.
  cbn [OutputColumn_Name]. unfold bind, getColumnMap. cbn [columnMap].
  now rewrite lookup_insert_eq.
Qed.

Lemma OutputColumn_reads_computed_column_witness :
  FormatSQL demoHost (OutputColumnNode (Some (outputOf (plusOne "y"))))
    (freshEnv [] ∅)
    (snd (FormatSQL demoHost (ComputedColumnNode (Some (plusOne "y")))
            (freshEnv [] ∅) (freshSt [])))
  = (Ok "zetasqlite_add_int64(`x`,1) AS `y`",
     snd (FormatSQL demoHost (ComputedColumnNode (Some (plusOne "y")))
            (freshEnv [] ∅) (freshSt []))).
Proof.
  refine (proj1 (OutputColumn_reads_computed_column string demoHost
                   (plusOne "y") (freshEnv [] ∅) (freshEnv [] ∅)
                   (freshSt []) _ _ _)).
  vm_compute. reflexivity.
Defined.

(** ** Nodes with nothing to translate *)

(** X17. A node with nothing to translate (a payload that is absent
    where the method tests it, a nil receiver of a DML method, or a
    kind whose method is the empty one) translates to the empty text
    without an error, and the context is left as it was. *)
Theorem nothing_to_translate_is_empty :
  forall (Value : Type) (host : Collaborators Value) (n : Node Value)
         (ctx : Env) (st : St),
    nothingToTranslate n = true ->
    FormatSQL host n ctx st = (Ok "", st).
Proof.
  intros Value host n ctx st H. unfold nothingToTranslate in H.
  apply orb_true_iff in H as [H|H];
    [apply orb_true_iff in H as [H|H]|].
  - apply andb_true_iff in H as [Habsent Htests].
    apply negb_true_iff in Htests.
    now apply absent_payload_empty.
  - destruct n as [| | | | | | | | | | | | | | | | | | | | | | |[|]|[|]|[|]
                  |[|]| |[|]| |]; try discriminate H; reflexivity.
  - destruct n; try discriminate H; reflexivity.
Qed.

Lemma nothing_to_translate_is_empty_witness :
  FormatSQL demoHost (EmptyNode CreateTableStmtNode (Some tt)) (freshEnv [] ∅)
    (freshSt [["t"]])
  = (Ok "", freshSt [["t"]]) /\
  FormatSQL demoHost (FilterScanNode None) (freshEnv [] ∅) (freshSt [["t"]])
  = (Ok "", freshSt [["t"]]) /\
  FormatSQL demoHost (DeleteStmtNode NilReceiver) (freshEnv [] ∅)
    (freshSt [["t"]])
  = (Ok "", freshSt [["t"]]).
Proof.
  split; [|split];
    apply (nothing_to_translate_is_empty string demoHost); reflexivity.
Defined.

(** ** Expressions that do not depend on the context *)

Lemma constant_ret {A : Type} (a : A) : constant (ret a).
Proof. now exists (Ok a). Qed.

Lemma constant_panic {A : Type} : constant (@panic A).
Proof. now exists Panic. Qed.

Lemma constant_bind {A B : Type} (m : M A) (k : A -> M B) :
  constant m -> (forall a, constant (k a)) -> constant (bind m k).
Proof.
  intros [[a|err|] Hr] Hk.
  - destruct (Hk a) as [r' Hr']. exists r'. intros st.
    unfold bind. rewrite Hr. apply Hr'.
  - exists (Err err). intros st. unfold bind. now rewrite Hr.
  - exists Panic. intros st. unfold bind. now rewrite Hr.
Qed.

Lemma constant_forM {A B : Type} (g : A -> M B) (l : list A) :
  (forall a, In a l -> constant (g a)) -> constant (forM g l).
Proof.
  induction l as [|a l IH]; intros Hg; cbn [forM].
  - apply constant_ret.
  - apply constant_bind; [apply Hg; now left|]. intros b.
    apply constant_bind; [|intros bs; apply constant_ret].
    apply IH. intros a' Ha'. apply Hg. now right.
Qed.

Lemma constant_resolveCallee (lower : string -> string)
  (prefix : string) (catalog : gset string)
  (typeName fullName : string) (args : list string) (ctx : Env) :
  builtinb catalog fullName = true ->
  constant (resolveCallee lower prefix catalog typeName fullName args ctx).
Proof.
  intros Hb. eexists. intros st.
  apply resolveCallee_builtin. now apply builtinb_builtin.
Qed.

Ltac constant_step IH :=
  match goal with
  | |- _ => progress cbv beta iota
  | |- constant (ret _) => apply constant_ret
  | |- constant panic => apply constant_panic
  | |- constant (FormatSQL _ _ _) => apply IH; solve_child
  | |- constant (bind _ _) => apply constant_bind; [|intros ?]
  | |- constant (forM _ _) => apply constant_forM; intros ? ?
  | |- constant (resolveCallee _ _ _ _ _ _ _) =>
      apply constant_resolveCallee; assumption
  | |- constant (if ?b then _ else _) => destruct b
  | |- constant (match ?x with _ => _ end) =>
      let E := fresh "E" in
      destruct x eqn:E; try rewrite E in *; try discriminate
  end.

Lemma stateless_self {Value : Type} (host : Collaborators Value)
  (n : Node Value) :
  stateless host n = true -> touches host n = false.
Proof.
  unfold stateless. rewrite forallb_forall. intros H.
  apply negb_true_iff. apply H. apply subnodes_self.
Qed.

Lemma stateless_child {Value : Type} (host : Collaborators Value)
  (n child : Node Value) :
  stateless host n = true -> In child (children n) ->
  stateless host child = true.
Proof.
  unfold stateless. rewrite !forallb_forall. intros H Hc m Hm.
  apply H. eapply subnodes_child; eassumption.
Qed.

Lemma FormatSQL_constant {Value : Type} (host : Collaborators Value) :
  forall (n : Node Value),
    stateless host n = true -> forall ctx, constant (FormatSQL host n ctx).
Proof.
  apply (Node_children_ind
           (fun n => stateless host n = true ->
                     forall ctx, constant (FormatSQL host n ctx))).
  intros n IH Hq ctx.
  pose proof (stateless_self host n Hq) as Hself.
  assert (IH' : forall child, In child (children n) ->
                forall ctx, constant (FormatSQL host child ctx)).
  { intros child Hc. apply IH; [exact Hc|].
    eapply stateless_child; eassumption. }
  clear IH Hq.
  destruct n as [[p|]|[p|]|[p|]|[p|]|[p|]|[p|]|[p|]|[p|]|[p|]|[p|]|[p|]|[p|]
                |[p|]|[p|]|[p|]|[p|]|[p|]|[p|]|[p|]|[p|]|[p|]|[p|]|[p|]
                |[|[p|]]|[|[p|]]|[|[p|]]|[|[p|]]|[p|]|[|[p|]]|[p|]|k u];
    cbn [FormatSQL LiteralNode_FormatSQL ParameterNode_FormatSQL
           ColumnRefNode_FormatSQL TableScanNode_FormatSQL
           WithRefScanNode_FormatSQL OutputColumnNode_FormatSQL
           ArgumentRefNode_FormatSQL];
    try apply constant_ret; try apply constant_panic;
    cbn [children] in IH';
    cbn [touches] in Hself; try discriminate Hself;
    try (apply negb_false_iff in Hself).
  all: repeat autounfold with rules; repeat constant_step IH'.
Qed.

Lemma agree_bind {A B : Type} (m m' : M A) (k k' : A -> M B) :
  agree m m' -> (forall a, agree (k a) (k' a)) ->
  agree (bind m k) (bind m' k').
Proof.
  intros Hm Hk st. unfold bind. rewrite (Hm st).
  destruct (m' st) as [[a|err|] st1]; [apply Hk|reflexivity..].
Qed.

Lemma agree_forM {A B : Type} (g g' : A -> M B) (l : list A) :
  (forall a, In a l -> agree (g a) (g' a)) -> agree (forM g l) (forM g' l).
Proof.
  induction l as [|a l IH]; intros Hg; cbn [forM].
  - intros st. reflexivity.
  - apply agree_bind; [apply Hg; now left|]. intros b.
    apply agree_bind; [|intros bs st; reflexivity].
    apply IH. intros a' Ha'. apply Hg. now right.
Qed.

Lemma agree_resolveCallee (lower : string -> string)
  (prefix : string) (catalog : gset string)
  (typeName fullName : string) (args : list string) (ctx ctx' : Env) :
  builtinb catalog fullName = true ->
  agree (resolveCallee lower prefix catalog typeName fullName args ctx)
    (resolveCallee lower prefix catalog typeName fullName args ctx').
Proof.
  intros Hb st. apply builtinb_builtin in Hb.
  now rewrite !(resolveCallee_builtin _ _ _ _ _ _ _ _ Hb).
Qed.

Ltac agree_step IH :=
  match goal with
  | |- _ => progress cbv beta iota
  | |- agree (ret _) (ret _) => intros ?; reflexivity
  | |- agree panic panic => intros ?; reflexivity
  | |- agree (FormatSQL _ _ _) (FormatSQL _ _ _) => apply IH; solve_child
  | |- agree (bind _ _) (bind _ _) => apply agree_bind; [|intros ?]
  | |- agree (forM _ _) (forM _ _) => apply agree_forM; intros ? ?
  | |- agree (resolveCallee _ _ _ _ _ _ _) (resolveCallee _ _ _ _ _ _ _) =>
      apply agree_resolveCallee; assumption
  | |- agree (if ?b then _ else _) (if ?b then _ else _) => destruct b
  | |- agree (match ?x with _ => _ end) (match ?x with _ => _ end) =>
      let E := fresh "E" in
      destruct x eqn:E; try rewrite E in *; try discriminate
  end.

Lemma FormatSQL_agree {Value : Type} (host : Collaborators Value) :
  forall (n : Node Value),
    stateless host n = true ->
    forall ctx ctx', agree (FormatSQL host n ctx) (FormatSQL host n ctx').
Proof.
  apply (Node_children_ind
           (fun n => stateless host n = true ->
                     forall ctx ctx',
                       agree (FormatSQL host n ctx) (FormatSQL host n ctx'))).
  intros n IH Hq ctx ctx'.
  pose proof (stateless_self host n Hq) as Hself.
  assert (IH' : forall child, In child (children n) ->
                forall ctx ctx',
                  agree (FormatSQL host child ctx)
                    (FormatSQL host child ctx')).
  { intros child Hc. apply IH; [exact Hc|].
    eapply stateless_child; eassumption. }
  clear IH Hq.
  destruct n as [[p|]|[p|]|[p|]|[p|]|[p|]|[p|]|[p|]|[p|]|[p|]|[p|]|[p|]|[p|]
                |[p|]|[p|]|[p|]|[p|]|[p|]|[p|]|[p|]|[p|]|[p|]|[p|]|[p|]
                |[|[p|]]|[|[p|]]|[|[p|]]|[|[p|]]|[p|]|[|[p|]]|[p|]|k u];
    cbn [FormatSQL LiteralNode_FormatSQL ParameterNode_FormatSQL
           ColumnRefNode_FormatSQL TableScanNode_FormatSQL
           WithRefScanNode_FormatSQL OutputColumnNode_FormatSQL
           ArgumentRefNode_FormatSQL];
    try (intros ?; reflexivity);
    cbn [children] in IH';
    cbn [touches] in Hself; try discriminate Hself;
    try (apply negb_false_iff in Hself).
  all: repeat autounfold with rules; repeat agree_step IH'.
Qed.

(** X18. A tree without table scans and statements, calls of functions
    that are not built in, analytic nodes, projections and computed or
    output columns is translated to the same result in every context
    (whatever the name path, the registered functions and the state of
    the cursor, the map and the column list) and leaves the state as
    it is: the text of such an expression depends on the tree
    alone. *)
Theorem stateless_tree_same_everywhere :
  forall (Value : Type) (host : Collaborators Value) (n : Node Value)
         (ctx ctx' : Env) (st st' : St),
    stateless host n = true ->
    FormatSQL host n ctx' st' = (fst (FormatSQL host n ctx st), st').
Proof.
  intros Value host n ctx ctx' st st' Hn.
  destruct (FormatSQL_constant host n Hn ctx) as [r Hr].
  now rewrite (FormatSQL_agree host n Hn ctx' ctx st'), (Hr st), (Hr st').
Qed.

Lemma stateless_tree_same_everywhere_witness :
  FormatSQL demoHost greaterThanZero (freshEnv ["p"] plusSpec)
    {| paths := [["t"]]; idx := 1; columnMap := {[ "y" := "1 AS `y`" ]};
       values := ["`y`"] |}
  = (fst (FormatSQL demoHost greaterThanZero (freshEnv [] ∅) (freshSt [])),
     {| paths := [["t"]]; idx := 1; columnMap := {[ "y" := "1 AS `y`" ]};
        values := ["`y`"] |}).
Proof.
  apply (stateless_tree_same_everywhere string demoHost greaterThanZero).
  vm_compute. reflexivity.
Defined.

(** ** Enough paths for every reference *)

Lemma within_weaken {A : Type} (k k' : nat) (m : M A) :
  within k m -> k <= k' -> within k' m.
Proof.
  intros H Hle st. destruct (H st) as (Hp & Hi & Hs).
  split; [exact Hp|]. split; [lia|]. intros Hb. apply Hs. lia.
Qed.

Lemma within_ret {A : Type} (a : A) : within 0 (ret a).
Proof. intros st. cbn. split; [reflexivity|]. split; [lia|auto]. Qed.

Lemma within_fail {A : Type} (err : error) : within 0 (@fail A err).
Proof. intros st. cbn. split; [reflexivity|]. split; [lia|auto]. Qed.

Lemma within_bind {A B : Type} (k1 k2 : nat) (m : M A) (k : A -> M B) :
  within k1 m -> (forall a, within k2 (k a)) -> within (k1 + k2) (bind m k).
Proof.
  intros Hm Hk st. unfold bind. destruct (Hm st) as (Hp & Hi & Hs).
  destruct (m st) as [[a|err|] st1]; cbn [fst snd] in *.
  - destruct (Hk a st1) as (Hp' & Hi' & Hs').
    split; [congruence|]. split; [lia|].
    intros Hb. apply Hs'. rewrite Hp. lia.
  - split; [exact Hp|]. split; [lia|]. intros _. exact I.
  - split; [exact Hp|]. split; [lia|]. intros Hb. apply Hs. lia.
Qed.

Lemma within_forM {A B : Type} (w : A -> nat) (g : A -> M B) (l : list A) :
  (forall a, In a l -> within (w a) (g a)) ->
  within (list_sum (map w l)) (forM g l).
Proof.
  induction l as [|a l IH]; intros Hg; cbn [forM].
  - apply within_ret.
  - change (list_sum (map w (a :: l))) with (w a + list_sum (map w l)).
    apply within_bind; [apply Hg; now left|]. intros b.
    apply (within_weaken (list_sum (map w l) + 0)); [|lia].
    apply within_bind; [|intros bs; apply within_ret].
    apply IH. intros a' Ha'. apply Hg. now right.
Qed.

Lemma within_resolveName (ctx : Env) : within 1 (resolveName ctx).
Proof.
  intros st. unfold resolveName.
  destruct (paths st !! idx st) as [path|] eqn:E; cbn [fst snd advance paths idx].
  - split; [reflexivity|]. split; [lia|]. intros _. exact I.
  - split; [reflexivity|]. split; [lia|]. intros Hb.
    apply lookup_ge_None_1 in E. lia.
Qed.

Lemma within_resolveCallee (lower : string -> string)
  (prefix : string) (catalog : gset string)
  (typeName fullName : string) (args : list string) (ctx : Env) :
  within (if builtinb catalog fullName then 0 else 1)
    (resolveCallee lower prefix catalog typeName fullName args ctx).
Proof.
  unfold resolveCallee, builtinb.
  destruct (Strings.HasPrefix fullName "$"); [apply within_ret|].
  cbn [orb].
  destruct (decide (fullName ∈ catalog)) as [Hin|Hin].
  - rewrite (bool_decide_eq_true_2 _ Hin). apply within_ret.
  - rewrite (bool_decide_eq_false_2 _ Hin).
    apply (within_weaken (1 + 0)); [|lia].
    apply within_bind; [apply within_resolveName|]. intros funcName.
    destruct (funcMap ctx !! funcName); apply within_ret.
Qed.

Lemma filter_flat_map_subnodes {Value : Type} (host : Collaborators Value)
  (l : list (Node Value)) :
  length (List.filter (writes host Cursor) (flat_map subnodes l))
  = total host l.
Proof.
  unfold total, references.
  induction l as [|a l IH]; [reflexivity|].
  cbn [flat_map].
  change (list_sum (map (fun n => length (List.filter (writes host Cursor)
                                        (subnodes n))) (a :: l)))
    with (length (List.filter (writes host Cursor) (subnodes a))
          + list_sum (map (fun n => length (List.filter (writes host Cursor)
                                              (subnodes n))) l)).
  now rewrite List.filter_app, List.length_app, IH.
Qed.

Lemma references_children {Value : Type} (host : Collaborators Value)
  (n : Node Value) :
  references host n
  = (if writes host Cursor n then 1 else 0) + total host (children n).
Proof.
  unfold references at 1. rewrite subnodes_children.
  cbn [List.filter].
  destruct (writes host Cursor n); cbn [length];
    now rewrite filter_flat_map_subnodes.
Qed.

Lemma total_nil {Value : Type} (host : Collaborators Value) :
  total host [] = 0.
Proof. reflexivity. Qed.

Lemma total_cons {Value : Type} (host : Collaborators Value)
  (a : Node Value) (l : list (Node Value)) :
  total host (a :: l) = references host a + total host l.
Proof. reflexivity. Qed.

Lemma total_app {Value : Type} (host : Collaborators Value)
  (l1 l2 : list (Node Value)) :
  total host (l1 ++ l2) = total host l1 + total host l2.
Proof.
  induction l1 as [|a l1 IH]; [reflexivity|].
  change ((a :: l1) ++ l2) with (a :: (l1 ++ l2)).
  rewrite !total_cons, IH. lia.
Qed.

Lemma total_map {Value A : Type} (host : Collaborators Value)
  (f : A -> Node Value) (l : list A) :
  total host (map f l) = list_sum (map (fun a => references host (f a)) l).
Proof. unfold total. now rewrite map_map. Qed.

Lemma total_flat_map {Value A : Type} (host : Collaborators Value)
  (f : A -> list (Node Value)) (l : list A) :
  total host (flat_map f l) = list_sum (map (fun a => total host (f a)) l).
Proof.
  induction l as [|a l IH]; [reflexivity|].
  cbn [flat_map]. rewrite total_app, IH. reflexivity.
Qed.

Lemma list_sum_le {A : Type} (f g : A -> nat) (l : list A) :
  (forall a, In a l -> f a <= g a) ->
  list_sum (map f l) <= list_sum (map g l).
Proof.
  induction l as [|a l IH]; intros H; [reflexivity|].
  change (f a + list_sum (map f l) <= g a + list_sum (map g l)).
  pose proof (H a (or_introl eq_refl)).
  assert (list_sum (map f l) <= list_sum (map g l)).
  { apply IH. intros a' Ha'. apply H. now right. }
  lia.
Qed.

Lemma wellFormed_self {Value : Type} (n : Node Value) :
  wellFormed n = true -> dereferencesNil n = false.
Proof.
  unfold wellFormed. rewrite forallb_forall. intros H.
  apply negb_true_iff. apply H. apply subnodes_self.
Qed.

Lemma wellFormed_child {Value : Type} (n child : Node Value) :
  wellFormed n = true -> In child (children n) -> wellFormed child = true.
Proof.
  unfold wellFormed. rewrite !forallb_forall. intros H Hc m Hm.
  apply H. eapply subnodes_child; eassumption.
Qed.

Lemma list_sum_zero {A : Type} (l : list A) :
  list_sum (map (fun _ => 0) l) = 0.
Proof. induction l as [|a l IH]; [reflexivity|exact IH]. Qed.

Lemma within_bind_l {A B : Type} (k2 : nat) (m : M A) (k : A -> M B) :
  within 0 m -> (forall a, within k2 (k a)) -> within k2 (bind m k).
Proof. intros Hm Hk. exact (within_bind 0 k2 m k Hm Hk). Qed.

Lemma within_bind_r {A B : Type} (k1 : nat) (m : M A) (k : A -> M B) :
  within k1 m -> (forall a, within 0 (k a)) -> within k1 (bind m k).
Proof.
  intros Hm Hk. apply (within_weaken (k1 + 0)); [|lia].
  now apply within_bind.
Qed.

Lemma within_forM_zero {A B : Type} (g : A -> M B) (l : list A) :
  (forall a, In a l -> within 0 (g a)) -> within 0 (forM g l).
Proof.
  intros Hg. rewrite <- (list_sum_zero l). now apply within_forM.
Qed.

Ltac within_prim :=
  let st := fresh "st" in
  intros st; cbn; split; [reflexivity|]; split; [lia|]; intros _; exact I.

Ltac within_zero :=
  repeat match goal with
  | |- _ => progress cbv beta iota
  | |- within 0 (ret _) => apply within_ret
  | |- within 0 (fail _) => apply within_fail
  | |- within 0 (bind _ _) => apply within_bind_l; [|intros ?]
  | |- within 0 (forM _ _) => apply within_forM_zero; intros ? ?
  | |- within 0 getValues => within_prim
  | |- within 0 getColumnMap => within_prim
  | |- within 0 (appendValues _) => within_prim
  | |- within 0 resetValues => within_prim
  | |- within 0 (setColumn _ _) => within_prim
  | |- within 0 (putColumnMap _) => within_prim
  | |- within 0 (if ?b then _ else _) => destruct b
  | |- within 0 (match ?x with _ => _ end) => destruct x
  end.

Lemma within_analyticArguments {Value : Type} (host : Collaborators Value)
  (l : list (Node Value)) :
  existsb nilColumnRef l = false ->
  forall ctx args, within 0 (analyticArguments (FormatSQL host) l ctx args).
Proof.
  induction l as [|a rest IH]; intros Hnil ctx args; cbn [analyticArguments].
  - apply within_ret.
  - cbn [existsb] in Hnil. apply orb_false_elim in Hnil as [Ha Hrest].
    destruct a as [| |[t|]| | | | | | | | | | | | | | | | | | | | | | | | | | | |];
      try apply within_fail; try discriminate.
    apply within_bind_l; [apply within_ret|]. intros arg.
    apply within_bind_l; [within_prim|]. intros _. now apply IH.
Qed.

Ltac within_step IH :=
  match goal with
  | |- _ => progress cbv beta iota
  | |- within _ (ret _) =>
      eapply within_weaken; [apply within_ret|apply Nat.le_0_l]
  | |- within _ (fail _) =>
      eapply within_weaken; [apply within_fail|apply Nat.le_0_l]
  | |- within _ (FormatSQL _ _ _) => apply IH; solve_child
  | |- within _ (bind _ _) =>
      first [ apply within_bind_r; [|intros ?; solve [within_zero]]
            | apply within_bind_l; [solve [within_zero]|intros ?]
            | eapply within_bind; [|intros ?] ]
  | |- within _ (forM (fun a => FormatSQL ?h a _) _) =>
      eapply (within_forM (references h)); intros ? ?
  | |- within _ (forM _ _) =>
      first [ apply within_forM_zero; intros ? ?; solve [within_zero]
            | eapply within_forM; intros ? ? ]
  | |- within _ getColumnMap =>
      eapply within_weaken; [within_prim|apply Nat.le_0_l]
  | |- within _ (resolveCallee _ _ _ _ _ _ _) => apply within_resolveCallee
  | |- within _ (resolveName _) => apply within_resolveName
  | |- within _ (analyticArguments _ _ _ _) =>
      eapply within_weaken;
      [apply within_analyticArguments; assumption|apply Nat.le_0_l]
  | |- within _ (if ?b then _ else _) => destruct b
  | |- within _ (match ?x with _ => _ end) =>
      let E := fresh "E" in
      destruct x eqn:E; try rewrite E in *; try discriminate
  end.

Ltac budget :=
  repeat match goal with |- context [?x] => is_evar x; unify x 0 end;
  rewrite ?total_app, ?total_cons, ?total_nil, ?total_map, ?total_flat_map;
  unfold total;
  repeat match goal with
         | |- context [builtinb ?c ?f] => destruct (builtinb c f)
         end;
  cbn [negb]; lia.

Lemma within_analyticGroups {Value : Type} (host : Collaborators Value)
  (l : list (AnalyticFunctionGroup (Node Value))) :
  (forall group column ctx,
      In group l ->
      In column (AnalyticFunctionGroup_AnalyticFunctionList group) ->
      within (references host (ComputedColumn_Expr column))
        (FormatSQL host (ComputedColumn_Expr column) ctx)) ->
  forall ctx,
    within
      (list_sum
         (map (fun group =>
                 list_sum
                   (map (fun column =>
                           references host (ComputedColumn_Expr column))
                      (AnalyticFunctionGroup_AnalyticFunctionList group)))
            l))
      (analyticGroups (FormatSQL host) l ctx).
Proof.
  induction l as [|group rest IH]; intros Hrec ctx; cbn [analyticGroups].
  - apply within_ret.
  - match goal with
    | |- within (list_sum (map ?f (group :: rest))) _ =>
        change (list_sum (map f (group :: rest)))
          with (f group + list_sum (map f rest))
    end.
    cbv beta.
    apply within_bind_l.
    { destruct (AnalyticFunctionGroup_PartitionBy group); within_zero. }
    intros ctx1. apply within_bind_l.
    { destruct (AnalyticFunctionGroup_OrderBy group); within_zero. }
    intros ctx2. apply within_bind.
    { unfold AnalyticFunctionGroupNode_FormatSQL, ComputedColumnNode_FormatSQL.
      apply within_bind_r; [|intros ?; apply within_ret].
      apply within_forM. intros column Hcolumn.
      apply within_bind_r; [|intros ?; within_zero].
      apply within_bind_r; [|intros ?; within_zero].
      apply Hrec with (group := group); [now left|exact Hcolumn]. }
    intros _. apply IH. intros g column ctx' Hg Hcolumn.
    apply Hrec with (group := g); [now right|exact Hcolumn].
Qed.

Lemma FormatSQL_within {Value : Type} (host : Collaborators Value) :
  forall (n : Node Value),
    wellFormed n = true ->
    forall ctx, within (references host n) (FormatSQL host n ctx).
Proof.
  apply (Node_children_ind
           (fun n => wellFormed n = true ->
                     forall ctx,
                       within (references host n) (FormatSQL host n ctx))).
  intros n IH Hq ctx.
  pose proof (wellFormed_self n Hq) as Hself.
  assert (IH' : forall child, In child (children n) ->
                forall ctx,
                  within (references host child) (FormatSQL host child ctx)).
  { intros child Hc. apply IH; [exact Hc|].
    eapply wellFormed_child; eassumption. }
  clear IH Hq. rewrite references_children.
  destruct n as [[p|]|[p|]|[p|]|[p|]|[p|]|[p|]|[p|]|[p|]|[p|]|[p|]|[p|]|[p|]
                |[p|]|[p|]|[p|]|[p|]|[p|]|[p|]|[p|]|[p|]|[p|]|[p|]|[p|]
                |[|[p|]]|[|[p|]]|[|[p|]]|[|[p|]]|[p|]|[|[p|]]|[p|]|k u];
    cbn [FormatSQL LiteralNode_FormatSQL ParameterNode_FormatSQL
           ColumnRefNode_FormatSQL TableScanNode_FormatSQL
           WithRefScanNode_FormatSQL OutputColumnNode_FormatSQL
           ArgumentRefNode_FormatSQL];
    cbn [dereferencesNil] in Hself; try discriminate Hself;
    try (eapply within_weaken; [apply within_ret|apply Nat.le_0_l]);
    cbn [children writes] in *.
  all: repeat autounfold with rules.
  all: try (destruct (AggregateFunctionCall_Limit p) eqn:EL).
  all: try (destruct (AnalyticFunctionCall_WindowFrame p) eqn:EF).
  all: try (unfold lacksValue in Hself;
            destruct (UpdateItem_SetValue p) eqn:ES; [|discriminate Hself]).
  all: try (eapply within_weaken; [repeat within_step IH'|budget]; fail).
  - eapply within_weaken.
    + apply within_bind; [apply IH'; apply in_eq|]. intros input.
      apply within_bind_r; [|intros ?; within_zero].
      apply within_analyticGroups. intros group column ctx' Hg Hcolumn.
      apply IH'. apply in_cons. apply in_flat_map. exists group.
      split; [exact Hg|]. now apply in_map.
    + rewrite total_cons, total_flat_map, Nat.add_0_l.
      apply Nat.add_le_mono; [reflexivity|].
      apply list_sum_le. intros group _. now rewrite total_map.
  - eapply within_weaken; [repeat within_step IH'|].
    rewrite total_flat_map. apply Nat.add_le_mono; [reflexivity|].
    apply list_sum_le. intros row _. now rewrite total_map.
  - eapply within_weaken.
    + apply within_bind; [apply within_resolveName|]. intros tableName.
      apply within_bind.
      { apply (within_forM
                 (fun item =>
                    total host
                      (UpdateItem_Target item
                       :: match UpdateItem_SetValue item with
                          | Some value => [DMLValue_Value value]
                          | None => []
                          end))).
        intros item Hitem.
        assert (Hv : lacksValue item = false).
        { destruct (lacksValue item) eqn:E; [|reflexivity].
          assert (Hex : existsb lacksValue (UpdateStmt_UpdateItemList p)
                        = true)
            by (apply existsb_exists; eauto).
          congruence. }
        unfold lacksValue in Hv.
        destruct (UpdateItem_SetValue item) as [value|] eqn:Ev;
          [|discriminate Hv].
        rewrite !total_cons, total_nil.
        apply within_bind.
        - apply IH'. apply in_or_app. left. apply in_flat_map.
          exists item. split; [exact Hitem|apply in_eq].
        - intros target. apply within_bind; [|intros ?; apply within_ret].
          apply IH'. apply in_or_app. left. apply in_flat_map.
          exists item. split; [exact Hitem|]. rewrite Ev.
          apply in_cons, in_eq. }
      intros items. apply within_bind_r; [|intros ?; apply within_ret].
      apply IH'. apply in_or_app. right. apply in_eq.
    + rewrite total_app, total_flat_map, total_cons, total_nil. lia.
Qed.

(** X19. When no node of the tree reads an absent payload and the
    paths hold, from the cursor on, one entry for every reference of
    the tree (its table scans, its insert, update and delete
    statements and its calls of functions that are not built in), the
    translation does not panic, and the cursor moves by at most the
    number of references; without an analytic call in the tree it
    returns a text. *)
Theorem enough_paths_translate :
  forall (Value : Type) (host : Collaborators Value) (n : Node Value)
         (ctx : Env) (st : St),
    wellFormed n = true ->
    idx st + references host n <= length (paths st) ->
    fst (FormatSQL host n ctx st) <> Panic /\
    idx (snd (FormatSQL host n ctx st)) <= idx st + references host n /\
    (sound host Failed n = true ->
     exists sql, fst (FormatSQL host n ctx st) = Ok sql).
Proof.
  intros Value host n ctx st Hwf Hb.
  destruct (FormatSQL_within host n Hwf ctx st) as (_ & Hi & Hs).
  specialize (Hs Hb).
  split; [|split; [exact Hi|]].
  - intros E. rewrite E in Hs. exact Hs.
  - intros Hf.
    pose proof (FormatSQL_avoids host Failed n Hf ctx st) as He.
    destruct (fst (FormatSQL host n ctx st)) as [sql|err|];
      [eauto|contradiction|contradiction].
Qed.

Lemma enough_paths_translate_witness :
  exists sql,
    fst (FormatSQL demoHost (UpdateStmtNode (Wrapper (Some updateStmt)))
           (freshEnv [] ∅) (freshSt [["t"]]))
    = Ok sql.
Proof.
  refine (proj2 (proj2 (enough_paths_translate string demoHost
                          (UpdateStmtNode (Wrapper (Some updateStmt)))
                          (freshEnv [] ∅) (freshSt [["t"]]) _ _)) _).
  - vm_compute. reflexivity.
  - vm_compute. lia.
  - vm_compute. reflexivity.
Defined.
